(** * epub2pdf: a shallow embedding of [epub2pdf.py] and its specification

    The development follows the layout of the program: the Python string
    primitives the code relies on, the regular expressions it uses, then the
    methods of [EPUBtoPDFConverter] from the leaves (MIME resolver, image
    collector) up to the batch driver.

    Conventions.
    - A Python [str] is a [string]; a character is a code point below 256,
      and a character above 255 stands in a text as the bytes of its UTF-8
      encoding, as in the literals of the program. [str.lower], [\s] and
      case-insensitive matching are given for code points below 256 as
      CPython computes them. Above 127 CPython knows more: [re.IGNORECASE]
      takes U+0130 and U+0131 for an [i] and U+017F for an [s], and [\s]
      matches further white space. Only the image pattern and the attribute
      pattern can tell ([<img], [src], [\s]); the statements about them
      exclude such text by hypothesis ([img_start], [attr_start]).
    - A Python [bytes] is a [list Byte.byte].
    - A [dict] with string keys is a [gmap string _].
    - A call that may raise returns an [option]; [None] stands for the
      exception reaching the enclosing [try].
    - Logging leaves no trace in the values the methods return and is left
      out. The creation of the output directory is a test that may fail in
      [get_output_path_fs]; the batch takes it to succeed. *)

From Stdlib Require Import ZArith QArith Ascii String List DecimalString.
From Stdlib.Strings Require Import Byte.
From stdpp Require Import gmap strings list sorting.

Local Open Scope Z_scope.
Local Open Scope nat_scope.

(** ** Python string primitives *)

Module Py.

(** The characters the code names that cannot be written inside a literal. *)
Definition dquote : ascii := ascii_of_nat 34.
Definition squote : ascii := ascii_of_nat 39.

Definition chr (c : ascii) : string := String c EmptyString.

Definition between (lo hi n : nat) : bool := (lo <=? n) && (n <=? hi).

(** [str.lower] on one code point below 256: A-Z, and the Latin-1 capitals
    U+00C0..U+00DE except the multiplication sign U+00D7. *)
Definition lower_char (c : ascii) : ascii :=
  let n := nat_of_ascii c in
  if between 65 90 n || between 192 214 n || between 216 222 n
  then ascii_of_nat (n + 32) else c.

Fixpoint lower (s : string) : string :=
  match s with
  | EmptyString => EmptyString
  | String c s' => String (lower_char c) (lower s')
  end.

(** [str.isspace] on one code point below 256, which is what [\s] matches
    in a [str] pattern. *)
Definition is_space (c : ascii) : bool :=
  let n := nat_of_ascii c in
  between 9 13 n || between 28 32 n || (n =? 133) || (n =? 160).

(** [s.split(sep)] for a one-character separator: never an empty list. *)
Fixpoint split (sep : ascii) (s : string) : list string :=
  match s with
  | EmptyString => [EmptyString]
  | String c s' =>
      if Ascii.eqb c sep then EmptyString :: split sep s'
      else match split sep s' with
           | h :: t => String c h :: t
           | [] => [chr c]
           end
  end.

(** [l[-1]] on the result of a split (which has at least one element). *)
Definition neg1 (l : list string) : string := List.last l EmptyString.

(** [s.startswith(p)]. *)
Definition startswith (p s : string) : bool := String.prefix p s.

(** [s.replace(old, new)]: every occurrence, left to right, without
    overlap. [skip] counts the characters of an occurrence already
    replaced that are still to be passed over. *)
Fixpoint replace_from (old new : string) (skip : nat) (s : string) : string :=
  match s with
  | EmptyString => EmptyString
  | String c s' =>
      match skip with
      | S k => replace_from old new k s'
      | O =>
          if String.prefix old s
          then new +:+ replace_from old new (String.length old - 1) s'
          else String c (replace_from old new 0 s')
      end
  end.

Fixpoint intersperse_all (new : string) (s : string) : string :=
  match s with
  | EmptyString => new
  | String c s' => new +:+ String c (intersperse_all new s')
  end.

Definition replace (old new s : string) : string :=
  match old with
  | EmptyString => intersperse_all new s
  | _ => replace_from old new 0 s
  end.

(** [c in chars]. *)
Fixpoint char_in (c : ascii) (chars : string) : bool :=
  match chars with
  | EmptyString => false
  | String d chars' => Ascii.eqb c d || char_in c chars'
  end.

(** [s.lstrip(chars)]: all leading characters that occur in [chars]. *)
Fixpoint lstrip (chars s : string) : string :=
  match s with
  | EmptyString => EmptyString
  | String c s' => if char_in c chars then lstrip chars s' else s
  end.

(** [needle in hay]. *)
Fixpoint contains (needle hay : string) : bool :=
  String.prefix needle hay ||
  match hay with
  | EmptyString => false
  | String _ hay' => contains needle hay'
  end.

(** [list(dict.fromkeys(l))]: the first occurrence of each key, in order. *)
Fixpoint fromkeys_from (seen l : list string) : list string :=
  match l with
  | [] => []
  | k :: l' =>
      if bool_decide (k ∈ seen) then fromkeys_from seen l'
      else k :: fromkeys_from (k :: seen) l'
  end.

Definition fromkeys (l : list string) : list string := fromkeys_from [] l.

(** [len(b)] as a Python integer. *)
Definition len {A} (l : list A) : Z := Z.of_nat (length l).

End Py.

(** ** MimeResolver: [_get_image_mime_type] *)

Definition mime_types : gmap string string :=
  list_to_map
    [ ("jpg", "image/jpeg"); ("jpeg", "image/jpeg"); ("png", "image/png");
      ("gif", "image/gif"); ("bmp", "image/bmp"); ("svg", "image/svg+xml");
      ("webp", "image/webp") ].

Definition _get_image_mime_type (filename : string) : string :=
  let ext := Py.neg1 (Py.split "." (Py.lower filename)) in
  default "image/jpeg" (mime_types !! ext).

(** ** [base64.b64encode] *)

Module Base64.

Definition alphabet : string :=
  "ABCDEFGHIJKLMNOPQRSTUVWXYZabcdefghijklmnopqrstuvwxyz0123456789+/".

Definition digit (n : N) : ascii :=
  default "="%char (String.get (N.to_nat n) alphabet).

Definition pad : ascii := "="%char.

Definition of_chars (l : list ascii) : string :=
  fold_right String EmptyString l.

Fixpoint b64encode (b : list byte) : string :=
  match b with
  | [] => EmptyString
  | [x] =>
      let n := Byte.to_N x in
      of_chars [digit (N.shiftr n 2); digit (N.shiftl (N.land n 3) 4); pad; pad]
  | [x; y] =>
      let n := Byte.to_N x in
      let m := Byte.to_N y in
      of_chars [digit (N.shiftr n 2);
                digit (N.lor (N.shiftl (N.land n 3) 4) (N.shiftr m 4));
                digit (N.shiftl (N.land m 15) 2); pad]
  | x :: y :: z :: rest =>
      let n := Byte.to_N x in
      let m := Byte.to_N y in
      let k := Byte.to_N z in
      of_chars [digit (N.shiftr n 2);
                digit (N.lor (N.shiftl (N.land n 3) 4) (N.shiftr m 4));
                digit (N.lor (N.shiftl (N.land m 15) 2) (N.shiftr k 6));
                digit (N.land k 63)]
      +:+ b64encode rest
  end.

End Base64.

(** ** The regular expressions of the program

    Every pattern in [epub2pdf.py] is a sequence of character sets, each
    taken once or under [*], [+] or [*?], with at most one capturing group.
    [match_here] is the backtracking matcher of [re] on that fragment: a
    greedy repeat tries the longest run first and gives characters back one
    at a time, a lazy one tries the shortest first; the first alternative
    that lets the rest of the pattern match is the match. *)

Module Re.

Inductive quant := One | Star | Plus | LazyStar.

Inductive node :=
| Chars (p : ascii -> bool) (q : quant)
| GroupOpen
| GroupClose.

Definition pattern := list node.

(** Where group 1 opened and closed, as the text that was left to read. *)
Record caps := { g_open : option string; g_close : option string }.

Definition no_caps : caps := {| g_open := None; g_close := None |}.

Definition text_between (from to : string) : string :=
  String.substring 0 (String.length from - String.length to) from.

Fixpoint match_here (p : pattern) : string -> caps -> option (string * caps) :=
  match p with
  | [] => fun s g => Some (s, g)
  | GroupOpen :: p' =>
      fun s g => match_here p' s {| g_open := Some s; g_close := g_close g |}
  | GroupClose :: p' =>
      fun s g => match_here p' s {| g_open := g_open g; g_close := Some s |}
  | Chars f One :: p' =>
      fun s g =>
        match s with
        | String c s' => if f c then match_here p' s' g else None
        | EmptyString => None
        end
  | Chars f Star :: p' =>
      fix greedy (s : string) (g : caps) : option (string * caps) :=
        match s with
        | String c s' =>
            if f c
            then match greedy s' g with
                 | Some r => Some r
                 | None => match_here p' s g
                 end
            else match_here p' s g
        | EmptyString => match_here p' s g
        end
  | Chars f Plus :: p' =>
      fun s g =>
        match s with
        | String c s' =>
            if f c
            then (fix greedy (s : string) (g : caps) : option (string * caps) :=
                    match s with
                    | String c s' =>
                        if f c
                        then match greedy s' g with
                             | Some r => Some r
                             | None => match_here p' s g
                             end
                        else match_here p' s g
                    | EmptyString => match_here p' s g
                    end) s' g
            else None
        | EmptyString => None
        end
  | Chars f LazyStar :: p' =>
      fix lazy (s : string) (g : caps) : option (string * caps) :=
        match match_here p' s g with
        | Some r => Some r
        | None =>
            match s with
            | String c s' => if f c then lazy s' g else None
            | EmptyString => None
            end
        end
  end.

(** A match object: [group(0)], [group(1)] and the text after the match. *)
Record Match := { group0 : string; group1 : string; rest : string }.

Definition match_at (p : pattern) (s : string) : option Match :=
  match match_here p s no_caps with
  | Some (r, g) =>
      Some {| group0 := text_between s r;
              group1 := match g_open g, g_close g with
                        | Some o, Some c => text_between o c
                        | _, _ => EmptyString
                        end;
              rest := r |}
  | None => None
  end.

(** [re.search]: the match at the leftmost position that has one. *)
Fixpoint search (p : pattern) (s : string) : option Match :=
  match match_at p s with
  | Some m => Some m
  | None =>
      match s with
      | String _ s' => search p s'
      | EmptyString => None
      end
  end.

(** [re.sub(p, repl, s, count)]. [limit] is the number of replacements
    still allowed ([None]: no limit), [skip] the characters of the last
    match still to be passed over. No pattern of the program matches the
    empty string (each starts with a literal character); an empty match is
    passed over like a failed one. *)
Fixpoint sub_from (p : pattern) (repl : Match -> string)
    (limit : option nat) (skip : nat) (s : string) : string :=
  match s with
  | EmptyString => EmptyString
  | String c s' =>
      match skip with
      | S k => sub_from p repl limit k s'
      | O =>
          match limit with
          | Some O => s
          | _ =>
              match match_at p s with
              | Some m =>
                  match String.length (group0 m) with
                  | O => String c (sub_from p repl limit 0 s')
                  | S k => repl m +:+ sub_from p repl (pred <$> limit) k s'
                  end
              | None => String c (sub_from p repl limit 0 s')
              end
          end
      end
  end.

(** [count = 0] asks for every match, as in Python. *)
Definition sub (p : pattern) (repl : Match -> string) (s : string) (count : nat) : string :=
  sub_from p repl (match count with O => None | S _ => Some count end) 0 s.

(** *** Building patterns. [ic] is the [re.IGNORECASE] flag. *)

Definition same_char (ic : bool) (c x : ascii) : bool :=
  if ic then Ascii.eqb (Py.lower_char x) (Py.lower_char c) else Ascii.eqb x c.

Fixpoint in_set (ic : bool) (set : string) (x : ascii) : bool :=
  match set with
  | EmptyString => false
  | String c set' => same_char ic c x || in_set ic set' x
  end.

(** A literal string. *)
Fixpoint lit (ic : bool) (s : string) : pattern :=
  match s with
  | EmptyString => []
  | String c s' => Chars (same_char ic c) One :: lit ic s'
  end.

(** [[^set]] under a quantifier. *)
Definition none_of (ic : bool) (set : string) (q : quant) : pattern :=
  [Chars (fun x => negb (in_set ic set x)) q].

(** [[set]] under a quantifier. *)
Definition one_of (ic : bool) (set : string) (q : quant) : pattern :=
  [Chars (in_set ic set) q].

(** [\s] under a quantifier. *)
Definition space (q : quant) : pattern := [Chars Py.is_space q].

(** [.] under a quantifier, with [re.DOTALL]. *)
Definition dot_all (q : quant) : pattern := [Chars (fun _ => true) q].

Definition group (p : pattern) : pattern := GroupOpen :: p ++ [GroupClose].

End Re.

(** ** The package, as [ebooklib] hands it to the program *)

Inductive ItemType := ITEM_DOCUMENT | ITEM_IMAGE | ITEM_OTHER.

(** One item of [book.get_items()]. [get_content] is [None] when the call
    raises. *)
Record Item := {
  get_id : string;
  get_name : string;
  get_type : ItemType;
  get_content : option (list byte)
}.

(** [dc_title] and [dc_creator] are the values of
    [book.get_metadata('DC', ...)]; [spine] holds the pairs
    [(item_id, linear)]. *)
Record Book := {
  dc_title : list string;
  dc_creator : list string;
  get_items : list Item;
  spine : list (string * string)
}.

Definition is_image (item : Item) : bool :=
  match get_type item with ITEM_IMAGE => true | _ => false end.

Definition is_document (item : Item) : bool :=
  match get_type item with ITEM_DOCUMENT => true | _ => false end.

(** ** ImageCollector: [extract_images_from_epub] *)

Definition max_images : nat := 500.
Definition max_size : Z := 5 * 1024 * 1024.

Definition basename (path : string) : string := Py.neg1 (Py.split "/" path).

Definition data_url (filename : string) (content : list byte) : string :=
  "data:" +:+ _get_image_mime_type filename +:+ ";base64," +:+ Base64.b64encode content.

(** The two variables of the loop. *)
Record Collected := {
  images : gmap string string;
  processed_count : nat
}.

(** The body of the inner [try] for one image item. *)
Definition collect_image (item : Item) (st : Collected) : Collected :=
  match get_content item with
  | None => st
  | Some content =>
      let filename := get_name item in
      if (Py.len content >? max_size)%Z then st
      else
        let url := data_url filename content in
        let base_name := basename filename in
        let images := <[filename := url]> (images st) in
        let images :=
          if bool_decide (base_name ≠ filename)
          then <[base_name := url]> images else images in
        {| images := images; processed_count := processed_count st + 1 |}
  end.

(** The loop over [book.get_items()], with its [break]. *)
Fixpoint collect_images (items : list Item) (st : Collected) : Collected :=
  match items with
  | [] => st
  | item :: items' =>
      if is_image item then
        if max_images <=? processed_count st then st
        else collect_images items' (collect_image item st)
      else collect_images items' st
  end.

Definition collect_book (book : Book) : Collected :=
  collect_images (get_items book) {| images := ∅; processed_count := 0 |}.

Definition extract_images_from_epub (book : Book) : gmap string string :=
  images (collect_book book).

(** [len(set(images.values()))], the count the method logs. *)
Definition unique_images (images : gmap string string) : nat :=
  size (list_to_set (map_to_list images).*2 : gset string).

(** ** FragmentSanitizer: [_clean_html_content] *)

Definition quotes : string := String Py.dquote (String Py.squote EmptyString).

Module Pat.
Import Re.

(** [<\?xml[^>]*\?>] *)
Definition xml_decl : pattern :=
  lit false "<?xml" ++ none_of false ">" Star ++ lit false "?>".

(** [<!DOCTYPE[^>]*>] *)
Definition doctype : pattern :=
  lit false "<!DOCTYPE" ++ none_of false ">" Star ++ lit false ">".

(** [<body[^>]*>(.*?)</body>] with [re.DOTALL | re.IGNORECASE] *)
Definition body : pattern :=
  lit true "<body" ++ none_of true ">" Star ++ lit true ">"
  ++ group (dot_all LazyStar) ++ lit true "</body>".

(** [<html[^>]*>] with [re.IGNORECASE] *)
Definition html_open : pattern :=
  lit true "<html" ++ none_of true ">" Star ++ lit true ">".

(** [</html>] with [re.IGNORECASE] *)
Definition html_close : pattern := lit true "</html>".

(** [<head[^>]*>.*?</head>] with [re.DOTALL | re.IGNORECASE] *)
Definition head : pattern :=
  lit true "<head" ++ none_of true ">" Star ++ lit true ">"
  ++ dot_all LazyStar ++ lit true "</head>".

(** [<img[^>]*src\s*=\s*Q([^Q]+)Q[^>]*>] with [re.IGNORECASE], where [Q]
    is the set of the two quote characters *)
Definition img : pattern :=
  lit true "<img" ++ none_of true ">" Star ++ lit true "src" ++ space Star
  ++ lit true "=" ++ space Star ++ one_of true quotes One
  ++ group (none_of true quotes Plus) ++ one_of true quotes One
  ++ none_of true ">" Star ++ lit true ">".

(** [src\s*=\s*Q[^Q]+Q], without flags *)
Definition src_attr : pattern :=
  lit false "src" ++ space Star ++ lit false "=" ++ space Star
  ++ one_of false quotes One ++ none_of false quotes Plus
  ++ one_of false quotes One.

End Pat.

Definition erase : Re.Match -> string := fun _ => EmptyString.

Definition _clean_html_content (content : string) : string :=
  let content := Re.sub Pat.xml_decl erase content 0 in
  let content := Re.sub Pat.doctype erase content 0 in
  match Re.search Pat.body content with
  | Some body_match => Re.group1 body_match
  | None =>
      let content := Re.sub Pat.html_open erase content 0 in
      let content := Re.sub Pat.html_close erase content 0 in
      let content := Re.sub Pat.head erase content 0 in
      content
  end.

(** ** ReferenceRewriter: [_replace_image_references] *)

(** The list [possible_keys] that [replace_img_src] builds for [src]. *)
Definition path_variants (src : string) : list string :=
  [ src;
    basename src;
    Py.replace "../" "" src;
    Py.replace "./" "" src;
    Py.lstrip "/" src;
    Py.replace "images/" "" src;
    Py.replace "Images/" "" src;
    Py.replace "IMAGES/" "" src ].

Definition possible_keys (src : string) : list string :=
  let possible_keys := path_variants src in
  let base_filename := basename src in
  let possible_keys :=
    if bool_decide (base_filename ∈ possible_keys) then possible_keys
    else possible_keys ++ [base_filename] in
  take 10 (Py.fromkeys possible_keys).

(** [for key in keys: if key and key in images: ...]: the key the loop
    stops at. *)
Fixpoint find_key (images : gmap string string) (keys : list string) : option string :=
  match keys with
  | [] => None
  | key :: keys' =>
      if bool_decide (key ≠ EmptyString) && bool_decide (is_Some (images !! key))
      then Some key else find_key images keys'
  end.

(** The replacement argument of [re.sub] is a template in which a backslash
    starts an escape. The data URLs of [extract_images_from_epub] and the
    placeholder hold no backslash and stand for themselves. For a template
    with a backslash the model leaves the tag as it is, which is what the
    code does for the escapes [re] rejects ([re.error], caught by the
    caller); the escapes [re] expands are not modelled, and every statement
    about a value written into a tag is for a value without backslash. *)
Definition template (repl : string) : option string :=
  if Py.char_in (ascii_of_nat 92) repl then None else Some repl.

Definition set_src (value : string) (full_tag : string) : string :=
  match template ("src=" +:+ Py.chr Py.dquote +:+ value +:+ Py.chr Py.dquote) with
  | Some repl => Re.sub Pat.src_attr (fun _ => repl) full_tag 1
  | None => full_tag
  end.

Definition replace_img_src (images : gmap string string) (m : Re.Match) : string :=
  let full_tag := Re.group0 m in
  let src := Re.group1 m in
  if Py.startswith "data:" src then full_tag
  else
    match find_key images (possible_keys src) with
    | Some key =>
        let escaped_image_data :=
          Py.replace (Py.chr Py.dquote) "&quot;" (default EmptyString (images !! key)) in
        set_src escaped_image_data full_tag
    | None => set_src "#" full_tag
    end.

(** The handler for [RecursionError] has nothing to catch here: the
    substitution is a structural recursion over the fragment. *)
Definition _replace_image_references (content : string) (images : gmap string string) : string :=
  if bool_decide (images = ∅) then content
  else Re.sub Pat.img (replace_img_src images) content 0.

(** ** ContentAssembler: [extract_epub_content] *)

(** [enumerate(l)]. *)
Definition enumerate {A} (l : list A) : list (nat * A) := zip (seq 0 (length l)) l.

(** The dictionary [spine_order]: a later entry for an identifier replaces
    an earlier one. *)
Definition spine_order (spine : list (string * string)) : gmap string nat :=
  fold_left (fun m e => <[fst (snd e) := fst e]> m) (enumerate spine) ∅.

(** [list.sort(key=...)] is stable; insertion from the right is the stable
    sort written out. *)
Fixpoint insert_by {A} (key : A -> nat) (x : A) (l : list A) : list A :=
  match l with
  | [] => [x]
  | y :: l' => if key x <=? key y then x :: l else y :: insert_by key x l'
  end.

Fixpoint sort_by {A} (key : A -> nat) (l : list A) : list A :=
  match l with
  | [] => []
  | x :: l' => insert_by key x (sort_by key l')
  end.

Definition spine_key (book : Book) (doc : Item) : nat :=
  default 999 (spine_order (spine book) !! get_id doc).

Definition ordered_documents (book : Book) : list Item :=
  let documents := filter (fun item => is_document item = true) (get_items book) in
  match spine book with
  | [] => documents
  | _ => sort_by (spine_key book) documents
  end.

(** [Path(p).name] and [Path(p).stem]. *)
Definition join_dot (l : list string) : string :=
  match l with
  | [] => EmptyString
  | h :: t => fold_left (fun acc x => acc +:+ "." +:+ x) t h
  end.

Definition is_empty (s : string) : bool :=
  match s with EmptyString => true | _ => false end.

Definition stem (path : string) : string :=
  let name := basename path in
  let parts := Py.split "." name in
  let base := join_dot (removelast parts) in
  if (2 <=? length parts) && negb (is_empty base) && negb (is_empty (Py.neg1 parts))
  then base else name.

Definition html_head (title author : string) : string :=
  let dq := Py.chr Py.dquote in
    "
            <!DOCTYPE html>
            <html>
            <head>
                <meta charset=" +:+ dq +:+ "utf-8" +:+ dq +:+ ">
                <title>" +:+ title +:+ "</title>
                <style>
                    body {
                        font-family: " +:+ dq +:+ "SimSun" +:+ dq +:+ ", " +:+ dq +:+ "宋体" +:+ dq +:+ ", serif;
                        font-size: 12pt;
                        line-height: 1.6;
                        margin: 2cm;
                        text-align: justify;
                    }
                    h1, h2, h3, h4, h5, h6 {
                        font-weight: bold;
                        margin-top: 1em;
                        margin-bottom: 0.5em;
                    }
                    h1 { font-size: 18pt; }
                    h2 { font-size: 16pt; }
                    h3 { font-size: 14pt; }
                    p { margin: 0.5em 0; }
                    img {
                        max-width: 100%;
                        height: auto;
                        display: block;
                        margin: 1em auto;
                    }
                    .title-page {
                        text-align: center;
                        margin-bottom: 2em;
                    }
                    .title { font-size: 24pt; font-weight: bold; }
                    .author { font-size: 16pt; margin-top: 1em; }
                    @page {
                        margin: 2cm;
                        @bottom-center {
                            content: counter(page);
                        }
                    }
                </style>
            </head>
            <body>
                <div class=" +:+ dq +:+ "title-page" +:+ dq +:+ ">
                    <div class=" +:+ dq +:+ "title" +:+ dq +:+ ">" +:+ title +:+ "</div>
                    <div class=" +:+ dq +:+ "author" +:+ dq +:+ ">" +:+ author +:+ "</div>
                </div>
            ".

Definition html_tail : string :=
    "
            </body>
            </html>
            ".

(** The title and the author, with their fallbacks. *)
Definition title_of (epub_path : string) (book : Book) : string :=
  match dc_title book with t :: _ => t | [] => stem epub_path end.

Definition author_of (book : Book) : string :=
  match dc_creator book with a :: _ => a | [] => "未知作者" end.

Section Converter.

(** [bytes.decode('utf-8', errors='ignore')]. *)
Variable decode : list byte -> string.

(** [epub.read_epub(str(epub_path))]; [None] when it raises. *)
Variable read_epub : string -> option Book.

(** [HTML(string=html, base_url=dir).write_pdf(target)]; [false] when it
    raises. *)
Variable write_pdf : string -> string -> bool.

(** [get_output_path] on the inputs of a batch, which [find_epub_files]
    globs below the source root: there the path arithmetic of [pathlib]
    returns a path ([output_path]); the creation of its directory is taken
    to succeed. A path outside the source root, for which the method
    raises, is not an input of this function. *)
Variable get_output_path : string -> string.

(** [epub_path.stat().st_mtime] of an input file. The program reads the
    input files and never writes them. *)
Variable epub_mtime : string -> Q.

(** The body of the [try] for one document item. *)
Definition fragment (images : gmap string string) (item : Item) : option string :=
  match get_content item with
  | None => None
  | Some raw =>
      let content := decode raw in
      let cleaned_content := _clean_html_content content in
      Some (_replace_image_references cleaned_content images)
  end.

Definition append_fragment (images : gmap string string)
    (html_content : string) (item : Item) : string :=
  match fragment images item with
  | Some content_with_images => html_content +:+ content_with_images
  | None => html_content
  end.

Definition assemble (epub_path : string) (book : Book) : string :=
  let title := title_of epub_path book in
  let author := author_of book in
  let images := extract_images_from_epub book in
  let html_content := html_head title author in
  let html_content :=
    fold_left (append_fragment images) (ordered_documents book) html_content in
  html_content +:+ html_tail.

Definition extract_epub_content (epub_path : string) : option string :=
  match read_epub epub_path with
  | Some book => Some (assemble epub_path book)
  | None => None
  end.

(** ** ConversionOrchestrator *)

(** The output tree: the [st_mtime] of each output file that exists. *)
Definition is_already_converted (outputs : gmap string Q) (epub_path : string) : bool :=
  let pdf_path := get_output_path epub_path in
  match outputs !! pdf_path with
  | Some pdf_mtime => Qle_bool (epub_mtime epub_path) pdf_mtime
  | None => false
  end.

(** [str(Path(p).parent)]. *)
Definition parent (path : string) : string :=
  if Py.char_in "/" path then
    match String.substring 0
            (String.length path - String.length (basename path) - 1) path with
    | EmptyString => "/"
    | dir => dir
    end
  else ".".

(** [write_time p] is the time stamp the file system gives [p] when the
    renderer writes it during this run. *)
Definition convert_epub_to_pdf (write_time : string -> Q)
    (outputs : gmap string Q) (epub_path : string) : bool * gmap string Q :=
  if is_already_converted outputs epub_path then (true, outputs)
  else
    match extract_epub_content epub_path with
    | None => (false, outputs)
    | Some html_content =>
        if is_empty html_content then (false, outputs)
        else
          let pdf_path := get_output_path epub_path in
          if write_pdf html_content (parent epub_path)
          then (true, <[pdf_path := write_time pdf_path]> outputs)
          else (false, outputs)
    end.

(** Whether the conversion proper of a file fails: no document comes out of
    the package, or the renderer raises. *)
Definition cannot_convert (epub_path : string) : bool :=
  match extract_epub_content epub_path with
  | None => true
  | Some html_content =>
      is_empty html_content || negb (write_pdf html_content (parent epub_path))
  end.

Record Results := { total : nat; success : nat; failed : nat; skipped : nat }.

Inductive Outcome := Skipped | Success | Failed.

(** One turn of the loop of [convert_all]: which counter it increments. *)
Definition convert_one (write_time : string -> Q)
    (outputs : gmap string Q) (epub_path : string) : Outcome * gmap string Q :=
  if is_already_converted outputs epub_path then (Skipped, outputs)
  else
    let r := convert_epub_to_pdf write_time outputs epub_path in
    (if fst r then Success else Failed, snd r).

Definition count (o : Outcome) (results : Results) : Results :=
  match o with
  | Skipped => {| total := total results; success := success results;
                  failed := failed results; skipped := skipped results + 1 |}
  | Success => {| total := total results; success := success results + 1;
                  failed := failed results; skipped := skipped results |}
  | Failed => {| total := total results; success := success results;
                 failed := failed results + 1; skipped := skipped results |}
  end.

(** The loop of [convert_all] seen file by file: the outcome of each turn,
    in order, and the output tree at the end. *)
Fixpoint outcomes (write_time : string -> Q) (files : list string)
    (outputs : gmap string Q) : list Outcome * gmap string Q :=
  match files with
  | [] => ([], outputs)
  | p :: files' =>
      let r := convert_one write_time outputs p in
      let rs := outcomes write_time files' (snd r) in
      (fst r :: fst rs, snd rs)
  end.

Definition loop_step (write_time : string -> Q)
    (st : Results * gmap string Q) (epub_path : string) : Results * gmap string Q :=
  let r := convert_one write_time (snd st) epub_path in
  (count (fst r) (fst st), snd r).

(** [epub_files] is the list [find_epub_files] returned. *)
Definition convert_all (write_time : string -> Q) (epub_files : list string)
    (outputs : gmap string Q) : Results * gmap string Q :=
  match epub_files with
  | [] => ({| total := 0; success := 0; failed := 0; skipped := 0 |}, outputs)
  | _ =>
      fold_left (loop_step write_time) epub_files
        ({| total := length epub_files; success := 0; failed := 0; skipped := 0 |},
         outputs)
  end.

End Converter.

(** ** [pathlib]: the path arithmetic of [get_output_path]

    A path is the list of its parts, the anchor apart; a part holds no
    slash. *)

Module PathLib.

Definition Path := list string.

(** [p.name]: the last part, empty for the path without parts. *)
Definition name (p : Path) : string := List.last p EmptyString.

(** The pieces of a name between its dots, and whether the last dot starts
    a suffix: [0 < i < len(name) - 1] for [i = name.rfind('.')]. *)
Definition has_suffix (name : string) : bool :=
  let parts := Py.split "." name in
  (2 <=? length parts) && negb (is_empty (join_dot (removelast parts)))
  && negb (is_empty (Py.neg1 parts)).

(** [p.suffix] on the name. *)
Definition suffix (name : string) : string :=
  if has_suffix name then "." +:+ Py.neg1 (Py.split "." name) else EmptyString.

(** [p.with_suffix(new)] for a well-formed [new]; [None] is the
    [ValueError] for a path with an empty name. *)
Definition with_suffix (p : Path) (new : string) : option Path :=
  let name := name p in
  if is_empty name then None
  else
    let old_suffix := suffix name in
    let name :=
      if is_empty old_suffix then name +:+ new
      else String.substring 0 (String.length name - String.length old_suffix) name
           +:+ new in
    Some (removelast p ++ [name]).

(** [p.relative_to(other)]; [None] is the [ValueError] for a path that is
    not under [other]. *)
Fixpoint relative_to (p other : Path) : option Path :=
  match other with
  | [] => Some p
  | o :: other' =>
      match p with
      | x :: p' => if String.eqb x o then relative_to p' other' else None
      | [] => None
      end
  end.

End PathLib.

(** The path [get_output_path] computes before it creates the directory:
    the input's path relative to the source root, with the suffix [.pdf],
    under the output root. [None] is the [ValueError] of [relative_to] or
    of [with_suffix]. *)
Definition output_path (source_dir output_dir epub_path : PathLib.Path)
  : option PathLib.Path :=
  match PathLib.relative_to epub_path source_dir with
  | None => None
  | Some relative_path =>
      match PathLib.with_suffix relative_path ".pdf" with
      | None => None
      | Some pdf => Some (output_dir ++ pdf)
      end
  end.

(** [get_output_path] as a whole. [mkdir dir] says whether
    [pdf_path.parent.mkdir(parents=True, exist_ok=True)] succeeds for the
    directory [dir]; [None] is any of the exceptions of the method. *)
Definition get_output_path_fs (mkdir : PathLib.Path -> bool)
    (source_dir output_dir epub_path : PathLib.Path) : option PathLib.Path :=
  match output_path source_dir output_dir epub_path with
  | None => None
  | Some pdf_path => if mkdir (removelast pdf_path) then Some pdf_path else None
  end.

(** [main]: the exit status chosen from the results of [convert_all]. *)
Definition main_status (results : Results) : Z :=
  if 0 <? failed results then 1%Z else 0%Z.

(** ** Vocabulary of the statements *)

(** An image of more than [max_size] bytes. *)
Definition oversized (item : Item) : bool :=
  is_image item &&
  match get_content item with
  | Some content => (Py.len content >? max_size)%Z
  | None => false
  end.

(** Where an entry of the map comes from. *)
Definition registered_by (item : Item) (key url : string) : Prop :=
  is_image item = true
  ∧ (∃ content, get_content item = Some content
                ∧ (Py.len content <= max_size)%Z
                ∧ url = data_url (get_name item) content)
  ∧ (key = get_name item ∨ key = basename (get_name item)).

(** The values of the map, as a set. *)
Definition urls (m : gmap string string) : gset string :=
  list_to_set (map_to_list m).*2.

(** The package without its oversized images. *)
Definition without_oversized (book : Book) : Book :=
  {| dc_title := dc_title book; dc_creator := dc_creator book;
     get_items := filter (fun item => oversized item = false) (get_items book);
     spine := spine book |}.

(** The declared rank of a document, if its identifier is in the spine. *)
Definition declared_rank (book : Book) (doc : Item) : option nat :=
  spine_order (spine book) !! get_id doc.

Definition is_declared (book : Book) (doc : Item) : bool :=
  bool_decide (is_Some (declared_rank book doc)).

(** The documents of the package, in the order [get_items] gives them. *)
Definition documents (book : Book) : list Item :=
  filter (fun item => is_document item = true) (get_items book).

(** The concatenation of the fragments that could be built. *)
Definition join (l : list string) : string := fold_right String.append EmptyString l.

(** The candidate keys as the specification words them: the prefixes
    [./], [/], [images/], [Images/] and [IMAGES/] are removed where they
    lead the reference, one leading slash at most, and the first candidate
    that is a key of the map wins. *)
Definition spec_strip_prefix (p s : string) : string :=
  if String.prefix p s
  then String.substring (String.length p) (String.length s - String.length p) s
  else s.

(** [p] occurs in [s] at its start or not at all. *)
Definition only_leading (p s : string) : Prop :=
  Py.contains p (spec_strip_prefix p s) = false.

Definition spec_path_variants (src : string) : list string :=
  [ src;
    basename src;
    Py.replace "../" "" src;
    spec_strip_prefix "./" src;
    spec_strip_prefix "/" src;
    spec_strip_prefix "images/" src;
    spec_strip_prefix "Images/" src;
    spec_strip_prefix "IMAGES/" src ].

Definition spec_possible_keys (src : string) : list string :=
  let keys := spec_path_variants src in
  let keys :=
    if bool_decide (basename src ∈ keys) then keys else keys ++ [basename src] in
  take 10 (Py.fromkeys keys).

Fixpoint spec_find_key (images : gmap string string) (keys : list string) : option string :=
  match keys with
  | [] => None
  | key :: keys' =>
      if bool_decide (is_Some (images !! key)) then Some key
      else spec_find_key images keys'
  end.

(** The three outcome counters together. *)
Definition tally (r : Results) : nat := success r + failed r + skipped r.

(** Keys never decrease from [a] to [b]. *)
Definition by_key {A} (key : A -> nat) (a b : A) : Prop := key a ≤ key b.

(** The test of the loop of [replace_img_src]: [key and key in images]. *)
Definition usable (images : gmap string string) (key : string) : bool :=
  bool_decide (key ≠ EmptyString) && bool_decide (is_Some (images !! key)).

(** Every character of [s] is in the set [f]. *)
Fixpoint all_in (f : ascii -> bool) (s : string) : bool :=
  match s with
  | EmptyString => true
  | String c s' => f c && all_in f s'
  end.

(** [agree ic w w'] says that the text [w'] is the literal [w], up to letter
    case when [ic] is set. *)
Fixpoint agree (ic : bool) (w w' : string) : bool :=
  match w, w' with
  | EmptyString, EmptyString => true
  | String c w, String x w' => Re.same_char ic c x && agree ic w w'
  | _, _ => false
  end.

(** What the image pattern asks for after [<img] and the run of [[^>]*]. *)
Definition img_tail : Re.pattern :=
  Re.lit true "src" ++ Re.space Re.Star ++ Re.lit true "=" ++ Re.space Re.Star
  ++ Re.one_of true quotes Re.One ++ Re.group (Re.none_of true quotes Re.Plus)
  ++ Re.one_of true quotes Re.One ++ Re.none_of true ">" Re.Star ++ Re.lit true ">".

(** ** Sample inputs

    Small packages and collaborators on which the model is run. *)

(** Decoding of ASCII text, on which [bytes.decode('utf-8', errors='ignore')]
    is the identity; a byte above 127 is dropped. *)
Definition decode_ascii (b : list byte) : string :=
  String.string_of_list_byte
    (filter (fun x => (Byte.to_N x <? 128)%N = true) b).

Definition encode_ascii (s : string) : list byte := String.list_byte_of_string s.

Definition doc (id name text : string) : Item :=
  {| get_id := id; get_name := name; get_type := ITEM_DOCUMENT;
     get_content := Some (encode_ascii text) |}.

(** A document item whose [get_content] raises. *)
Definition broken_doc (id name : string) : Item :=
  {| get_id := id; get_name := name; get_type := ITEM_DOCUMENT;
     get_content := None |}.

Definition image (id name : string) (content : list byte) : Item :=
  {| get_id := id; get_name := name; get_type := ITEM_IMAGE;
     get_content := Some content |}.

Definition two_chapters : Book :=
  {| dc_title := ["Title"];
     dc_creator := ["Author"];
     get_items := [ doc "ch1" "ch1.xhtml" "<html><body><p>one</p></body></html>";
                    doc "ch2" "ch2.xhtml" "<html><body><p>two</p></body></html>" ];
     spine := [("ch2", "yes"); ("ch1", "yes")] |}.

(** The output path of a file that lies directly under the source root. *)
Definition flat_output_path (epub_path : string) : string :=
  "output_book/" +:+ stem epub_path +:+ ".pdf".

(** [n] image items [d/i.png], [d/ii.png], ... of one byte each. *)
Fixpoint bars (n : nat) : string :=
  match n with
  | O => EmptyString
  | S n' => String "i" (bars n')
  end.

Definition small_image (n : nat) : Item :=
  image (bars n) ("d/" +:+ bars n +:+ ".png") [Byte.x00].

Definition many_images (n : nat) : Book :=
  {| dc_title := []; dc_creator := [];
     get_items := map small_image (seq 1 n);
     spine := [] |}.

(** A package whose middle chapter cannot be read. *)
Definition broken_middle : Book :=
  {| dc_title := ["Title"];
     dc_creator := [];
     get_items := [ doc "ch1" "ch1.xhtml" "<p>one</p>";
                    broken_doc "ch2" "ch2.xhtml";
                    doc "ch3" "ch3.xhtml" "<p>three</p>" ];
     spine := [] |}.

(** The decimal numeral of [n]. *)
Definition decimal (n : nat) : string := NilEmpty.string_of_uint (Nat.to_uint n).

(** A package whose spine declares 1001 items [c0] ... [c1000], holding the
    document [c1000], the last one the spine declares, and then the document
    [extra], which the spine does not declare. *)
Definition long_spine : Book :=
  {| dc_title := []; dc_creator := [];
     get_items := [ doc "c1000" "c1000.xhtml" "<p>last</p>";
                    doc "extra" "extra.xhtml" "<p>extra</p>" ];
     spine := map (fun n => ("c" +:+ decimal n, "yes")) (seq 0 1001) |}.

(** A double quote, for writing tags. *)
Definition dq : string := Py.chr Py.dquote.

(** ** Vocabulary of the further statements *)

(** The labels of the table of [_get_image_mime_type], and its default. *)
Definition mime_labels : list string :=
  ["image/jpeg"; "image/png"; "image/gif"; "image/bmp"; "image/svg+xml"; "image/webp"].

(** An image the collector accepts when it reaches it below the cap: its
    content can be read and is of at most [max_size] bytes. *)
Definition acceptable (item : Item) : bool :=
  is_image item &&
  match get_content item with
  | Some content => negb (Py.len content >? max_size)%Z
  | None => false
  end.

Definition backslash : ascii := ascii_of_nat 92.

(** [sep.join(l)] for a one-character separator. *)
Fixpoint sep_join (sep : ascii) (l : list string) : string :=
  match l with
  | [] => EmptyString
  | x :: l' =>
      match l' with
      | [] => x
      | _ => x +:+ String sep (sep_join sep l')
      end
  end.

(** How many outcomes of a run are [o]. *)
Definition outcome_eqb (a b : Outcome) : bool :=
  match a, b with
  | Skipped, Skipped | Success, Success | Failed, Failed => true
  | _, _ => false
  end.

Definition count_of (o : Outcome) (os : list Outcome) : nat :=
  length (filter (fun x => outcome_eqb x o = true) os).


(** The characters [b64encode] writes. *)
Definition b64_char (x : ascii) : bool := Py.char_in x (Base64.alphabet +:+ "=").

(** The identifiers of a spine, in order. *)
Definition spine_ids (spine : list (string * string)) : list string := spine.*1.

(** *** Image tags, read character by character

    The image pattern ignores case, and CPython then also takes U+0130 and
    U+0131 for an [i] and U+017F for an [s]; [\s] matches white space above
    code point 127 as well. A text may hold such a character as the bytes of
    its UTF-8 encoding. The tests below say where a tag or an attribute may
    start for the patterns of the program, whichever way the text is read:
    they know the three characters by their encodings and count every
    character above 127 as possible white space. *)

(** White space below code point 128. *)
Definition ascii_space (c : ascii) : bool :=
  let n := nat_of_ascii c in Py.between 9 13 n || Py.between 28 32 n.

(** A character above code point 127, or a byte of the encoding of one. *)
Definition high (c : ascii) : bool := 128 <=? nat_of_ascii c.

Definition is_quote (c : ascii) : bool :=
  Ascii.eqb c Py.dquote || Ascii.eqb c Py.squote.

(** A word as the tests of its characters, one after the other. *)
Fixpoint word (ic : bool) (w : string) : list (ascii -> bool) :=
  match w with
  | EmptyString => []
  | String c w' => Re.same_char ic c :: word ic w'
  end.

(** The text after the word [w], when [t] starts with it. *)
Fixpoint after (w : list (ascii -> bool)) (t : string) : option string :=
  match w with
  | [] => Some t
  | f :: w' =>
      match t with
      | String c t' => if f c then after w' t' else None
      | EmptyString => None
      end
  end.

Definition starts (w : list (ascii -> bool)) (t : string) : bool :=
  match after w t with Some _ => true | None => false end.

(** [<img] written with U+0130 or U+0131, which UTF-8 encodes as the byte
    196 followed by 176 or 177. *)
Definition img_dotted : list (ascii -> bool) :=
  [ Ascii.eqb "<"%char;
    Ascii.eqb (ascii_of_nat 196);
    (fun x => Ascii.eqb (ascii_of_nat 176) x || Ascii.eqb (ascii_of_nat 177) x);
    Re.same_char true "m"; Re.same_char true "g" ].

(** An image tag may start at the head of [t]. *)
Definition img_start (t : string) : bool :=
  starts (word true "<img") t || starts img_dotted t.

(** Some white space, then an equals sign. *)
Fixpoint then_equals (t : string) : bool :=
  match t with
  | EmptyString => false
  | String c t' =>
      Ascii.eqb c "=" || ((ascii_space c || high c) && then_equals t')
  end.

Definition named (w : list (ascii -> bool)) (t : string) : bool :=
  match after w t with Some t' => then_equals t' | None => false end.

(** [src] written with U+017F, which UTF-8 encodes as the bytes 197, 191. *)
Definition src_long_s : list (ascii -> bool) :=
  [ Ascii.eqb (ascii_of_nat 197); Ascii.eqb (ascii_of_nat 191);
    Re.same_char true "r"; Re.same_char true "c" ].

(** An attribute named [src] may start at the head of [t]: the name, in any
    letter case when [ic] is set, white space if any, and an equals sign. *)
Definition attr_start (ic : bool) (t : string) : bool :=
  named (word ic "src") t || (ic && named src_long_s t).

(** The characters an attribute named [src] may start with. *)
Definition attr_head (c : ascii) : bool :=
  Re.same_char true "s" c || Ascii.eqb (ascii_of_nat 197) c.

(** [P] holds at no position of [s], where [s] is followed by [rest]. *)
Fixpoint free_from (P : string -> bool) (s rest : string) : bool :=
  match s with
  | EmptyString => true
  | String c s' => negb (P (s +:+ rest)) && free_from P s' rest
  end.

Definition free_of (P : string -> bool) (s : string) : bool :=
  free_from P s EmptyString.

(** An image tag, cut into its parts:
    [name before attr ws1 = ws2 open ref close rest >]. *)
Record Tag := {
  t_name : string;
  t_before : string;
  t_attr : string;
  t_ws1 : string;
  t_ws2 : string;
  t_open : ascii;
  t_ref : string;
  t_close : ascii;
  t_rest : string
}.

Definition tag_text (t : Tag) : string :=
  t_name t +:+ t_before t +:+ t_attr t +:+ t_ws1 t +:+ "=" +:+ t_ws2 t
  +:+ Py.chr (t_open t) +:+ t_ref t +:+ Py.chr (t_close t) +:+ t_rest t +:+ ">".

(** The tag with its reference attribute written anew. *)
Definition tag_with_src (t : Tag) (value : string) : string :=
  t_name t +:+ t_before t +:+ "src=" +:+ Py.chr Py.dquote +:+ value
  +:+ Py.chr Py.dquote +:+ t_rest t +:+ ">".

(** The parts are those of a tag the image pattern matches as a whole, and
    [t_ref] is the reference it captures: the name is [<img] and the
    attribute name [src], in any letter case; no [>] before the attribute
    or after the reference; white space below 128 around the equals sign; a
    quote character on each side of a reference that is not empty and
    holds none; and no attribute named [src] starts in or after the
    reference. *)
Definition well_formed (t : Tag) : bool :=
  agree true "<img" (t_name t)
  && negb (Py.char_in ">" (t_before t))
  && agree true "src" (t_attr t)
  && all_in ascii_space (t_ws1 t) && all_in ascii_space (t_ws2 t)
  && is_quote (t_open t) && is_quote (t_close t)
  && negb (is_empty (t_ref t))
  && all_in (fun c => negb (is_quote c)) (t_ref t)
  && negb (Py.char_in ">" (t_rest t))
  && free_of (attr_start true) (t_ref t +:+ Py.chr (t_close t) +:+ t_rest t).

(** The attribute is written [src] in lower case and is the first of that
    name in the tag: the pattern of [replace_img_src], which carries no
    [re.IGNORECASE], finds it. *)
Definition first_src (t : Tag) : bool :=
  String.eqb (t_attr t) "src" && free_of (attr_start false) (t_before t).

(** *** The collector, image by image *)

(** The images the collector registers: the readable images of at most
    [max_size] bytes, up to the cap. *)
Definition accepted (book : Book) : list Item :=
  take max_images (filter (fun item => acceptable item = true) (get_items book)).

(** The keys under which an image is registered. *)
Definition registers (item : Item) (key : string) : bool :=
  String.eqb key (get_name item) || String.eqb key (basename (get_name item)).

(** The data reference of an image. *)
Definition item_url (item : Item) : string :=
  data_url (get_name item) (default [] (get_content item)).
(** * Properties *)

(** ** MimeResolver *)

Section MimeResolver.

Lemma lower_char_dot c : Ascii.eqb (Py.lower_char c) "." = Ascii.eqb c ".".
Proof.
  destruct c as [[] [] [] [] [] [] [] []]; vm_compute; reflexivity.
Qed.

Lemma split_nonempty sep s : Py.split sep s ≠ [].
Proof.
  destruct s as [|c s]; simpl; [discriminate|].
  destruct (Ascii.eqb c sep); [discriminate|].
  destruct (Py.split sep s); discriminate.
Qed.

(** Lowering the name and then cutting at the dots is cutting at the dots
    and then lowering each piece. *)
Lemma split_dot_lower s :
  Py.split "." (Py.lower s) = map Py.lower (Py.split "." s).
Proof.
  induction s as [|c s IH]; simpl; [reflexivity|].
  rewrite lower_char_dot. destruct (Ascii.eqb c ".").
  - simpl. f_equal. exact IH.
  - rewrite IH. destruct (Py.split "." s); reflexivity.
Qed.

Lemma neg1_map_lower l :
  l ≠ [] → Py.neg1 (map Py.lower l) = Py.lower (Py.neg1 l).
Proof.
  unfold Py.neg1. induction l as [|x l IH]; [congruence|]. intros _.
  destruct l as [|y l]; [reflexivity|].
  change (List.last (map Py.lower (y :: l)) EmptyString
          = Py.lower (List.last (y :: l) EmptyString)).
  apply IH. discriminate.
Qed.

(** The extension looked up is the lowered text after the last dot. *)
Lemma mime_extension_lowered filename :
  _get_image_mime_type filename
  = default "image/jpeg" (mime_types !! Py.lower (Py.neg1 (Py.split "." filename))).
Proof.
  unfold _get_image_mime_type. cbv zeta.
  rewrite split_dot_lower, neg1_map_lower by apply split_nonempty. reflexivity.
Qed.

(** An extension outside the table gives the default. *)
Lemma mime_unknown_extension filename :
  mime_types !! Py.lower (Py.neg1 (Py.split "." filename)) = None →
  _get_image_mime_type filename = "image/jpeg".
Proof. intros H. rewrite mime_extension_lowered, H. reflexivity. Qed.

(** A name without any dot has no extension; [split] then returns the
    whole name, and the table is asked for the name itself. *)
Lemma split_no_dot s :
  Py.char_in "." s = false → Py.split "." s = [s].
Proof.
  induction s as [|c s IH]; cbn [Py.char_in Py.split]; [reflexivity|].
  rewrite (Ascii.eqb_sym "." c).
  destruct (Ascii.eqb c "."); cbn [orb]; [discriminate|].
  intros H. rewrite (IH H). reflexivity.
Qed.

Lemma mime_no_dot filename :
  Py.char_in "." filename = false →
  _get_image_mime_type filename
  = default "image/jpeg" (mime_types !! Py.lower filename).
Proof.
  intros H. rewrite mime_extension_lowered, split_no_dot by exact H.
  reflexivity.
Qed.

End MimeResolver.

(** C7. The claim gives [image/jpeg] to every name whose extension is
    missing. The file name [png] has no dot, hence no extension, and the
    resolver answers [image/png]: the name itself is looked up in the
    table. *)
Theorem C7_bare_name_taken_as_extension :
  Py.char_in "." "png" = false ∧ _get_image_mime_type "png" = "image/png".
Proof. split; vm_compute; reflexivity. Qed.

(** ** ReferenceRewriter *)

(** C9. With an empty image map the rewriter is the identity on every
    fragment, image tags included. *)
Theorem C9_empty_map_identity (content : string) :
  _replace_image_references content ∅ = content.
Proof. unfold _replace_image_references. case_bool_decide; [reflexivity | contradiction]. Qed.

(** ** ConversionOrchestrator *)

Section Orchestrator.

Variable decode : list byte -> string.
Variable read_epub : string -> option Book.
Variable write_pdf : string -> string -> bool.
Variable get_output_path : string -> string.
Variable epub_mtime : string -> Q.

Abbreviation already := (is_already_converted get_output_path epub_mtime).
Abbreviation one := (convert_one decode read_epub write_pdf get_output_path epub_mtime).
Abbreviation step := (loop_step decode read_epub write_pdf get_output_path epub_mtime).
Abbreviation batch := (convert_all decode read_epub write_pdf get_output_path epub_mtime).
Abbreviation outcomes := (outcomes decode read_epub write_pdf get_output_path epub_mtime).

Lemma count_tally o r : tally (count o r) = S (tally r).
Proof. destruct o; unfold tally; simpl; lia. Qed.

Lemma count_total o r : total (count o r) = total r.
Proof. destruct o; reflexivity. Qed.

Lemma loop_tally wt files st :
  tally (fst (fold_left (step wt) files st)) = tally (fst st) + length files
  ∧ total (fst (fold_left (step wt) files st)) = total (fst st).
Proof.
  revert st. induction files as [|p files IH]; intros st; simpl.
  - split; [lia | reflexivity].
  - destruct (IH (step wt st p)) as [Ht Hn]. rewrite Ht, Hn.
    unfold loop_step; simpl. rewrite count_tally, count_total. split; [lia | reflexivity].
Qed.

(** *** Skipping *)

Lemma already_spec outputs p :
  already outputs p = true
  ↔ ∃ pdf_mtime, outputs !! get_output_path p = Some pdf_mtime
                 ∧ (epub_mtime p <= pdf_mtime)%Q.
Proof.
  unfold is_already_converted. cbv zeta.
  destruct (outputs !! get_output_path p) as [t|]; split.
  - intros H. exists t. split; [reflexivity | by apply Qle_bool_iff].
  - intros (t' & [= <-] & H). by apply Qle_bool_iff.
  - discriminate.
  - intros (t' & [=] & _).
Qed.

Lemma one_skipped wt outputs p :
  fst (one wt outputs p) = Skipped ↔ already outputs p = true.
Proof.
  unfold convert_one. destruct (already outputs p); simpl; [done|].
  split; [|discriminate]. by destruct (fst _).
Qed.

Lemma one_skipped_outputs wt outputs p :
  already outputs p = true → one wt outputs p = (Skipped, outputs).
Proof. intros H. unfold convert_one. by rewrite H. Qed.

(** What a turn of the loop leaves in the output tree. *)
Lemma one_outputs wt outputs p :
  snd (one wt outputs p) = outputs
  ∨ (fst (one wt outputs p) = Success
     ∧ snd (one wt outputs p)
       = <[get_output_path p := wt (get_output_path p)]> outputs).
Proof.
  unfold convert_one, convert_epub_to_pdf.
  destruct (already outputs p); simpl; [by left|].
  destruct (extract_epub_content _ _ _) as [html|]; simpl; [|by left].
  destruct (is_empty html); simpl; [by left|].
  destruct (write_pdf _ _); simpl; [by right | by left].
Qed.

Lemma one_not_failed wt outputs p :
  fst (one wt outputs p) ≠ Failed →
  (epub_mtime p <= wt (get_output_path p))%Q →
  already (snd (one wt outputs p)) p = true.
Proof.
  intros Hok Hle. destruct (already outputs p) eqn:Ha.
  - by rewrite one_skipped_outputs.
  - destruct (one_outputs wt outputs p) as [Heq | [_ Heq]].
    + exfalso. revert Hok Heq. unfold convert_one, convert_epub_to_pdf.
      rewrite Ha. simpl.
      destruct (extract_epub_content _ _ _) as [html|]; simpl; [|done].
      destruct (is_empty html); simpl; [done|].
      destruct (write_pdf _ _); simpl; [|done].
      intros _ Heq. apply (f_equal (lookup (get_output_path p))) in Heq.
      rewrite lookup_insert_eq in Heq.
      unfold is_already_converted in Ha. rewrite <- Heq in Ha.
      apply Qle_bool_iff in Hle. congruence.
    + rewrite Heq. apply already_spec. eexists. by rewrite lookup_insert_eq.
Qed.

(** A later turn keeps an earlier file converted, when time stamps do not
    run behind the inputs. *)
Lemma one_keeps wt outputs q p :
  (epub_mtime p <= wt (get_output_path p))%Q →
  already outputs p = true → already (snd (one wt outputs q)) p = true.
Proof.
  intros Hle Ha. destruct (one_outputs wt outputs q) as [-> | [_ ->]]; [done|].
  apply already_spec. apply already_spec in Ha as (t & Ht & Hp).
  destruct (decide (get_output_path q = get_output_path p)) as [E|E].
  - rewrite E, lookup_insert_eq. eauto.
  - rewrite lookup_insert_ne by done. eauto.
Qed.

Lemma loop_outcomes wt files st :
  fold_left (step wt) files st
  = (fold_left (fun r o => count o r) (fst (outcomes wt files (snd st))) (fst st),
     snd (outcomes wt files (snd st))).
Proof.
  revert st. induction files as [|p files IH]; intros [r outputs]; simpl; [done|].
  rewrite IH. reflexivity.
Qed.

Lemma outcomes_all_converted wt files outputs done_ :
  (∀ p, p ∈ done_ ++ files → (epub_mtime p <= wt (get_output_path p))%Q) →
  (∀ p, p ∈ done_ → already outputs p = true) →
  Failed ∉ fst (outcomes wt files outputs) →
  ∀ p, p ∈ done_ ++ files → already (snd (outcomes wt files outputs)) p = true.
Proof.
  revert outputs done_. induction files as [|q files IH]; intros outputs done_ Hle Hd Hnf p Hp.
  - rewrite app_nil_r in Hp. by apply Hd.
  - simpl. simpl in Hnf. apply not_elem_of_cons in Hnf as [Hq Hnf].
    apply (IH _ (done_ ++ [q])).
    + intros x Hx. apply Hle. by rewrite <- app_assoc in Hx.
    + intros x [Hx | ->%list_elem_of_singleton]%elem_of_app.
      * apply one_keeps; [|by apply Hd].
        apply Hle, elem_of_app. by left.
      * apply one_not_failed; [congruence|].
        apply Hle, elem_of_app. right. by left.
    + done.
    + by rewrite <- app_assoc.
Qed.

Lemma outcomes_all_skipped wt files outputs :
  (∀ p, p ∈ files → already outputs p = true) →
  outcomes wt files outputs = (map (fun _ => Skipped) files, outputs).
Proof.
  induction files as [|p files IH]; intros H; simpl; [done|].
  rewrite one_skipped_outputs by (apply H; by left). simpl.
  rewrite IH by (intros; apply H; by right). reflexivity.
Qed.

Lemma count_failed_zero rs r :
  failed (fold_left (fun r o => count o r) rs r) = 0 → failed r = 0 ∧ Failed ∉ rs.
Proof.
  revert r. induction rs as [|o rs IH]; intros r H; simpl in *.
  - split; [done | set_solver].
  - apply IH in H as [H1 H2]. destruct o; simpl in H1; try lia.
    + split; [done|]. intros [?|?]%elem_of_cons; [done|contradiction].
    + split; [done|]. intros [?|?]%elem_of_cons; [done|contradiction].
Qed.

Lemma count_all_skipped files r :
  fold_left (fun r o => count o r) (map (fun _ : string => Skipped) files) r
  = {| total := total r; success := success r; failed := failed r;
       skipped := skipped r + length files |}.
Proof.
  revert r. induction files as [|p files IH]; intros r; simpl.
  - destruct r; simpl. f_equal. lia.
  - rewrite IH. simpl. f_equal. lia.
Qed.

Lemma batch_outcomes wt files outputs :
  batch wt files outputs
  = (fold_left (fun r o => count o r) (fst (outcomes wt files outputs))
       {| total := length files; success := 0; failed := 0; skipped := 0 |},
     snd (outcomes wt files outputs)).
Proof.
  destruct files as [|p files]; [reflexivity|].
  unfold convert_all. rewrite loop_outcomes. reflexivity.
Qed.

(** A second run over the same inputs, started from the output tree the
    first run left. *)
Lemma rerun_all_skipped wt wt' files outputs :
  (∀ p, p ∈ files → (epub_mtime p <= wt (get_output_path p))%Q) →
  failed (fst (batch wt files outputs)) = 0 →
  batch wt' files (snd (batch wt files outputs))
  = ({| total := length files; success := 0; failed := 0; skipped := length files |},
     snd (batch wt files outputs)).
Proof.
  intros Hle Hf. rewrite !batch_outcomes in *. cbn [fst snd] in *.
  apply count_failed_zero in Hf as [_ Hnf].
  rewrite outcomes_all_skipped.
  - cbn [fst snd]. rewrite count_all_skipped. reflexivity.
  - intros p Hp. apply (outcomes_all_converted wt files outputs []); simpl; try done.
    intros ? Hx. by apply elem_of_nil in Hx.
Qed.

(** *** A second run, file by file *)

Abbreviation cannot := (cannot_convert decode read_epub write_pdf).

Lemma one_failed wt outputs p :
  fst (one wt outputs p) = Failed
  ↔ already outputs p = false ∧ cannot p = true.
Proof.
  unfold convert_one, convert_epub_to_pdf, cannot_convert.
  destruct (already outputs p); simpl; [by split; [|intros []]|].
  destruct (extract_epub_content _ _ _) as [html|]; simpl; [|done].
  destruct (is_empty html); simpl; [done|].
  destruct (write_pdf _ _); simpl; by split; [|intros []].
Qed.

Lemma one_fails_again wt outputs p :
  already outputs p = false → cannot p = true →
  one wt outputs p = (Failed, outputs).
Proof.
  unfold convert_one, convert_epub_to_pdf, cannot_convert. intros -> H. simpl.
  destruct (extract_epub_content _ _ _) as [html|]; simpl; [|done].
  destruct (is_empty html); simpl; [done|].
  by destruct (write_pdf _ _).
Qed.

Lemma outcomes_keep wt files outputs p :
  (epub_mtime p <= wt (get_output_path p))%Q →
  already outputs p = true → already (snd (outcomes wt files outputs)) p = true.
Proof.
  intros Hle. revert outputs. induction files as [|q files IH]; intros outputs H; [done|].
  simpl. apply IH. by apply one_keeps.
Qed.

(** What the first run establishes for each file. *)
Lemma first_run wt files outputs :
  (∀ p, p ∈ files → (epub_mtime p <= wt (get_output_path p))%Q) →
  Forall2 (fun p o =>
             (o ≠ Failed → already (snd (outcomes wt files outputs)) p = true)
             ∧ (o = Failed → cannot p = true))
    files (fst (outcomes wt files outputs)).
Proof.
  revert outputs. induction files as [|q files IH]; intros outputs Hle; simpl.
  - constructor.
  - constructor.
    + split.
      * intros Ho. apply outcomes_keep; [apply Hle; by left|].
        apply one_not_failed; [done | apply Hle; by left].
      * intros Ho. by apply one_failed in Ho as [_ ?].
    + assert (Hle' : ∀ p, p ∈ files → (epub_mtime p <= wt (get_output_path p))%Q)
        by (intros; apply Hle; by right).
      specialize (IH (snd (one wt outputs q)) Hle').
      eapply Forall2_impl; [exact IH|]. done.
Qed.

(** A run from an output tree in which every file is either converted or
    cannot be converted changes nothing. *)
Lemma settled_run wt files outputs :
  Forall (fun p => already outputs p = true ∨ cannot p = true) files →
  outcomes wt files outputs
  = (map (fun p => if already outputs p then Skipped else Failed) files, outputs).
Proof.
  induction 1 as [|p files Hp _ IH]; simpl; [done|].
  destruct (already outputs p) eqn:E.
  - rewrite one_skipped_outputs by done. simpl. by rewrite IH.
  - destruct Hp as [?|Hp]; [done|].
    rewrite one_fails_again by done. simpl. by rewrite IH.
Qed.

Lemma rerun_file_by_file wt wt' files outputs :
  (∀ p, p ∈ files → (epub_mtime p <= wt (get_output_path p))%Q) →
  snd (outcomes wt' files (snd (outcomes wt files outputs)))
  = snd (outcomes wt files outputs)
  ∧ Forall2 (fun o1 o2 => o1 ≠ Failed → o2 = Skipped)
      (fst (outcomes wt files outputs))
      (fst (outcomes wt' files (snd (outcomes wt files outputs)))).
Proof.
  intros Hle. pose proof (first_run wt files outputs Hle) as H1.
  set (r1 := outcomes wt files outputs) in *.
  assert (Hs : Forall (fun p => already (snd r1) p = true ∨ cannot p = true) files).
  { apply Forall_forall. intros p Hp.
    apply list_elem_of_lookup in Hp as [i Hi].
    destruct (Forall2_lookup_l _ _ _ _ _ H1 Hi) as (o & _ & Ho1 & Ho2).
    destruct o; [left | left | right]; by (apply Ho1 || apply Ho2). }
  rewrite (settled_run wt' files (snd r1) Hs). split; [done|]. simpl.
  apply Forall2_fmap_r. apply Forall2_flip.
  eapply Forall2_impl; [exact H1|]. simpl. intros p o [Ho _] Hne.
  by rewrite Ho.
Qed.

Lemma batch_tally wt files outputs :
  tally (fst (batch wt files outputs)) = total (fst (batch wt files outputs)).
Proof.
  destruct files as [|p files]; [reflexivity|]. unfold convert_all.
  match goal with |- context [fold_left ?f ?l ?st] =>
    destruct (loop_tally wt l st) as [Ht Hn] end.
  rewrite Ht, Hn. unfold tally. simpl. lia.
Qed.

End Orchestrator.

(** C10. Whatever the files and the state of the output tree, the counters
    returned by [convert_all] satisfy success + failed + skipped = total. *)
Theorem C10_counters_add_up
    (decode : list byte -> string) (read_epub : string -> option Book)
    (write_pdf : string -> string -> bool) (get_output_path : string -> string)
    (epub_mtime : string -> Q) (write_time : string -> Q)
    (epub_files : list string) (outputs : gmap string Q) :
  let results :=
    fst (convert_all decode read_epub write_pdf get_output_path epub_mtime
           write_time epub_files outputs) in
  success results + failed results + skipped results = total results.
Proof. cbv zeta. apply batch_tally. Qed.

(** C8, as amended. A file is reported skipped exactly when its output file
    exists with a modification time not earlier than the input's. When every
    output written gets a time stamp not earlier than its input's
    modification time, a second run over the same inputs reports as skipped
    every file that did not fail in the first run, and leaves the output
    tree as the first run left it; if no file failed, every counter of the
    second run but [skipped] is zero. The loop of [convert_all] is read file
    by file through [outcomes], whose outcomes it counts. *)
Theorem C8_skip_and_rerun
    (decode : list byte -> string) (read_epub : string -> option Book)
    (write_pdf : string -> string -> bool) (get_output_path : string -> string)
    (epub_mtime : string -> Q) (write_time write_time' : string -> Q)
    (epub_files : list string) (outputs : gmap string Q) :
  let run := convert_all decode read_epub write_pdf get_output_path epub_mtime in
  let one := convert_one decode read_epub write_pdf get_output_path epub_mtime in
  let view := outcomes decode read_epub write_pdf get_output_path epub_mtime in
  let first := view write_time epub_files outputs in
  let second := view write_time' epub_files (snd first) in
  (∀ p, fst (one write_time outputs p) = Skipped
        ↔ ∃ pdf_mtime, outputs !! get_output_path p = Some pdf_mtime
                       ∧ (epub_mtime p <= pdf_mtime)%Q)
  ∧ run write_time epub_files outputs
    = (fold_left (fun r o => count o r) (fst first)
         {| total := length epub_files; success := 0; failed := 0; skipped := 0 |},
       snd first)
  ∧ ((∀ p, p ∈ epub_files → (epub_mtime p <= write_time (get_output_path p))%Q) →
     snd second = snd first
     ∧ Forall2 (fun o1 o2 => o1 ≠ Failed → o2 = Skipped) (fst first) (fst second)
     ∧ (failed (fst (run write_time epub_files outputs)) = 0 →
        run write_time' epub_files (snd (run write_time epub_files outputs))
        = ({| total := length epub_files; success := 0; failed := 0;
              skipped := length epub_files |},
           snd (run write_time epub_files outputs)))).
Proof.
  cbv zeta. split; [|split].
  - intros p. rewrite one_skipped. apply already_spec.
  - apply batch_outcomes.
  - intros Hle.
    destruct (rerun_file_by_file decode read_epub write_pdf get_output_path
                epub_mtime write_time write_time' epub_files outputs Hle) as [H1 H2].
    split; [exact H1|]. split; [exact H2|]. by apply rerun_all_skipped.
Qed.

(** An instance of C8: one readable package, written at time 5 while the
    input dates from time 3. *)
Lemma C8_skip_and_rerun_witness :
  let run :=
    convert_all decode_ascii (fun _ => Some two_chapters) (fun _ _ => true)
      flat_output_path (fun _ => 3%Q) in
  (∀ p, p ∈ ["source_book/a.epub"] → (3 <= 5)%Q)
  ∧ failed (fst (run (fun _ => 5%Q) ["source_book/a.epub"] ∅)) = 0
  ∧ run (fun _ => 9%Q) ["source_book/a.epub"]
      (snd (run (fun _ => 5%Q) ["source_book/a.epub"] ∅))
    = ({| total := 1; success := 0; failed := 0; skipped := 1 |},
       snd (run (fun _ => 5%Q) ["source_book/a.epub"] ∅)).
Proof.
  cbv zeta.
  assert (H1 : ∀ p : string, p ∈ ["source_book/a.epub"] → (3 <= 5)%Q)
    by (intros _ _; discriminate).
  assert (H2 : failed (fst (convert_all decode_ascii (fun _ => Some two_chapters)
                              (fun _ _ => true) flat_output_path (fun _ => 3%Q)
                              (fun _ => 5%Q) ["source_book/a.epub"] ∅)) = 0)
    by (vm_compute; reflexivity).
  split; [exact H1 | split; [exact H2 |]].
  exact (proj2 (proj2 (proj2 (proj2
           (C8_skip_and_rerun decode_ascii (fun _ => Some two_chapters)
              (fun _ _ => true) flat_output_path (fun _ => 3%Q)
              (fun _ => 5%Q) (fun _ => 9%Q) ["source_book/a.epub"] ∅)) H1)) H2).
Defined.

(** C8 as stated fails on two inputs. A package that cannot be read fails
    on the first run and fails again on the second, which is not a skip. A
    readable package whose file carries a modification time (7) later than
    the time its output is written (5) is converted again by the second run,
    which writes the output file anew (at time 6). *)
Lemma C8_rerun_not_skipped :
  (let run :=
     convert_all decode_ascii (fun _ => None) (fun _ _ => true)
       flat_output_path (fun _ => 3%Q) in
   run (fun _ => 9%Q) ["source_book/a.epub"]
     (snd (run (fun _ => 5%Q) ["source_book/a.epub"] ∅))
   = ({| total := 1; success := 0; failed := 1; skipped := 0 |}, ∅))
  ∧ (let run :=
       convert_all decode_ascii (fun _ => Some two_chapters) (fun _ _ => true)
         flat_output_path (fun _ => 7%Q) in
     run (fun _ => 5%Q) ["source_book/a.epub"] ∅
     = ({| total := 1; success := 1; failed := 0; skipped := 0 |},
        {[ "output_book/a.pdf" := 5%Q ]})
     ∧ run (fun _ => 6%Q) ["source_book/a.epub"]
         (snd (run (fun _ => 5%Q) ["source_book/a.epub"] ∅))
       = ({| total := 1; success := 1; failed := 0; skipped := 0 |},
          {[ "output_book/a.pdf" := 6%Q ]})).
Proof. cbv zeta. repeat split; vm_compute; reflexivity. Qed.

(** ** ImageCollector *)

Section ImageCollector.

Implicit Types (st : Collected) (item : Item) (items : list Item).

Lemma collect_image_count item st :
  processed_count (collect_image item st) ≤ S (processed_count st).
Proof.
  unfold collect_image. destruct (get_content item) as [content|]; [|lia].
  destruct (_ >? _)%Z; simpl; lia.
Qed.

(** The counter never passes [max_images]. *)
Lemma collect_images_count items st :
  processed_count st ≤ max_images →
  processed_count (collect_images items st) ≤ max_images.
Proof.
  revert st. induction items as [|item items IH]; intros st Hst; cbn [collect_images]; [done|].
  destruct (is_image item); [|by apply IH].
  destruct (max_images <=? processed_count st) eqn:E; [done|].
  apply IH. apply Nat.leb_gt in E.
  pose proof (collect_image_count item st). lia.
Qed.

(** Each accepted image adds at most two keys. *)
Lemma collect_image_size item st :
  size (images (collect_image item st)) + 2 * processed_count st
  ≤ size (images st) + 2 * processed_count (collect_image item st).
Proof.
  unfold collect_image. destruct (get_content item) as [content|]; [|lia].
  destruct (_ >? _)%Z; simpl; [lia|].
  case_bool_decide; rewrite !map_size_insert;
    repeat (match goal with |- context [match ?o with Some _ => _ | None => _ end] =>
              destruct o end); simpl; lia.
Qed.

Lemma collect_images_size items st :
  size (images (collect_images items st)) + 2 * processed_count st
  ≤ size (images st) + 2 * processed_count (collect_images items st).
Proof.
  revert st. induction items as [|item items IH]; intros st; cbn [collect_images]; [lia|].
  destruct (is_image item); [|by apply IH].
  destruct (max_images <=? processed_count st); [lia|].
  pose proof (IH (collect_image item st)).
  pose proof (collect_image_size item st). lia.
Qed.

Lemma elem_of_urls m v : v ∈ urls m ↔ ∃ k, m !! k = Some v.
Proof.
  unfold urls. rewrite elem_of_list_to_set, list_elem_of_fmap. split.
  - intros ([k v'] & -> & H). exists k. by apply elem_of_map_to_list in H.
  - intros (k & H). exists (k, v). split; [done|]. by apply elem_of_map_to_list.
Qed.

Lemma collect_image_urls item st :
  ∃ new : gset string,
    urls (images (collect_image item st)) ⊆ urls (images st) ∪ new
    ∧ size new + processed_count st ≤ processed_count (collect_image item st).
Proof.
  unfold collect_image. destruct (get_content item) as [content|].
  2:{ exists ∅. rewrite size_empty. split; [apply union_subseteq_l | lia]. }
  destruct (_ >? _)%Z.
  { exists ∅. rewrite size_empty. split; [apply union_subseteq_l | lia]. }
  exists {[ data_url (get_name item) content ]}. rewrite size_singleton. simpl.
  split; [|lia]. intros v (k & Hk)%elem_of_urls.
  apply elem_of_union. rewrite elem_of_singleton, elem_of_urls.
  case_bool_decide.
  - apply lookup_insert_Some in Hk as [[_ <-] | [_ Hk]]; [by right|].
    apply lookup_insert_Some in Hk as [[_ <-] | [_ Hk]]; [by right | left; eauto].
  - apply lookup_insert_Some in Hk as [[_ <-] | [_ Hk]]; [by right | left; eauto].
Qed.

(** The number of distinct data references never passes the counter. *)
Lemma collect_images_urls items st :
  size (urls (images (collect_images items st))) + processed_count st
  ≤ size (urls (images st)) + processed_count (collect_images items st).
Proof.
  revert st. induction items as [|item items IH]; intros st; cbn [collect_images]; [lia|].
  destruct (is_image item); [|by apply IH].
  destruct (max_images <=? processed_count st); [lia|].
  pose proof (IH (collect_image item st)) as H.
  destruct (collect_image_urls item st) as (new & Hsub & Hnew).
  apply subseteq_size in Hsub.
  pose proof (size_union_alt (urls (images st)) new) as Hu.
  assert (size (new ∖ urls (images st)) ≤ size new)
    by (apply subseteq_size; intros x [Hx _]%elem_of_difference; exact Hx).
  lia.
Qed.

Lemma collect_image_origin item st key url :
  is_image item = true →
  images (collect_image item st) !! key = Some url →
  images st !! key = Some url ∨ registered_by item key url.
Proof.
  intros Himg. unfold collect_image.
  destruct (get_content item) as [content|] eqn:Hc; [|by left].
  destruct (_ >? _)%Z eqn:Hsz; [by left|]. simpl.
  assert (Hle : (Py.len content <= max_size)%Z) by lia.
  case_bool_decide; intros Hk.
  - apply lookup_insert_Some in Hk as [[<- <-] | [_ Hk]].
    { right. split; [done|]. split; [eauto | by right]. }
    apply lookup_insert_Some in Hk as [[<- <-] | [_ Hk]]; [|by left].
    right. split; [done|]. split; [eauto | by left].
  - apply lookup_insert_Some in Hk as [[<- <-] | [_ Hk]]; [|by left].
    right. split; [done|]. split; [eauto | by left].
Qed.

Lemma collect_images_origin items st key url :
  images (collect_images items st) !! key = Some url →
  images st !! key = Some url
  ∨ ∃ item, item ∈ items ∧ registered_by item key url.
Proof.
  revert st. induction items as [|item items IH]; intros st; cbn [collect_images]; [by left|].
  destruct (is_image item) eqn:Himg.
  - destruct (max_images <=? processed_count st); [by left|].
    intros [H | (x & Hx & Hr)]%IH.
    + apply collect_image_origin in H; [|done].
      destruct H as [H|H]; [by left|].
      right. exists item. split; [by left | done].
    + right. exists x. split; [by right | done].
  - intros [H | (x & Hx & Hr)]%IH; [by left|].
    right. exists x. split; [by right | done].
Qed.

(** An oversized image changes neither the map nor the counter. *)
Lemma collect_image_oversized item st :
  oversized item = true → collect_image item st = st.
Proof.
  unfold oversized, collect_image. intros [_ H]%andb_true_iff.
  destruct (get_content item); [|done]. by rewrite H.
Qed.

(** Once the counter has reached [max_images] nothing more is collected. *)
Lemma collect_images_full items st :
  (max_images <=? processed_count st) = true → collect_images items st = st.
Proof.
  intros E. induction items as [|x items IH]; cbn [collect_images]; [done|].
  destruct (is_image x); [by rewrite E | apply IH].
Qed.

Lemma collect_images_without_oversized items st :
  collect_images (filter (fun item => oversized item = false) items) st
  = collect_images items st.
Proof.
  revert st. induction items as [|item items IH]; intros st; [done|].
  rewrite filter_cons. destruct (decide (oversized item = false)) as [Hs|Hs].
  - cbn [collect_images]. destruct (is_image item); [|apply IH].
    destruct (max_images <=? processed_count st); [done | apply IH].
  - apply not_false_is_true in Hs. rewrite IH. cbn [collect_images].
    pose proof Hs as [-> _]%andb_true_iff.
    destruct (max_images <=? processed_count st) eqn:E.
    + by apply collect_images_full.
    + by rewrite collect_image_oversized.
Qed.

Lemma size_urls_empty : size (urls ∅) = 0.
Proof. unfold urls. rewrite map_to_list_empty. apply size_empty. Qed.

End ImageCollector.

(** C2, as amended. For every package the number of accepted images is at
    most 500; the map holds at most that many distinct data references and
    at most twice that many keys (an accepted image is registered under its
    path and, when that differs, under its base name too). Every entry is
    the data reference of an image item of at most 5 MiB, and the map is the
    one the package would give without its oversized images. *)
Theorem C2_collector_bounds (book : Book) :
  let collected := collect_book book in
  let images := extract_images_from_epub book in
  processed_count collected ≤ 500
  ∧ unique_images images ≤ processed_count collected
  ∧ size images ≤ 2 * processed_count collected
  ∧ (∀ key url, images !! key = Some url →
       ∃ item, item ∈ get_items book ∧ registered_by item key url)
  ∧ extract_images_from_epub (without_oversized book) = images.
Proof.
  cbv zeta. unfold extract_images_from_epub, collect_book.
  set (st0 := {| images := ∅; processed_count := 0 |}).
  repeat split.
  - apply (collect_images_count (get_items book) st0). simpl. unfold max_images. lia.
  - pose proof (collect_images_urls (get_items book) st0) as H.
    change (images st0) with (∅ : gmap string string) in H.
    rewrite size_urls_empty in H. unfold unique_images.
    change (processed_count st0) with 0 in H. unfold urls in H. lia.
  - pose proof (collect_images_size (get_items book) st0) as H.
    simpl in H. rewrite map_size_empty in H. lia.
  - intros key url H. apply collect_images_origin in H as [H|H]; [|done].
    simpl in H. by rewrite lookup_empty in H.
  - simpl. by rewrite collect_images_without_oversized.
Qed.

(** An instance of C2: the entry [ii.png] of a package of two images. *)
Lemma C2_collector_bounds_witness :
  extract_images_from_epub (many_images 2) !! "ii.png"
  = Some "data:image/png;base64,AA=="
  ∧ ∃ item, item ∈ get_items (many_images 2)
            ∧ registered_by item "ii.png" "data:image/png;base64,AA==".
Proof.
  assert (H : extract_images_from_epub (many_images 2) !! "ii.png"
              = Some "data:image/png;base64,AA==") by (vm_compute; reflexivity).
  split; [exact H|].
  exact (proj1 (proj2 (proj2 (proj2 (C2_collector_bounds (many_images 2)))))
           "ii.png" "data:image/png;base64,AA==" H).
Defined.

(** C2 as stated fails: a package of 251 images of one byte each, stored as
    [d/i.png], [d/ii.png], ..., gives a map of 502 keys, more than 500. *)
Lemma C2_map_larger_than_500 :
  length (get_items (many_images 251)) = 251
  ∧ processed_count (collect_book (many_images 251)) = 251
  ∧ size (extract_images_from_epub (many_images 251)) = 502.
Proof. repeat split; vm_compute; reflexivity. Qed.

(** ** FragmentSanitizer *)

(** C6. The claim has the XML prolog and the doctype removed whatever their
    letter case. The two patterns that remove them carry no
    [re.IGNORECASE], unlike the three patterns for the body, html and head
    tags: a lower-case doctype and an upper-case prolog stay in the
    fragment, while upper-case html and head tags are removed. *)
Theorem C6_lowercase_doctype_kept :
  _clean_html_content "<!doctype html><p>x</p>" = "<!doctype html><p>x</p>"
  ∧ _clean_html_content "<?XML version='1.0'?><p>x</p>" = "<?XML version='1.0'?><p>x</p>"
  ∧ _clean_html_content "<!DOCTYPE html><p>x</p>" = "<p>x</p>"
  ∧ _clean_html_content "<HTML><HEAD><TITLE>t</TITLE></HEAD><p>x</p></HTML>" = "<p>x</p>".
Proof. repeat split; vm_compute; reflexivity. Qed.

(** The sanitizer on a whole chapter. *)
Example clean_chapter :
  _clean_html_content
    "<?xml version='1.0'?><!DOCTYPE html><html><head><title>t</title></head><BODY class='c'><p>hi</p></BODY></html>"
  = "<p>hi</p>".
Proof. vm_compute. reflexivity. Qed.

(** ** ContentAssembler *)

Section Strings.

Lemma append_cons c s t : String c s +:+ t = String c (s +:+ t).
Proof. reflexivity. Qed.

Lemma append_empty_l s : EmptyString +:+ s = s.
Proof. reflexivity. Qed.

Lemma append_empty_r s : s +:+ EmptyString = s.
Proof. induction s as [|c s IH]; [done|]. by rewrite append_cons, IH. Qed.

Lemma append_assoc a b c : (a +:+ b) +:+ c = a +:+ (b +:+ c).
Proof. induction a as [|x a IH]; [done|]. by rewrite !append_cons, IH. Qed.

Lemma length_append a b : String.length (a +:+ b) = String.length a + String.length b.
Proof.
  induction a as [|x a IH]; [done|]. rewrite append_cons. simpl. by rewrite IH.
Qed.

End Strings.

Section Assembler.

Variable decode : list byte -> string.
Variable read_epub : string -> option Book.

Abbreviation frag := (fragment decode).

Lemma fold_fragments images docs html :
  fold_left (append_fragment decode images) docs html
  = html +:+ join (omap (frag images) docs).
Proof.
  revert html. induction docs as [|d docs IH]; intros html; simpl.
  - by rewrite append_empty_r.
  - rewrite IH. unfold append_fragment. destruct (frag images d); simpl; [|done].
    by rewrite append_assoc.
Qed.

(** The assembled document: the head, the fragments that could be built, in
    order, and the tail. *)
Lemma assemble_fragments epub_path book :
  assemble decode epub_path book
  = html_head (title_of epub_path book) (author_of book)
    +:+ join (omap (frag (extract_images_from_epub book)) (ordered_documents book))
    +:+ html_tail.
Proof. unfold assemble. cbv zeta. by rewrite fold_fragments, append_assoc. Qed.

End Assembler.

(** C5. When building the fragment of one document item raises, the
    assembled document is the one built from the documents before it and
    after it: the item contributes nothing, the others are all there, and
    [extract_epub_content] returns a document. *)
Theorem C5_bad_fragment_omitted
    (decode : list byte -> string) (read_epub : string -> option Book)
    (epub_path : string) (book : Book) (before after : list Item) (bad : Item) :
  read_epub epub_path = Some book →
  ordered_documents book = before ++ bad :: after →
  fragment decode (extract_images_from_epub book) bad = None →
  extract_epub_content decode read_epub epub_path
  = Some (html_head (title_of epub_path book) (author_of book)
          +:+ join (omap (fragment decode (extract_images_from_epub book))
                      (before ++ after))
          +:+ html_tail).
Proof.
  intros Hread Hdocs Hbad. unfold extract_epub_content. rewrite Hread.
  rewrite assemble_fragments, Hdocs. do 3 f_equal.
  rewrite !omap_app. simpl. by rewrite Hbad.
Qed.

(** An instance of C5: three chapters, the second of which cannot be read. *)
Lemma C5_bad_fragment_omitted_witness :
  extract_epub_content decode_ascii (fun _ => Some broken_middle) "book.epub"
  = Some (html_head "Title" "未知作者" +:+ "<p>one</p><p>three</p>" +:+ html_tail).
Proof.
  exact (C5_bad_fragment_omitted decode_ascii (fun _ => Some broken_middle)
           "book.epub" broken_middle
           [doc "ch1" "ch1.xhtml" "<p>one</p>"]
           [doc "ch3" "ch3.xhtml" "<p>three</p>"]
           (broken_doc "ch2" "ch2.xhtml")
           eq_refl eq_refl eq_refl).
Defined.

(** *** Reading order *)

Section Sorting.

Context {A : Type} (key : A -> nat).

Lemma insert_by_perm x l : insert_by key x l ≡ₚ x :: l.
Proof.
  induction l as [|y l IH]; simpl; [done|].
  destruct (key x <=? key y); [done|]. rewrite IH. apply perm_swap.
Qed.

Lemma sort_by_perm l : sort_by key l ≡ₚ l.
Proof.
  induction l as [|x l IH]; simpl; [done|]. by rewrite insert_by_perm, IH.
Qed.

Lemma elem_of_sort_by x l : x ∈ sort_by key l ↔ x ∈ l.
Proof. by rewrite sort_by_perm. Qed.

Lemma insert_by_sorted x l :
  StronglySorted (by_key key) l → StronglySorted (by_key key) (insert_by key x l).
Proof.
  induction 1 as [|y l Hl IH Hy]; simpl.
  - repeat constructor.
  - destruct (key x <=? key y) eqn:E.
    + apply Nat.leb_le in E. constructor; [by constructor|].
      constructor; [done|]. eapply Forall_impl; [exact Hy|].
      unfold by_key. intros; lia.
    + apply Nat.leb_gt in E. constructor; [done|].
      rewrite insert_by_perm. constructor; [unfold by_key; lia | done].
Qed.

Lemma sort_by_sorted l : StronglySorted (by_key key) (sort_by key l).
Proof.
  induction l as [|x l IH]; simpl; [constructor | by apply insert_by_sorted].
Qed.

Lemma insert_by_app_l x l1 l2 :
  (∀ b, b ∈ l2 → key x ≤ key b) →
  insert_by key x (l1 ++ l2) = insert_by key x l1 ++ l2.
Proof.
  intros H. induction l1 as [|a l1 IH]; simpl.
  - destruct l2 as [|b l2]; [done|]. simpl.
    assert (key x ≤ key b) as ->%Nat.leb_le by (apply H; by left). done.
  - destruct (key x <=? key a); [done|]. by rewrite IH.
Qed.

Lemma insert_by_app_r x l1 l2 :
  (∀ a, a ∈ l1 → key a < key x) →
  (∀ b, b ∈ l2 → key x ≤ key b) →
  insert_by key x (l1 ++ l2) = l1 ++ x :: l2.
Proof.
  intros H1 H2. induction l1 as [|a l1 IH]; simpl.
  - destruct l2 as [|b l2]; [done|]. simpl.
    assert (key x ≤ key b) as ->%Nat.leb_le by (apply H2; by left). done.
  - assert (key a < key x) as ->%Nat.leb_gt by (apply H1; by left).
    rewrite IH; [done|]. intros; apply H1; by right.
Qed.

(** A stable sort when the keys fall into a low class, below [top], and the
    class of [top] itself: the low class comes first, sorted, and the other
    class follows in its original order. *)
Lemma sort_by_two_classes (low : A -> bool) (top : nat) l :
  (∀ x, x ∈ l → low x = true → key x < top) →
  (∀ x, x ∈ l → low x = false → key x = top) →
  sort_by key l
  = sort_by key (filter (fun x => low x = true) l)
    ++ filter (fun x => low x = false) l.
Proof.
  induction l as [|x l IH]; intros Hlow Htop; [done|].
  assert (IH' := IH (fun y Hy => Hlow y (list_elem_of_further _ _ _ Hy))
                    (fun y Hy => Htop y (list_elem_of_further _ _ _ Hy))).
  assert (Hin : ∀ a, a ∈ sort_by key (filter (fun x => low x = true) l) →
                     key a < top).
  { intros a [Ha Hl]%elem_of_sort_by%list_elem_of_filter.
    apply Hlow; [by right | done]. }
  assert (Hout : ∀ b, b ∈ filter (fun x => low x = false) l → key b = top).
  { intros b [Hb Hl]%list_elem_of_filter. apply Htop; [by right | done]. }
  simpl. rewrite IH', !filter_cons. destruct (low x) eqn:E.
  - rewrite decide_True, decide_False by done. simpl.
    apply insert_by_app_l. intros b Hb. rewrite (Hout b Hb).
    assert (key x < top) by (apply Hlow; [by left | done]). lia.
  - rewrite decide_False, decide_True by done.
    assert (Hx : key x = top) by (apply Htop; [by left | done]).
    apply insert_by_app_r.
    + intros a Ha. rewrite Hx. by apply Hin.
    + intros b Hb. rewrite Hx, (Hout b Hb). lia.
Qed.

End Sorting.

Section ReadingOrder.

Lemma spine_order_from_bound (l : list (string * string)) (a : nat)
    (m : gmap string nat) id i :
  (∀ k v, m !! k = Some v → v < a + length l) →
  fold_left (fun m e => <[fst (snd e) := fst e]> m) (zip (seq a (length l)) l) m
    !! id = Some i →
  i < a + length l.
Proof.
  revert a m. induction l as [|x l IH]; intros a m Hm; simpl.
  - apply Hm.
  - intros H. apply IH in H; [lia|].
    intros k v [[_ <-] | [_ Hk]]%lookup_insert_Some; [lia|].
    apply Hm in Hk. simpl in Hk. lia.
Qed.

(** A declared rank is an index of the spine. *)
Lemma declared_rank_bound book doc i :
  declared_rank book doc = Some i → i < length (spine book).
Proof.
  unfold declared_rank, spine_order, enumerate. intros H.
  apply spine_order_from_bound in H; [lia|].
  intros k v. by rewrite lookup_empty.
Qed.

(** With a spine of at most 999 entries the sentinel 999 is above every
    declared rank: the declared documents come first, by rank, and the
    others follow in the order of [get_items]. *)
Lemma ordered_documents_short_spine book :
  spine book ≠ [] → length (spine book) ≤ 999 →
  ordered_documents book
  = sort_by (spine_key book)
      (filter (fun doc => is_declared book doc = true) (documents book))
    ++ filter (fun doc => is_declared book doc = false) (documents book).
Proof.
  intros Hne Hlen. unfold ordered_documents. cbv zeta.
  destruct (spine book) eqn:E; [done|]. rewrite <- E in *.
  apply (sort_by_two_classes _ _ 999).
  - intros x _ Hx. unfold is_declared in Hx. apply bool_decide_eq_true in Hx as [i Hi].
    unfold spine_key. fold (declared_rank book x). rewrite Hi. simpl.
    apply declared_rank_bound in Hi. lia.
  - intros x _ Hx. unfold is_declared in Hx. apply bool_decide_eq_false in Hx.
    unfold spine_key. fold (declared_rank book x).
    destruct (declared_rank book x); [|done]. exfalso. apply Hx. eauto.
Qed.

Lemma ordered_documents_no_spine book :
  spine book = [] → ordered_documents book = documents book.
Proof. unfold ordered_documents. by intros ->. Qed.

End ReadingOrder.

(** C1. The claim places every document that the spine does not declare
    after all declared ones. The sort key of an undeclared document is the
    constant 999, which is below the rank of the spine's 1001st entry: in a
    package whose spine declares [c0] ... [c1000], the undeclared document
    [extra] comes out before the declared document [c1000]. *)
Theorem C1_undeclared_before_declared :
  length (spine long_spine) = 1001
  ∧ get_id <$> documents long_spine = ["c1000"; "extra"]
  ∧ declared_rank long_spine (doc "c1000" "c1000.xhtml" "<p>last</p>") = Some 1000
  ∧ declared_rank long_spine (doc "extra" "extra.xhtml" "<p>extra</p>") = None
  ∧ get_id <$> ordered_documents long_spine = ["extra"; "c1000"].
Proof. repeat split; vm_compute; reflexivity. Qed.

(** The order is the declared one when the undeclared document comes last
    in the package and the spine is short. *)
Example reading_order_two_chapters :
  get_id <$> ordered_documents two_chapters = ["ch2"; "ch1"].
Proof. vm_compute. reflexivity. Qed.

(** ** The matcher *)

Section Matcher.

Import Re.

Implicit Types (p : pattern) (s t : string) (g : caps) (f : ascii -> bool).

Lemma mh_one f p c s g :
  match_here (Chars f One :: p) (String c s) g
  = if f c then match_here p s g else None.
Proof. reflexivity. Qed.

Lemma mh_one_end f p g : match_here (Chars f One :: p) EmptyString g = None.
Proof. reflexivity. Qed.

Lemma lit_cons ic c w p :
  lit ic (String c w) ++ p = Chars (same_char ic c) One :: (lit ic w ++ p).
Proof. reflexivity. Qed.

Lemma mh_star f p c s g :
  match_here (Chars f Star :: p) (String c s) g
  = if f c
    then match match_here (Chars f Star :: p) s g with
         | Some r => Some r
         | None => match_here p (String c s) g
         end
    else match_here p (String c s) g.
Proof. reflexivity. Qed.

Lemma mh_star_end f p g :
  match_here (Chars f Star :: p) EmptyString g = match_here p EmptyString g.
Proof. reflexivity. Qed.

Lemma mh_plus f p c s g :
  match_here (Chars f Plus :: p) (String c s) g
  = if f c then match_here (Chars f Star :: p) s g else None.
Proof. reflexivity. Qed.

Lemma mh_open p s g :
  match_here (GroupOpen :: p) s g
  = match_here p s {| g_open := Some s; g_close := g_close g |}.
Proof. reflexivity. Qed.

Lemma mh_close p s g :
  match_here (GroupClose :: p) s g
  = match_here p s {| g_open := g_open g; g_close := Some s |}.
Proof. reflexivity. Qed.

(** A repeat stops at a character outside its set. *)
Lemma mh_star_stop f p c s g :
  f c = false →
  match_here (Chars f Star :: p) (String c s) g = match_here p (String c s) g.
Proof. intros H. by rewrite mh_star, H. Qed.

(** A greedy repeat that can run over [a] and match from there does so. *)
Lemma mh_star_run f p a s g r :
  all_in f a = true →
  match_here (Chars f Star :: p) s g = Some r →
  match_here (Chars f Star :: p) (a +:+ s) g = Some r.
Proof.
  intros Ha Hs. induction a as [|c a IH]; [done|].
  simpl in Ha. apply andb_true_iff in Ha as [Hc Ha].
  rewrite append_cons, mh_star, Hc, (IH Ha). reflexivity.
Qed.

(** A greedy repeat fails when the rest of the pattern fails wherever the
    repeat may stop. *)
Lemma mh_star_none f p a s g :
  (∀ b t, a = b +:+ t → match_here p (t +:+ s) g = None) →
  match_here (Chars f Star :: p) s g = None →
  match_here (Chars f Star :: p) (a +:+ s) g = None.
Proof.
  intros Ha Hs. induction a as [|c a IH]; [done|].
  rewrite append_cons, mh_star.
  rewrite IH by (intros b t ->; apply (Ha (String c b) t); reflexivity).
  rewrite <- append_cons, (Ha EmptyString (String c a)) by reflexivity.
  by destruct (f c).
Qed.

Lemma mh_lit ic w w' p s g :
  agree ic w w' = true →
  match_here (lit ic w ++ p) (w' +:+ s) g = match_here p s g.
Proof.
  revert w'. induction w as [|c w IH]; intros [|x w'] H; try done.
  simpl in H. apply andb_true_iff in H as [Hc H].
  rewrite append_cons, lit_cons, mh_one, Hc. by apply IH.
Qed.

Lemma same_char_ci c x :
  Py.lower_char c = c → same_char true c x = true → Py.lower_char x = c.
Proof. unfold same_char. intros Hc H. apply Ascii.eqb_eq in H. congruence. Qed.

(** A match of a lower-case literal, case ignored, starts with the literal
    once the text is lowered. *)
Lemma mh_lit_ci_prefix w p s g r :
  Py.lower w = w →
  match_here (lit true w ++ p) s g = Some r →
  String.prefix w (Py.lower s) = true.
Proof.
  revert s. induction w as [|c w IH]; intros s Hw H.
  - by destruct s.
  - simpl in Hw. injection Hw as Hc Hw. rewrite lit_cons in H.
    destruct s as [|x s]; [by rewrite mh_one_end in H|].
    rewrite mh_one in H. destruct (same_char true c x) eqn:E; [|done].
    apply same_char_ci in E; [|done]. simpl. rewrite E.
    destruct (ascii_dec c c); [|done]. by apply IH.
Qed.

Lemma mh_lit_cs_prefix w p s g r :
  match_here (lit false w ++ p) s g = Some r → String.prefix w s = true.
Proof.
  revert s. induction w as [|c w IH]; intros s H.
  - by destruct s.
  - rewrite lit_cons in H.
    destruct s as [|x s]; [by rewrite mh_one_end in H|].
    rewrite mh_one in H. unfold same_char in H.
    destruct (Ascii.eqb x c) eqn:E; [|done].
    apply Ascii.eqb_eq in E as ->. simpl.
    destruct (ascii_dec c c); [|done]. by apply IH.
Qed.

End Matcher.

Section Substitution.

Import Re.

Implicit Types (p : pattern) (s t : string) (repl : Match -> string).

Lemma substring_prefix a b : String.substring 0 (String.length a) (a +:+ b) = a.
Proof.
  induction a as [|c a IH]; [by destruct b|].
  rewrite append_cons. simpl. by rewrite IH.
Qed.

Lemma text_between_app a b : text_between (a +:+ b) b = a.
Proof.
  unfold text_between. rewrite length_append.
  replace (String.length a + String.length b - String.length b)
    with (String.length a) by lia.
  apply substring_prefix.
Qed.

Lemma match_at_none p s : match_here p s no_caps = None → match_at p s = None.
Proof. unfold match_at. by intros ->. Qed.

Lemma match_at_some p a r o c' :
  match_here p (a +:+ r) no_caps
  = Some (r, {| g_open := Some (o +:+ c'); g_close := Some c' |}) →
  match_at p (a +:+ r) = Some {| group0 := a; group1 := o; rest := r |}.
Proof. unfold match_at. intros ->. simpl. by rewrite !text_between_app. Qed.

Lemma match_at_some_nogroup p a r :
  match_here p (a +:+ r) no_caps = Some (r, no_caps) →
  match_at p (a +:+ r) = Some {| group0 := a; group1 := EmptyString; rest := r |}.
Proof. unfold match_at. intros ->. simpl. by rewrite !text_between_app. Qed.

Lemma sub_from_cons p repl lim c s :
  sub_from p repl lim 0 (String c s)
  = match lim with
    | Some O => String c s
    | _ =>
        match match_at p (String c s) with
        | Some m =>
            match String.length (group0 m) with
            | O => String c (sub_from p repl lim 0 s)
            | S k => repl m +:+ sub_from p repl (pred <$> lim) k s
            end
        | None => String c (sub_from p repl lim 0 s)
        end
    end.
Proof. reflexivity. Qed.

Lemma sub_from_exhausted p repl s : sub_from p repl (Some 0) 0 s = s.
Proof. by destruct s. Qed.

(** Passing over the characters of a match. *)
Lemma sub_from_skip p repl lim a s :
  sub_from p repl lim (String.length a) (a +:+ s) = sub_from p repl lim 0 s.
Proof. induction a as [|c a IH]; [done|]. rewrite append_cons. exact IH. Qed.

(** A stretch of text in which no match starts is copied. *)
Lemma sub_from_copy p repl lim a s :
  lim ≠ Some 0 →
  (∀ b t, a = b +:+ t → t ≠ EmptyString → match_at p (t +:+ s) = None) →
  sub_from p repl lim 0 (a +:+ s) = a +:+ sub_from p repl lim 0 s.
Proof.
  intros Hlim Ha. induction a as [|c a IH]; [done|].
  rewrite !append_cons, sub_from_cons.
  rewrite <- append_cons, (Ha EmptyString (String c a)) by done.
  rewrite IH by (intros b t ->; apply (Ha (String c b) t); reflexivity).
  destruct lim as [[|n]|]; done.
Qed.

(** The first match: its replacement, then the text after it. *)
Lemma sub_from_match p repl lim a s m :
  lim ≠ Some 0 → a ≠ EmptyString →
  match_at p (a +:+ s) = Some m → group0 m = a →
  sub_from p repl lim 0 (a +:+ s)
  = repl m +:+ sub_from p repl (pred <$> lim) 0 s.
Proof.
  intros Hlim Ha Hm Hg. destruct a as [|c a]; [done|].
  rewrite append_cons, sub_from_cons, <- append_cons, Hm, Hg. simpl.
  rewrite sub_from_skip. destruct lim as [[|n]|]; done.
Qed.

End Substitution.

Section Occurrences.

Implicit Types (s t needle : string).

Lemma lower_app s t : Py.lower (s +:+ t) = Py.lower s +:+ Py.lower t.
Proof.
  induction s as [|c s IH]; [done|]. rewrite append_cons. simpl.
  by rewrite IH.
Qed.

Lemma lower_nonempty s : s ≠ EmptyString → Py.lower s ≠ EmptyString.
Proof. by destruct s. Qed.

(** No occurrence in a text means none at the start of any of its ends. *)
Lemma contains_false_suffix needle a b :
  Py.contains needle (a +:+ b) = false → String.prefix needle b = false.
Proof.
  induction a as [|c a IH].
  - destruct b; simpl; by intros [? _]%orb_false_iff.
  - rewrite append_cons. simpl. intros [_ H]%orb_false_iff. by apply IH.
Qed.

(** A literal that does not start [b] does not start [b] followed by a
    character that the literal has only in first place, if at all. *)
Lemma prefix_boundary needle b z t :
  String.prefix needle b = false → b ≠ EmptyString →
  (∀ n rest, needle = String n rest → Py.char_in z rest = false) →
  String.prefix needle (b +:+ String z t) = false.
Proof.
  revert b. induction needle as [|n needle IH]; intros b Hp Hb Hz.
  - by destruct b.
  - destruct b as [|x b]; [done|]. rewrite append_cons. simpl in *.
    destruct (ascii_dec n x); [|done].
    specialize (Hz n needle eq_refl).
    destruct b as [|y b].
    + destruct needle as [|m needle]; [done|]. simpl in *.
      destruct (ascii_dec m z) as [->|]; [|done].
      by rewrite Ascii.eqb_refl in Hz.
    + apply IH; [done | done |].
      intros m rest ->. simpl in Hz. by apply orb_false_iff in Hz as [_ ?].
Qed.

End Occurrences.

(** ** Image tags *)

(** Both sides of an equation between texts, as one run of characters and
    texts. *)
Ltac string_norm :=
  unfold Py.chr;
  repeat (rewrite append_assoc || rewrite append_cons || rewrite append_empty_l).

Section ImageTag.

Import Re.

Implicit Types (s t B R REF post : string) (q x : ascii) (g : caps).

(** The sets of the image pattern, as tests on one character. *)
Lemma same_char_gt x : same_char true ">" x = Ascii.eqb x ">".
Proof. destruct x as [[] [] [] [] [] [] [] []]; reflexivity. Qed.

Lemma same_char_dquote ic x : same_char ic Py.dquote x = Ascii.eqb x Py.dquote.
Proof. destruct ic; [|done]. destruct x as [[] [] [] [] [] [] [] []]; reflexivity. Qed.

Lemma same_char_squote ic x : same_char ic Py.squote x = Ascii.eqb x Py.squote.
Proof. destruct ic; [|done]. destruct x as [[] [] [] [] [] [] [] []]; reflexivity. Qed.

Lemma all_in_cons (f : ascii -> bool) c s :
  all_in f (String c s) = f c && all_in f s.
Proof. reflexivity. Qed.

Lemma in_set_gt x : in_set true ">" x = Ascii.eqb x ">".
Proof. cbn [in_set]. by rewrite same_char_gt, orb_false_r. Qed.

Lemma in_set_quotes ic x :
  in_set ic quotes x = Ascii.eqb x Py.dquote || Ascii.eqb x Py.squote.
Proof.
  unfold quotes. cbn [in_set].
  by rewrite same_char_dquote, same_char_squote, orb_false_r.
Qed.

Lemma run_without_gt s :
  Py.char_in ">" s = false →
  all_in (fun x => negb (in_set true ">" x)) s = true.
Proof.
  induction s as [|c s IH]; [done|]. cbn [Py.char_in].
  rewrite all_in_cons, in_set_gt, (Ascii.eqb_sym ">" c).
  intros [-> H]%orb_false_iff. by rewrite IH.
Qed.

Lemma run_without_quotes ic s :
  Py.char_in Py.dquote s = false → Py.char_in Py.squote s = false →
  all_in (fun x => negb (in_set ic quotes x)) s = true.
Proof.
  induction s as [|c s IH]; [done|]. cbn [Py.char_in].
  rewrite all_in_cons, in_set_quotes.
  rewrite (Ascii.eqb_sym Py.dquote c), (Ascii.eqb_sym Py.squote c).
  intros [-> H1]%orb_false_iff [-> H2]%orb_false_iff. by rewrite IH.
Qed.

Lemma img_split :
  Pat.img
  = lit true "<img" ++ Chars (fun x => negb (in_set true ">" x)) Star :: img_tail.
Proof. reflexivity. Qed.

Lemma mh_one_true f (p : pattern) c s g :
  f c = true → match_here (Chars f One :: p) (String c s) g = match_here p s g.
Proof. intros H. by rewrite mh_one, H. Qed.

(** *** One character at a time *)

Lemma same_char_equals ic x : same_char ic "=" x = Ascii.eqb x "=".
Proof. destruct ic; [|done]. destruct x as [[] [] [] [] [] [] [] []]; reflexivity. Qed.

Lemma same_char_lt x : same_char true "<" x = Ascii.eqb x "<".
Proof. destruct x as [[] [] [] [] [] [] [] []]; reflexivity. Qed.

Lemma space_or_high x : Py.is_space x = true → ascii_space x || high x = true.
Proof. destruct x as [[] [] [] [] [] [] [] []]; vm_compute; congruence. Qed.

Lemma ascii_space_is_space x : ascii_space x = true → Py.is_space x = true.
Proof. destruct x as [[] [] [] [] [] [] [] []]; vm_compute; congruence. Qed.

Lemma is_quote_cases q : is_quote q = true → q = Py.dquote ∨ q = Py.squote.
Proof.
  unfold is_quote. intros [H|H]%orb_true_iff; apply Ascii.eqb_eq in H; auto.
Qed.

Lemma in_set_is_quote ic x : in_set ic quotes x = is_quote x.
Proof. by rewrite in_set_quotes. Qed.

(** The characters of a well-formed tag at which no attribute named [src]
    starts. *)
Lemma head_space x : ascii_space x = true → negb (attr_head x) = true.
Proof. destruct x as [[] [] [] [] [] [] [] []]; vm_compute; congruence. Qed.

Lemma head_r x : same_char true "r" x = true → negb (attr_head x) = true.
Proof. destruct x as [[] [] [] [] [] [] [] []]; vm_compute; congruence. Qed.

Lemma head_c x : same_char true "c" x = true → negb (attr_head x) = true.
Proof. destruct x as [[] [] [] [] [] [] [] []]; vm_compute; congruence. Qed.

Lemma head_quote x : is_quote x = true → negb (attr_head x) = true.
Proof. intros [-> | ->]%is_quote_cases; reflexivity. Qed.

Lemma head_lt x : same_char true "<" x = true → negb (attr_head x) = true.
Proof. destruct x as [[] [] [] [] [] [] [] []]; vm_compute; congruence. Qed.

Lemma head_i x : same_char true "i" x = true → negb (attr_head x) = true.
Proof. destruct x as [[] [] [] [] [] [] [] []]; vm_compute; congruence. Qed.

Lemma head_m x : same_char true "m" x = true → negb (attr_head x) = true.
Proof. destruct x as [[] [] [] [] [] [] [] []]; vm_compute; congruence. Qed.

Lemma head_g x : same_char true "g" x = true → negb (attr_head x) = true.
Proof. destruct x as [[] [] [] [] [] [] [] []]; vm_compute; congruence. Qed.

Lemma all_in_impl (f h : ascii -> bool) s :
  (∀ c, f c = true → h c = true) → all_in f s = true → all_in h s = true.
Proof.
  intros Hfh. induction s as [|c s IH]; [done|]. rewrite !all_in_cons.
  intros [Hc Hs]%andb_true_iff. by rewrite (Hfh _ Hc), IH.
Qed.

Lemma all_in_append f a b : all_in f (a +:+ b) = all_in f a && all_in f b.
Proof.
  induction a as [|x a IH]; [done|]. rewrite append_cons, !all_in_cons, IH.
  by rewrite andb_assoc.
Qed.

Lemma without_gt_run s :
  all_in (fun x => negb (in_set true ">" x)) s = true → Py.char_in ">" s = false.
Proof.
  induction s as [|c s IH]; [done|]. cbn [Py.char_in].
  rewrite all_in_cons, in_set_gt, (Ascii.eqb_sym ">" c).
  intros [Hc Hs]%andb_true_iff. apply negb_true_iff in Hc. by rewrite Hc, IH.
Qed.

Lemma agree_length ic w w' :
  agree ic w w' = true → String.length w' = String.length w.
Proof.
  revert w'. induction w as [|c w IH]; intros [|d w'] H; try done.
  cbn [agree] in H. apply andb_true_iff in H as [_ H]. cbn [String.length].
  by rewrite (IH _ H).
Qed.

(** *** The patterns and the tests of the vocabulary *)

Lemma lit_word_after ic w p s g :
  match_here (lit ic w ++ p) s g
  = match after (word ic w) s with
    | Some s' => match_here p s' g
    | None => None
    end.
Proof.
  revert s. induction w as [|c w IH]; intros s; [done|].
  rewrite lit_cons. cbn [word after]. destruct s as [|x s]; [done|].
  rewrite mh_one. destruct (same_char ic c x); [apply IH | done].
Qed.

Lemma space_then_equals ic p s g r :
  match_here (Chars Py.is_space Star :: Chars (same_char ic "=") One :: p) s g
  = Some r →
  then_equals s = true.
Proof.
  revert r. induction s as [|c s IH]; intros r.
  - by rewrite mh_star_end, mh_one_end.
  - rewrite mh_star. cbn [then_equals]. destruct (Py.is_space c) eqn:Hsp.
    + destruct (match_here _ s g) as [r'|] eqn:E.
      * intros _. by rewrite (space_or_high _ Hsp), (IH r' eq_refl), orb_true_r.
      * rewrite mh_one, same_char_equals. by destruct (Ascii.eqb c "=").
    + rewrite mh_one, same_char_equals. by destruct (Ascii.eqb c "=").
Qed.

(** Where the image pattern matches, an image tag may start; where the tail
    of the image pattern or the attribute pattern matches, an attribute
    named [src] may start. *)
Lemma img_needs_start s g r :
  match_here Pat.img s g = Some r → img_start s = true.
Proof.
  rewrite img_split, lit_word_after. unfold img_start, starts.
  by destruct (after (word true "<img") s).
Qed.

Lemma img_tail_needs_start s g r :
  match_here img_tail s g = Some r → attr_start true s = true.
Proof.
  unfold img_tail. rewrite lit_word_after. unfold attr_start, named.
  destruct (after (word true "src") s) as [s'|]; [|done].
  intros H. apply (space_then_equals true) in H. by rewrite H.
Qed.

Lemma src_attr_needs_start s g r :
  match_here Pat.src_attr s g = Some r → attr_start false s = true.
Proof.
  unfold Pat.src_attr. rewrite lit_word_after. unfold attr_start, named.
  destruct (after (word false "src") s) as [s'|]; [|done].
  intros H. apply (space_then_equals false) in H. by rewrite H.
Qed.

Lemma attr_start_head ic c t : negb (attr_head c) = true → attr_start ic (String c t) = false.
Proof.
  unfold attr_head, attr_start, named. rewrite negb_true_iff.
  intros [Hs H197]%orb_false_iff. cbn [word src_long_s after].
  rewrite H197, andb_false_r, orb_false_r.
  destruct ic; [by rewrite Hs|].
  unfold same_char in *. destruct (Ascii.eqb c "s") eqn:E; [|done].
  apply Ascii.eqb_eq in E as ->. discriminate Hs.
Qed.

(** *** Positions of a text *)

Lemma free_from_suffix P s rest b t :
  free_from P s rest = true → s = b +:+ t → t ≠ EmptyString →
  P (t +:+ rest) = false.
Proof.
  revert s. induction b as [|c b IH]; intros s Hs -> Ht.
  - rewrite append_empty_l in Hs. destruct t as [|x t]; [done|].
    cbn [free_from] in Hs. apply andb_true_iff in Hs as [Hx _].
    by apply negb_true_iff in Hx.
  - rewrite append_cons in Hs. cbn [free_from] in Hs.
    apply andb_true_iff in Hs as [_ Hs]. by apply (IH _ Hs).
Qed.

Lemma free_from_app P a b rest :
  free_from P (a +:+ b) rest = free_from P a (b +:+ rest) && free_from P b rest.
Proof.
  induction a as [|c a IH]; [done|].
  rewrite append_cons. cbn [free_from]. rewrite IH, <- append_cons, append_assoc.
  by rewrite andb_assoc.
Qed.

Lemma free_from_heads (P : string -> bool) (ok : ascii -> bool) a rest :
  (∀ c t, ok c = true → P (String c t) = false) →
  all_in ok a = true → free_from P a rest = true.
Proof.
  intros HP. induction a as [|c a IH]; [done|]. rewrite all_in_cons.
  intros [Hc Ha]%andb_true_iff. cbn [free_from].
  by rewrite append_cons, (HP _ _ Hc), IH.
Qed.

Lemma free_from_boundary (P : string -> bool) s z v :
  (∀ t, t ≠ EmptyString → P (t +:+ String z v) = P t) →
  free_of P s = true → free_from P s (String z v) = true.
Proof.
  intros HP. unfold free_of. induction s as [|c s IH]; [done|].
  cbn [free_from]. rewrite append_empty_r, HP by done.
  intros [-> Hs]%andb_true_iff. by rewrite IH.
Qed.

Lemma after_boundary w t z v :
  t ≠ EmptyString → Forall (fun f => f z = false) (tail w) →
  after w (t +:+ String z v) = (fun r => r +:+ String z v) <$> after w t.
Proof.
  revert t. induction w as [|f w IH]; intros t Ht Hz; [done|].
  destruct t as [|c t]; [done|]. rewrite append_cons. cbn [after tail] in *.
  destruct (f c); [|done]. destruct t as [|d t].
  - rewrite append_empty_l. destruct w as [|f' w]; [done|]. cbn [after].
    apply Forall_cons in Hz as [-> _]. done.
  - apply IH; [done|]. destruct w as [|f' w]; [constructor|].
    cbn [tail]. by apply Forall_cons in Hz as [_ Hz].
Qed.

Lemma then_equals_boundary r z v :
  Ascii.eqb z "=" = false → ascii_space z = false → high z = false →
  then_equals (r +:+ String z v) = then_equals r.
Proof.
  intros H1 H2 H3. induction r as [|c r IH].
  - rewrite append_empty_l. cbn [then_equals]. by rewrite H1, H2, H3.
  - rewrite append_cons. cbn [then_equals]. by rewrite IH.
Qed.

Lemma named_boundary w t z v :
  t ≠ EmptyString → Forall (fun f => f z = false) (tail w) →
  Ascii.eqb z "=" = false → ascii_space z = false → high z = false →
  named w (t +:+ String z v) = named w t.
Proof.
  intros Ht Hz H1 H2 H3. unfold named. rewrite after_boundary by done.
  destruct (after w t) as [r|]; [|done]. cbn. by apply then_equals_boundary.
Qed.

(** Whether an attribute starts inside a text does not depend on what
    follows the text, when that is an [s] or a [>]. *)
Lemma attr_start_boundary ic t z v :
  t ≠ EmptyString → z = "s"%char ∨ z = ">"%char →
  attr_start ic (t +:+ String z v) = attr_start ic t.
Proof.
  intros Ht Hz. unfold attr_start.
  rewrite (named_boundary (word ic "src")), (named_boundary src_long_s);
    try done; try (destruct Hz as [-> | ->]; reflexivity).
  - destruct Hz as [-> | ->]; repeat constructor.
  - destruct Hz as [-> | ->], ic; repeat constructor.
Qed.

(** Whether an image tag starts inside a text does not depend on what
    follows the text, when that is a [<]. *)
Lemma img_start_boundary t v :
  t ≠ EmptyString → img_start (t +:+ String "<" v) = img_start t.
Proof.
  intros Ht. unfold img_start, starts.
  rewrite !after_boundary by first [done | repeat constructor].
  by destruct (after (word true "<img") t), (after img_dotted t).
Qed.

(** *** The repeat of the image pattern *)

(** A greedy repeat fails when the rest of the pattern fails wherever the
    repeat can stop. *)
Lemma mh_star_fail f p s g :
  (∀ b t, s = b +:+ t → all_in f b = true → match_here p t g = None) →
  match_here (Chars f Star :: p) s g = None.
Proof.
  induction s as [|c s IH]; intros H.
  - rewrite mh_star_end. by apply (H EmptyString).
  - rewrite mh_star.
    assert (Hp : match_here p (String c s) g = None) by by apply (H EmptyString).
    destruct (f c) eqn:Hc; [|done]. rewrite IH; [done|].
    intros b t -> Hb. apply (H (String c b)); [done|].
    by rewrite all_in_cons, Hc.
Qed.

(** A greedy repeat takes the place at hand when the rest of the pattern
    matches there and at no place further on that the repeat can reach. *)
Lemma mh_star_choose f p s g r :
  match_here p s g = Some r →
  (∀ b t, s = b +:+ t → b ≠ EmptyString → all_in f b = true →
          match_here p t g = None) →
  match_here (Chars f Star :: p) s g = Some r.
Proof.
  intros Hp H. destruct s as [|c s]; [by rewrite mh_star_end|].
  rewrite mh_star. destruct (f c) eqn:Hc; [|done].
  rewrite mh_star_fail; [done|].
  intros b t -> Hb. apply (H (String c b)); [done | done |].
  by rewrite all_in_cons, Hc.
Qed.

Lemma app_split_no_char b t s z post :
  b +:+ t = s +:+ String z post → Py.char_in z b = false →
  ∃ t', s = b +:+ t' ∧ t = t' +:+ String z post.
Proof.
  revert s. induction b as [|c b IH]; intros s H Hz.
  - exists s. by rewrite append_empty_l in *.
  - cbn [Py.char_in] in Hz. apply orb_false_iff in Hz as [Hc Hz].
    rewrite append_cons in H. destruct s as [|d s].
    + rewrite append_empty_l in H. injection H as -> _.
      by rewrite Ascii.eqb_refl in Hc.
    + rewrite append_cons in H. injection H as -> H.
      destruct (IH _ H Hz) as (t' & -> & ->). by exists t'.
Qed.

(** *** The image pattern at a well-formed tag *)

Lemma img_tail_here SRC ws1 ws2 q REF q' R post g :
  agree true "src" SRC = true →
  all_in ascii_space ws1 = true → all_in ascii_space ws2 = true →
  is_quote q = true → is_quote q' = true →
  REF ≠ EmptyString → all_in (fun c => negb (is_quote c)) REF = true →
  Py.char_in ">" R = false →
  match_here img_tail
    (SRC +:+ ws1 +:+ "=" +:+ ws2 +:+ Py.chr q +:+ REF +:+ Py.chr q' +:+ R
     +:+ ">" +:+ post) g
  = Some (post,
          {| g_open := Some (REF +:+ Py.chr q' +:+ R +:+ ">" +:+ post);
             g_close := Some (Py.chr q' +:+ R +:+ ">" +:+ post) |}).
Proof.
  intros HSRC Hws1 Hws2 Hq Hq' Hne HREF HR. unfold img_tail.
  apply is_quote_cases in Hq, Hq'.
  rewrite (mh_lit true "src" SRC) by done. cbn [space app].
  apply mh_star_run; [by apply (all_in_impl _ _ _ ascii_space_is_space)|].
  change ("=" +:+ ?z) with (String "=" z).
  rewrite mh_star_stop by reflexivity.
  change (String "=" ?z) with ("=" +:+ z).
  rewrite (mh_lit true "=" "=") by reflexivity.
  apply mh_star_run; [by apply (all_in_impl _ _ _ ascii_space_is_space)|].
  unfold Py.chr at 1. rewrite append_cons, append_empty_l.
  rewrite mh_star_stop by (destruct Hq as [-> | ->]; reflexivity).
  cbn [one_of app]. rewrite mh_one_true by (destruct Hq as [-> | ->]; reflexivity).
  cbn [group none_of app]. rewrite mh_open. cbn [g_close].
  destruct REF as [|c REF]; [done|].
  assert (Hrun : all_in (fun x => negb (in_set true quotes x)) (String c REF) = true).
  { revert HREF. apply all_in_impl. intros x. by rewrite in_set_is_quote. }
  rewrite all_in_cons in Hrun. apply andb_true_iff in Hrun as [Hc Hrun].
  rewrite append_cons, mh_plus, Hc.
  rewrite (mh_star_run _ _ REF _ _
             (post, {| g_open := Some (String c REF +:+ Py.chr q' +:+ R +:+ ">" +:+ post);
                       g_close := Some (Py.chr q' +:+ R +:+ ">" +:+ post) |}) Hrun);
    [by rewrite append_cons|].
  unfold Py.chr. rewrite (append_cons q'), append_empty_l.
  rewrite mh_star_stop by (destruct Hq' as [-> | ->]; reflexivity).
  rewrite mh_close. cbn [g_open].
  rewrite mh_one_true by (destruct Hq' as [-> | ->]; reflexivity).
  rewrite (mh_star_run _ _ R _ _
             (post, {| g_open := Some (String c REF +:+ String q' (R +:+ ">" +:+ post));
                       g_close := Some (String q' (R +:+ ">" +:+ post)) |})
             (run_without_gt _ HR)); [done|].
  change (">" +:+ post) with (String ">" post).
  rewrite mh_star_stop by reflexivity.
  change (String ">" post) with (">" +:+ post).
  rewrite <- (app_nil_r (lit true ">")).
  by rewrite (mh_lit true ">" ">") by reflexivity.
Qed.

(** No attribute named [src] starts after the first character of the
    attribute of a well-formed tag. *)
Lemma no_later_attribute c1 c2 c3 ws1 ws2 q REF q' R post :
  agree true "src" (String c1 (String c2 (String c3 EmptyString))) = true →
  all_in ascii_space ws1 = true → all_in ascii_space ws2 = true →
  is_quote q = true →
  free_of (attr_start true) (REF +:+ Py.chr q' +:+ R) = true →
  free_from (attr_start true)
    ((String c2 (String c3 EmptyString) +:+ ws1 +:+ "=" +:+ ws2 +:+ Py.chr q)
     +:+ REF +:+ Py.chr q' +:+ R)
    (String ">" post) = true.
Proof.
  intros HSRC Hws1 Hws2 Hq Hfree. rewrite free_from_app. apply andb_true_iff. split.
  - apply (free_from_heads _ (fun c => negb (attr_head c)));
      [intros c t; apply attr_start_head|].
    cbn [agree] in HSRC. apply andb_true_iff in HSRC as [_ HSRC].
    apply andb_true_iff in HSRC as [H2 HSRC]. apply andb_true_iff in HSRC as [H3 _].
    rewrite !append_cons, append_empty_l, !all_in_cons, (head_r _ H2), (head_c _ H3).
    rewrite all_in_append, (all_in_impl _ _ _ head_space Hws1).
    rewrite all_in_cons, append_empty_l, all_in_append.
    rewrite (all_in_impl _ _ _ head_space Hws2).
    unfold Py.chr. cbn [all_in]. by rewrite (head_quote _ Hq).
  - apply free_from_boundary; [|done].
    intros t Ht. apply attr_start_boundary; [done | by right].
Qed.

(** The match of the image pattern at a well-formed tag. *)
Lemma img_at_tag IMG B SRC ws1 ws2 q REF q' R post :
  agree true "<img" IMG = true →
  Py.char_in ">" B = false →
  agree true "src" SRC = true →
  all_in ascii_space ws1 = true → all_in ascii_space ws2 = true →
  is_quote q = true → is_quote q' = true →
  REF ≠ EmptyString → all_in (fun c => negb (is_quote c)) REF = true →
  Py.char_in ">" R = false →
  free_of (attr_start true) (REF +:+ Py.chr q' +:+ R) = true →
  match_here Pat.img
    (IMG +:+ B +:+ SRC +:+ ws1 +:+ "=" +:+ ws2 +:+ Py.chr q +:+ REF +:+ Py.chr q'
     +:+ R +:+ ">" +:+ post)
    no_caps
  = Some (post,
          {| g_open := Some (REF +:+ Py.chr q' +:+ R +:+ ">" +:+ post);
             g_close := Some (Py.chr q' +:+ R +:+ ">" +:+ post) |}).
Proof.
  intros HIMG HB HSRC Hws1 Hws2 Hq Hq' Hne HREF HR Hfree.
  rewrite img_split, (mh_lit true "<img" IMG) by done.
  apply mh_star_run; [by apply run_without_gt|].
  apply mh_star_choose; [by apply img_tail_here|].
  intros b t Hbt Hb Hrun. apply without_gt_run in Hrun.
  destruct (match_here img_tail t no_caps) as [r|] eqn:E; [|done].
  exfalso. apply img_tail_needs_start in E.
  pose proof (agree_length _ _ _ HSRC) as Hlen.
  destruct SRC as [|s1 [|s2 [|s3 [|]]]]; try discriminate Hlen. clear Hlen.
  assert (Hx : b +:+ t
               = (String s1
                    ((String s2 (String s3 EmptyString) +:+ ws1 +:+ "=" +:+ ws2
                      +:+ Py.chr q) +:+ REF +:+ Py.chr q' +:+ R))
                 +:+ String ">" post).
  { rewrite <- Hbt. by string_norm. }
  apply app_split_no_char in Hx as (t' & Hx & ->); [|done].
  destruct b as [|c b]; [done|]. rewrite append_cons in Hx. injection Hx as _ Hx.
  destruct t' as [|d t'].
  - rewrite append_empty_l in E. by rewrite attr_start_head in E.
  - rewrite (free_from_suffix _ _ _ b (String d t')
               (no_later_attribute s1 s2 s3 ws1 ws2 q REF q' R post
                  HSRC Hws1 Hws2 Hq Hfree) Hx) in E; done.
Qed.

(** The attribute pattern at the attribute. *)
Lemma src_attr_here ws1 ws2 q REF q' t :
  all_in ascii_space ws1 = true → all_in ascii_space ws2 = true →
  is_quote q = true → is_quote q' = true →
  REF ≠ EmptyString → all_in (fun c => negb (is_quote c)) REF = true →
  match_here Pat.src_attr
    ("src" +:+ ws1 +:+ "=" +:+ ws2 +:+ Py.chr q +:+ REF +:+ Py.chr q' +:+ t) no_caps
  = Some (t, no_caps).
Proof.
  intros Hws1 Hws2 Hq Hq' Hne HREF. unfold Pat.src_attr.
  apply is_quote_cases in Hq, Hq'.
  rewrite (mh_lit false "src" "src") by reflexivity. cbn [space app].
  apply mh_star_run; [by apply (all_in_impl _ _ _ ascii_space_is_space)|].
  change ("=" +:+ ?z) with (String "=" z).
  rewrite mh_star_stop by reflexivity.
  change (String "=" ?z) with ("=" +:+ z).
  rewrite (mh_lit false "=" "=") by reflexivity.
  apply mh_star_run; [by apply (all_in_impl _ _ _ ascii_space_is_space)|].
  unfold Py.chr at 1. rewrite append_cons, append_empty_l.
  rewrite mh_star_stop by (destruct Hq as [-> | ->]; reflexivity).
  cbn [one_of app]. rewrite mh_one_true by (destruct Hq as [-> | ->]; reflexivity).
  cbn [none_of app].
  destruct REF as [|c REF]; [done|].
  assert (Hrun : all_in (fun x => negb (in_set false quotes x)) (String c REF) = true).
  { revert HREF. apply all_in_impl. intros x. by rewrite in_set_is_quote. }
  rewrite all_in_cons in Hrun. apply andb_true_iff in Hrun as [Hc Hrun].
  rewrite append_cons, mh_plus, Hc.
  apply mh_star_run; [done|].
  unfold Py.chr, one_of. rewrite append_cons, append_empty_l.
  rewrite mh_star_stop by (destruct Hq' as [-> | ->]; reflexivity).
  by rewrite mh_one_true by (destruct Hq' as [-> | ->]; reflexivity).
Qed.

(** Writing a value without backslash into the reference attribute of a
    tag whose attribute is the first written [src]. *)
Lemma set_src_tag value IMG B ws1 ws2 q REF q' R :
  template ("src=" +:+ Py.chr Py.dquote +:+ value +:+ Py.chr Py.dquote)
  = Some ("src=" +:+ Py.chr Py.dquote +:+ value +:+ Py.chr Py.dquote) →
  agree true "<img" IMG = true →
  free_of (attr_start false) B = true →
  all_in ascii_space ws1 = true → all_in ascii_space ws2 = true →
  is_quote q = true → is_quote q' = true →
  REF ≠ EmptyString → all_in (fun c => negb (is_quote c)) REF = true →
  set_src value
    (IMG +:+ B +:+ "src" +:+ ws1 +:+ "=" +:+ ws2 +:+ Py.chr q +:+ REF +:+ Py.chr q'
     +:+ R +:+ ">")
  = IMG +:+ B +:+ "src=" +:+ Py.chr Py.dquote +:+ value +:+ Py.chr Py.dquote
    +:+ R +:+ ">".
Proof.
  intros Ht HIMG HB Hws1 Hws2 Hq Hq' Hne HREF. unfold set_src. rewrite Ht. unfold sub.
  set (repl := "src=" +:+ Py.chr Py.dquote +:+ value +:+ Py.chr Py.dquote).
  set (attr := "src" +:+ ws1 +:+ "=" +:+ ws2 +:+ Py.chr q +:+ REF +:+ Py.chr q').
  replace (IMG +:+ B +:+ "src" +:+ ws1 +:+ "=" +:+ ws2 +:+ Py.chr q +:+ REF +:+ Py.chr q'
           +:+ R +:+ ">")
    with ((IMG +:+ B) +:+ attr +:+ R +:+ ">").
  2:{ subst attr. by rewrite !append_assoc. }
  rewrite sub_from_copy; [|done|].
  - rewrite (sub_from_match _ _ _ attr _
               {| group0 := attr; group1 := EmptyString; rest := R +:+ ">" |});
      try done.
    + cbn [fmap option_fmap option_map pred]. rewrite sub_from_exhausted.
      subst repl. by rewrite !append_assoc.
    + apply match_at_some_nogroup. subst attr. rewrite !append_assoc.
      by apply src_attr_here.
  - intros b t Hbt Hne'. apply match_at_none.
    destruct (match_here Pat.src_attr (t +:+ attr +:+ R +:+ ">") no_caps)
      as [r|] eqn:E; [|done].
    exfalso. apply src_attr_needs_start in E.
    assert (Hfree : free_from (attr_start false) (IMG +:+ B) (attr +:+ R +:+ ">") = true).
    { rewrite free_from_app. apply andb_true_iff. split.
      - apply (free_from_heads _ (fun c => negb (attr_head c)));
          [intros c u; apply attr_start_head|].
        pose proof (agree_length _ _ _ HIMG) as Hlen.
        destruct IMG as [|c1 [|c2 [|c3 [|c4 [|]]]]]; try discriminate Hlen.
        cbn [agree] in HIMG. repeat (apply andb_true_iff in HIMG as [? HIMG]).
        cbn [all_in]. by rewrite head_lt, head_i, head_m, head_g.
      - subst attr. change ("src" +:+ ?z) with (String "s" ("rc" +:+ z)).
        rewrite append_cons. apply free_from_boundary; [|done].
        intros u Hu. apply attr_start_boundary; [done | by left]. }
    by rewrite (free_from_suffix _ _ _ b t Hfree Hbt Hne') in E.
Qed.

(** The rewriter on a fragment whose first image tag is well formed: the
    text before the tag is copied, the tag is handed to [replace_img_src]
    with the reference as group 1, and the rest of the fragment is
    rewritten in turn. *)
Lemma rewrite_first_tag images pre (t : Tag) post :
  images ≠ ∅ →
  free_of img_start pre = true →
  well_formed t = true →
  _replace_image_references (pre +:+ tag_text t +:+ post) images
  = pre
    +:+ replace_img_src images
          {| group0 := tag_text t; group1 := t_ref t; rest := post |}
    +:+ _replace_image_references post images.
Proof.
  intros Himg Hpre Hwf. unfold well_formed in Hwf.
  repeat (apply andb_true_iff in Hwf as [Hwf ?]).
  repeat match goal with H : negb _ = true |- _ => apply negb_true_iff in H end.
  assert (Hne : t_ref t ≠ EmptyString) by (by destruct (t_ref t)).
  unfold _replace_image_references. rewrite bool_decide_eq_false_2 by done.
  unfold sub.
  assert (Hm : match_at Pat.img (tag_text t +:+ post)
               = Some {| group0 := tag_text t; group1 := t_ref t; rest := post |}).
  { apply (match_at_some _ _ _ _ (Py.chr (t_close t) +:+ t_rest t +:+ ">" +:+ post)).
    unfold tag_text. rewrite !append_assoc. by apply img_at_tag. }
  rewrite sub_from_copy; [|done|].
  - f_equal. rewrite (sub_from_match _ _ None (tag_text t) _
               {| group0 := tag_text t; group1 := t_ref t; rest := post |});
      [reflexivity | done | | exact Hm | reflexivity].
    unfold tag_text. destruct (t_name t); [done | discriminate].
  - intros b u Hbu Hu. apply match_at_none.
    destruct (match_here Pat.img (u +:+ tag_text t +:+ post) no_caps) as [r|] eqn:E;
      [|done].
    exfalso. apply img_needs_start in E.
    assert (Hlt : ∃ v, tag_text t +:+ post = String "<" v).
    { unfold tag_text. destruct (t_name t) as [|c n]; [done|].
      cbn [agree] in Hwf. apply andb_true_iff in Hwf as [Hc _].
      rewrite same_char_lt in Hc. apply Ascii.eqb_eq in Hc as ->.
      rewrite !append_cons. eauto. }
    destruct Hlt as [v Hv]. rewrite Hv in E.
    rewrite (free_from_suffix _ _ _ b u
               (free_from_boundary _ _ _ _
                  (fun u' Hu' => img_start_boundary u' v Hu') Hpre) Hbu Hu) in E.
    done.
Qed.

(** The tag with its reference attribute rewritten. *)
Lemma set_src_first (t : Tag) value :
  template ("src=" +:+ Py.chr Py.dquote +:+ value +:+ Py.chr Py.dquote)
  = Some ("src=" +:+ Py.chr Py.dquote +:+ value +:+ Py.chr Py.dquote) →
  well_formed t = true → first_src t = true →
  set_src value (tag_text t) = tag_with_src t value.
Proof.
  intros Ht Hwf Hfirst. unfold well_formed in Hwf.
  repeat (apply andb_true_iff in Hwf as [Hwf ?]).
  repeat match goal with H : negb _ = true |- _ => apply negb_true_iff in H end.
  assert (Hne : t_ref t ≠ EmptyString) by (by destruct (t_ref t)).
  unfold first_src in Hfirst. apply andb_true_iff in Hfirst as [Hattr HB].
  apply String.eqb_eq in Hattr. unfold tag_text, tag_with_src. rewrite Hattr.
  by apply set_src_tag.
Qed.

End ImageTag.

(** C4, as amended. With a non-empty image map: in a fragment whose first
    image tag is well formed ([<img], in any letter case, then an attribute
    [src] with white space allowed around the equals sign and a quote
    character on each side of the reference, with no further attribute
    named [src] in or after the reference) and carries its reference in the
    first attribute written [src] in lower case, a reference that is not a
    data reference and has no non-empty candidate among the keys of the map
    is replaced by the placeholder; the text before the tag is kept and the
    rest of the fragment is rewritten in turn. The reference may itself hold
    [src], as in [src/nope.gif]. The rewriter is a total function: nothing
    is raised. *)
Theorem C4_placeholder_for_unmatched_reference
    (images : gmap string string) (pre post : string) (t : Tag) :
  images ≠ ∅ →
  free_of img_start pre = true →
  well_formed t = true →
  first_src t = true →
  Py.startswith "data:" (t_ref t) = false →
  find_key images (possible_keys (t_ref t)) = None →
  _replace_image_references (pre +:+ tag_text t +:+ post) images
  = pre +:+ tag_with_src t "#" +:+ _replace_image_references post images.
Proof.
  intros Himg Hpre Hwf Hfirst Hdata Hkey.
  rewrite rewrite_first_tag by done. do 2 f_equal.
  unfold replace_img_src. cbn [Re.group0 Re.group1]. rewrite Hdata, Hkey.
  by apply set_src_first.
Qed.

(** An instance of C4: a figure whose file is not in the map, in a tag
    written [<IMG ... src = '...' alt=...>]. *)
Lemma C4_placeholder_witness :
  let t := {| t_name := "<IMG"; t_before := " class='fig' "; t_attr := "src";
              t_ws1 := " "; t_ws2 := " "; t_open := Py.squote;
              t_ref := "../Images/src/missing.png"; t_close := Py.squote;
              t_rest := " alt='src' data-x='1' /" |} in
  _replace_image_references ("<p>" +:+ tag_text t +:+ "</p>")
    {[ "cover.png" := "data:image/png;base64,AA==" ]}
  = "<p>" +:+ tag_with_src t "#"
    +:+ _replace_image_references "</p>"
          {[ "cover.png" := "data:image/png;base64,AA==" ]}.
Proof.
  cbv zeta.
  apply (C4_placeholder_for_unmatched_reference
           {[ "cover.png" := "data:image/png;base64,AA==" ]} "<p>" "</p>");
    try (vm_compute; reflexivity).
  apply (bool_decide_eq_false_1 _). vm_compute. reflexivity.
Defined.

(** C4 as stated fails when the map is empty: the reference [x.png] has no
    candidate in the map, and the tag keeps it. *)
Lemma C4_empty_map_keeps_reference :
  find_key ∅ (possible_keys "x.png") = None
  ∧ _replace_image_references ("<img src=" +:+ dq +:+ "x.png" +:+ dq +:+ ">") ∅
    = "<img src=" +:+ dq +:+ "x.png" +:+ dq +:+ ">"
  ∧ "<img src=" +:+ dq +:+ "x.png" +:+ dq +:+ ">"
    ≠ "<img src=" +:+ dq +:+ "#" +:+ dq +:+ ">".
Proof.
  split; [vm_compute; reflexivity|]. split; [vm_compute; reflexivity|].
  intros H. vm_compute in H. discriminate H.
Qed.

(** The attribute pattern of [replace_img_src] carries no [re.IGNORECASE]
    and rewrites the first [src] of the tag, while the image pattern ignores
    case and captures the last: an upper-case attribute keeps its
    reference, and a [data-src] before the [src] is rewritten in its
    place. *)
Example placeholder_misses_attribute :
  _replace_image_references ("<IMG SRC=" +:+ dq +:+ "x.png" +:+ dq +:+ ">")
    {[ "cover.png" := "data:image/png;base64,AA==" ]}
  = "<IMG SRC=" +:+ dq +:+ "x.png" +:+ dq +:+ ">"
  ∧ _replace_image_references
      ("<img data-src=" +:+ dq +:+ "a.png" +:+ dq +:+ " src=" +:+ dq +:+ "b.png" +:+ dq +:+ ">")
      {[ "cover.png" := "data:image/png;base64,AA==" ]}
    = "<img data-src=" +:+ dq +:+ "#" +:+ dq +:+ " src=" +:+ dq +:+ "b.png" +:+ dq +:+ ">".
Proof. split; vm_compute; reflexivity. Qed.

(** A reference found in the map is replaced by its data reference. *)
Example reference_resolved :
  _replace_image_references
    ("<p><img alt='c' src=" +:+ dq +:+ "../Images/cover.png" +:+ dq +:+ "/></p>")
    (extract_images_from_epub
       {| dc_title := []; dc_creator := [];
          get_items := [image "cover" "Images/cover.png" [Byte.x00]];
          spine := [] |})
  = "<p><img alt='c' src=" +:+ dq +:+ "data:image/png;base64,AA==" +:+ dq +:+ "/></p>".
Proof. vm_compute. reflexivity. Qed.

(** ** Candidate keys *)

Section Candidates.

Implicit Types (images : gmap string string) (keys seen : list string).

Lemma find_key_cons images key keys :
  find_key images (key :: keys)
  = if usable images key then Some key else find_key images keys.
Proof. reflexivity. Qed.

Lemma fromkeys_from_length seen keys :
  length (Py.fromkeys_from seen keys) ≤ length keys.
Proof.
  revert seen. induction keys as [|k keys IH]; intros seen; [done|].
  cbn [Py.fromkeys_from]. case_bool_decide; cbn [length].
  - specialize (IH seen). lia.
  - apply le_n_S, IH.
Qed.

(** Dropping repeated keys does not change the key the loop stops at. *)
Lemma find_key_fromkeys_from images seen keys :
  (∀ k, k ∈ seen → usable images k = false) →
  find_key images (Py.fromkeys_from seen keys) = find_key images keys.
Proof.
  revert seen. induction keys as [|k keys IH]; intros seen Hseen; [done|].
  cbn [Py.fromkeys_from]. rewrite find_key_cons. case_bool_decide as Hk.
  - rewrite (Hseen k Hk). by apply IH.
  - rewrite find_key_cons. destruct (usable images k) eqn:E; [done|].
    apply IH. intros k' [->|?]%elem_of_cons; [done | by apply Hseen].
Qed.

Lemma possible_keys_fromkeys src :
  possible_keys src = Py.fromkeys (path_variants src).
Proof.
  unfold possible_keys. cbv zeta.
  rewrite bool_decide_eq_true_2 by (unfold path_variants; right; left).
  apply take_ge. unfold Py.fromkeys.
  etrans; [apply fromkeys_from_length|].
  unfold path_variants. cbn [length]. lia.
Qed.

Lemma find_key_first images keys key :
  find_key images keys = Some key
  ↔ ∃ before after,
      keys = before ++ key :: after
      ∧ key ≠ EmptyString ∧ is_Some (images !! key)
      ∧ ∀ k, k ∈ before → k = EmptyString ∨ images !! k = None.
Proof.
  induction keys as [|k keys IH].
  - split; [done|]. intros (before & after & H & _). by destruct before.
  - rewrite find_key_cons. destruct (usable images k) eqn:E.
    + apply andb_true_iff in E as [E1%bool_decide_eq_true E2%bool_decide_eq_true].
      split.
      * intros [= <-]. exists [], keys. repeat split; try done.
        intros ? ?%elem_of_nil. done.
      * intros (before & after & H & Hne & Hin & Hb).
        destruct before as [|k' before]; [by injection H as -> _|].
        injection H as <- _. destruct (Hb k) as [->|Hn]; [by left | done |].
        rewrite Hn in E2. by destruct E2.
    + rewrite IH. split.
      * intros (before & after & -> & Hne & Hin & Hb).
        exists (k :: before), after. repeat split; try done.
        intros k' [Hk|?]%elem_of_cons; [subst k'|by apply Hb].
        apply andb_false_iff in E as [E%bool_decide_eq_false | E%bool_decide_eq_false].
        -- left. by destruct (decide (k = EmptyString)).
        -- right. destruct (images !! k); [|done]. exfalso. by apply E.
      * intros (before & after & H & Hne & Hin & Hb).
        destruct before as [|k' before].
        { injection H as <- _. exfalso.
          unfold usable in E. rewrite !bool_decide_eq_true_2 in E by done. done. }
        injection H as <- ->. exists before, after. repeat split; try done.
        intros; apply Hb; by right.
Qed.

(** [str.replace] on a text in which the old string occurs at the start or
    not at all. *)
Lemma replace_from_absent old new s :
  Py.contains old s = false → Py.replace_from old new 0 s = s.
Proof.
  induction s as [|c s IH]; [done|]. cbn [Py.contains Py.replace_from].
  intros [-> H]%orb_false_iff. by rewrite IH.
Qed.

Lemma replace_from_skip old new a t :
  Py.replace_from old new (String.length a) (a +:+ t) = Py.replace_from old new 0 t.
Proof. induction a as [|c a IH]; [done|]. rewrite append_cons. exact IH. Qed.

Lemma substring_all s : String.substring 0 (String.length s) s = s.
Proof. induction s as [|c s IH]; [done|]. simpl. by rewrite IH. Qed.

Lemma prefix_split p s :
  String.prefix p s = true →
  s = p +:+ String.substring (String.length p) (String.length s - String.length p) s.
Proof.
  revert s. induction p as [|c p IH]; intros s H.
  - rewrite append_empty_l. simpl. by rewrite Nat.sub_0_r, substring_all.
  - destruct s as [|x s]; [done|]. simpl in H.
    destruct (ascii_dec c x) as [->|]; [|done].
    rewrite append_cons. simpl. f_equal. by apply IH.
Qed.

Lemma replace_only_leading p s :
  p ≠ EmptyString → only_leading p s →
  Py.replace p EmptyString s = spec_strip_prefix p s.
Proof.
  unfold only_leading, spec_strip_prefix. intros Hp H.
  destruct p as [|c p]; [done|]. unfold Py.replace.
  destruct (String.prefix (String c p) s) eqn:E.
  - set (t := String.substring _ _ s) in *.
    rewrite (prefix_split _ _ E). fold t. rewrite append_cons.
    cbn [Py.replace_from].
    replace (String.prefix (String c p) (String c (p +:+ t))) with true.
    2:{ symmetry. rewrite <- append_cons. apply prefix_correct.
        apply substring_prefix. }
    rewrite append_empty_l. cbn [String.length].
    replace (S (String.length p) - 1) with (String.length p) by lia.
    rewrite replace_from_skip. by apply replace_from_absent.
  - by apply replace_from_absent.
Qed.

End Candidates.

(** C3, as amended. For a reference that is not a data reference the
    rewriter tries, in this order: the reference; its base name; the
    reference with every [../] removed; a variant from which [./] is
    removed; the reference with all leading slashes removed; three variants
    from which [images/], [Images/] and [IMAGES/] are removed. Where the
    string to remove occurs in the reference at its start or not at all, the
    variant is the reference without that leading string. The base name is
    always the second candidate, so it is never appended; removing repeated
    candidates and cutting at 10 leave the key the search stops at
    unchanged; the first candidate that is not empty and is a key of the map
    wins, and its data reference, with double quotes escaped, is written
    into the tag; otherwise the placeholder is. *)
Theorem C3_candidate_precedence (images : gmap string string) (m : Re.Match) :
  let src := Re.group1 m in
  path_variants src
  = [ src; basename src; Py.replace "../" "" src; Py.replace "./" "" src;
      Py.lstrip "/" src; Py.replace "images/" "" src;
      Py.replace "Images/" "" src; Py.replace "IMAGES/" "" src ]
  ∧ (∀ p, p ∈ ["./"; "images/"; "Images/"; "IMAGES/"] → only_leading p src →
       Py.replace p "" src = spec_strip_prefix p src)
  ∧ possible_keys src = Py.fromkeys (path_variants src)
  ∧ find_key images (possible_keys src) = find_key images (path_variants src)
  ∧ (∀ key,
       find_key images (path_variants src) = Some key
       ↔ ∃ before after,
           path_variants src = before ++ key :: after
           ∧ key ≠ EmptyString ∧ is_Some (images !! key)
           ∧ ∀ k, k ∈ before → k = EmptyString ∨ images !! k = None)
  ∧ (Py.startswith "data:" src = false →
     replace_img_src images m
     = match find_key images (path_variants src) with
       | Some key =>
           set_src (Py.replace (Py.chr Py.dquote) "&quot;"
                      (default EmptyString (images !! key)))
             (Re.group0 m)
       | None => set_src "#" (Re.group0 m)
       end).
Proof.
  cbv zeta.
  assert (H2 : find_key images (possible_keys (Re.group1 m))
               = find_key images (path_variants (Re.group1 m))).
  { rewrite possible_keys_fromkeys. apply find_key_fromkeys_from.
    intros k Hk. by apply elem_of_nil in Hk. }
  split; [reflexivity|].
  split.
  { intros p Hp Hl. apply replace_only_leading; [|done].
    intros ->. repeat (apply elem_of_cons in Hp as [Hp|Hp]; [done|]).
    by apply elem_of_nil in Hp. }
  split; [apply possible_keys_fromkeys|].
  split; [exact H2|].
  split; [intros key; apply find_key_first|].
  intros Hdata. unfold replace_img_src. cbv zeta. by rewrite Hdata, H2.
Qed.

(** An instance of C3: [../Images/cover.png] is found under its base
    name, the second candidate. *)
Lemma C3_candidate_precedence_witness :
  find_key {[ "cover.png" := "data:image/png;base64,AA==" ]}
    (path_variants "../Images/cover.png") = Some "cover.png"
  ∧ replace_img_src {[ "cover.png" := "data:image/png;base64,AA==" ]}
      {| Re.group0 := "<img src='../Images/cover.png'>";
         Re.group1 := "../Images/cover.png"; Re.rest := EmptyString |}
    = set_src "data:image/png;base64,AA==" "<img src='../Images/cover.png'>".
Proof.
  assert (Hk : find_key {[ "cover.png" := "data:image/png;base64,AA==" ]}
                 (path_variants "../Images/cover.png") = Some "cover.png")
    by (vm_compute; reflexivity).
  split; [exact Hk|].
  rewrite (proj2 (proj2 (proj2 (proj2 (proj2
             (C3_candidate_precedence {[ "cover.png" := "data:image/png;base64,AA==" ]}
                {| Re.group0 := "<img src='../Images/cover.png'>";
                   Re.group1 := "../Images/cover.png"; Re.rest := EmptyString |})))))
             eq_refl).
  cbn [Re.group0 Re.group1]. rewrite Hk. vm_compute. reflexivity.
Defined.

(** C3 as stated fails. The claim removes a single leading slash: for
    [//a.png] it has the candidate [/a.png], which the code, removing all
    leading slashes, does not try. The claim lets any candidate found in the
    map win: the code passes over the empty candidate that [a/] gives as
    base name. *)
Lemma C3_candidates_differ :
  (possible_keys "//a.png" = ["//a.png"; "a.png"]
   ∧ spec_possible_keys "//a.png" = ["//a.png"; "a.png"; "/a.png"]
   ∧ find_key {[ "/a.png" := "D" ]} (possible_keys "//a.png") = None
   ∧ spec_find_key {[ "/a.png" := "D" ]} (spec_possible_keys "//a.png") = Some "/a.png")
  ∧ (find_key {[ EmptyString := "D" ]} (possible_keys "a/") = None
     ∧ spec_find_key {[ EmptyString := "D" ]} (spec_possible_keys "a/") = Some EmptyString).
Proof. repeat split; vm_compute; reflexivity. Qed.

(** [str.replace] removes every occurrence, where the comments of
    [replace_img_src] speak of removing a prefix: [./] is removed inside
    [../], and [images/] inside a longer path. *)
Example replace_removes_inner_occurrences :
  possible_keys "../Images/cover.JPG"
  = ["../Images/cover.JPG"; "cover.JPG"; "Images/cover.JPG"; ".Images/cover.JPG";
     "../cover.JPG"]
  ∧ find_key {[ "x/a.png" := "D" ]} (possible_keys "x/images/a.png") = Some "x/a.png"
  ∧ spec_find_key {[ "x/a.png" := "D" ]} (spec_possible_keys "x/images/a.png") = None.
Proof. repeat split; vm_compute; reflexivity. Qed.

(** * Further properties *)

(** ** Splitting and joining *)

Section SplitJoin.

Implicit Types (s a b : string) (sep : ascii) (l : list string).

Lemma split_cons sep c s :
  Py.split sep (String c s)
  = if Ascii.eqb c sep then EmptyString :: Py.split sep s
    else match Py.split sep s with
         | h :: t => String c h :: t
         | [] => [Py.chr c]
         end.
Proof. reflexivity. Qed.

(** [(a + sep + b).split(sep) == a.split(sep) + b.split(sep)]. *)
Lemma split_app sep a b :
  Py.split sep (a +:+ String sep b) = Py.split sep a ++ Py.split sep b.
Proof.
  induction a as [|c a IH].
  - rewrite append_empty_l, split_cons, Ascii.eqb_refl. reflexivity.
  - rewrite append_cons, !split_cons, IH. destruct (Ascii.eqb c sep); [done|].
    pose proof (split_nonempty sep a). by destruct (Py.split sep a).
Qed.

Lemma neg1_app l1 l2 : l2 ≠ [] → Py.neg1 (l1 ++ l2) = Py.neg1 l2.
Proof.
  unfold Py.neg1. intros H. induction l1 as [|x l1 IH]; [done|].
  rewrite <- IH. simpl. destruct (l1 ++ l2) eqn:E; [|done].
  apply app_eq_nil in E as [_ ?]. done.
Qed.

Lemma split_absent sep s : Py.char_in sep s = false → Py.split sep s = [s].
Proof.
  induction s as [|c s IH]; [done|]. cbn [Py.char_in]. rewrite split_cons.
  rewrite (Ascii.eqb_sym sep c). intros [-> H]%orb_false_iff.
  by rewrite (IH H).
Qed.

(** [sep.join(s.split(sep)) == s]. *)
Lemma join_split sep s : sep_join sep (Py.split sep s) = s.
Proof.
  induction s as [|c s IH]; [done|]. rewrite split_cons.
  pose proof (split_nonempty sep s) as Hne.
  destruct (Ascii.eqb c sep) eqn:E.
  - apply Ascii.eqb_eq in E as ->.
    destruct (Py.split sep s) as [|h t]; [done|].
    change (sep_join sep (EmptyString :: h :: t))
      with (EmptyString +:+ String sep (sep_join sep (h :: t))).
    by rewrite IH.
  - destruct (Py.split sep s) as [|h t]; [done|]. destruct t as [|h' t].
    + simpl in *. by rewrite IH.
    + change (sep_join sep (String c h :: h' :: t))
        with (String c h +:+ String sep (sep_join sep (h' :: t))).
      change (sep_join sep (h :: h' :: t))
        with (h +:+ String sep (sep_join sep (h' :: t))) in IH.
      by rewrite append_cons, IH.
Qed.

Lemma split_pieces sep s :
  Forall (fun x => Py.char_in sep x = false) (Py.split sep s).
Proof.
  induction s as [|c s IH]; [by repeat constructor|]. rewrite split_cons.
  destruct (Ascii.eqb c sep) eqn:E; [by constructor|].
  destruct IH as [|h t Hh Ht]; [by repeat constructor; cbn; rewrite Ascii.eqb_sym, E|].
  constructor; [|done]. cbn [Py.char_in]. by rewrite Ascii.eqb_sym, E, Hh.
Qed.

Lemma sep_join_snoc sep l x :
  l ≠ [] → sep_join sep (l ++ [x]) = sep_join sep l +:+ String sep x.
Proof.
  induction l as [|y l IH]; [done|]. intros _. destruct l as [|z l]; [done|].
  change (sep_join sep ((y :: z :: l) ++ [x]))
    with (y +:+ String sep (sep_join sep ((z :: l) ++ [x]))).
  rewrite IH by done.
  change (sep_join sep (y :: z :: l)) with (y +:+ String sep (sep_join sep (z :: l))).
  by rewrite append_assoc.
Qed.

Lemma neg1_snoc l x : Py.neg1 (l ++ [x]) = x.
Proof. by rewrite neg1_app. Qed.

(** The text after the last separator: it holds no separator, and what
    stands before it is empty or ends with the separator. *)
Lemma neg1_split_spec sep s :
  Py.char_in sep (Py.neg1 (Py.split sep s)) = false
  ∧ ∃ dir, s = dir +:+ Py.neg1 (Py.split sep s)
           ∧ (dir = EmptyString ∨ ∃ d, dir = d +:+ Py.chr sep).
Proof.
  pose proof (split_pieces sep s) as Hp. pose proof (join_split sep s) as Hj.
  pose proof (split_nonempty sep s) as Hne.
  destruct (exists_last Hne) as (init & b & E). rewrite E in *.
  rewrite neg1_snoc. split.
  - apply Forall_app in Hp as [_ Hb]. by inversion Hb.
  - destruct init as [|y init].
    + exists EmptyString. split; [by rewrite <- Hj | by left].
    + rewrite sep_join_snoc in Hj by done.
      exists (sep_join sep (y :: init) +:+ Py.chr sep). split.
      * rewrite <- Hj at 1. by rewrite append_assoc.
      * right. eauto.
Qed.

End SplitJoin.

(** X1. The base name under which an image is registered, and which is tried
    as a candidate key, holds no slash, and the path is a directory part,
    empty or ending with a slash, followed by the base name. *)
Theorem X1_basename_is_last_segment (path : string) :
  Py.char_in "/" (basename path) = false
  ∧ ∃ dir, path = dir +:+ basename path
           ∧ (dir = EmptyString ∨ ∃ d, dir = d +:+ "/").
Proof. apply neg1_split_spec. Qed.

(** ** MimeResolver *)

Section MimeMore.

Lemma mime_label_cases filename :
  _get_image_mime_type filename ∈ mime_labels.
Proof.
  unfold _get_image_mime_type. cbv zeta.
  destruct (mime_types !! _) as [v|] eqn:E; simpl; [|by left].
  unfold mime_types in E. apply elem_of_list_to_map_2 in E.
  unfold mime_labels.
  repeat (apply elem_of_cons in E as [[= _ <-]|E];
          [by repeat (first [left; reflexivity | right])|]).
  by apply elem_of_nil in E.
Qed.

End MimeMore.

(** X2. Whatever the file name, the resolver returns one of the six labels
    of its table. *)
Theorem X2_mime_type_is_a_table_label (filename : string) :
  _get_image_mime_type filename ∈ mime_labels.
Proof.
  pose proof (mime_label_cases filename) as H. exact H.
Qed.

(** X3. For a file name that ends with a dot and an extension, itself
    without dot, the label is the table entry of the lowered extension, or
    the default: the rest of the name and the letter case of the extension
    do not matter. *)
Theorem X3_mime_type_by_extension (name ext : string) :
  Py.char_in "." ext = false →
  _get_image_mime_type (name +:+ "." +:+ ext)
  = default "image/jpeg" (mime_types !! Py.lower ext).
Proof.
  intros H. rewrite mime_extension_lowered.
  change ("." +:+ ext) with (String "." ext).
  rewrite split_app, neg1_app by apply split_nonempty.
  by rewrite split_absent.
Qed.

(** An instance of X3. *)
Lemma X3_mime_type_by_extension_witness :
  _get_image_mime_type ("OEBPS/Images/fig.1" +:+ "." +:+ "JPeG") = "image/jpeg"
  ∧ _get_image_mime_type ("a" +:+ "." +:+ "Svg") = "image/svg+xml".
Proof.
  split.
  - exact (X3_mime_type_by_extension "OEBPS/Images/fig.1" "JPeG" eq_refl).
  - exact (X3_mime_type_by_extension "a" "Svg" eq_refl).
Defined.

(** ** ImageCollector *)

Section CollectorMore.

Implicit Types (st : Collected) (item : Item) (items : list Item).

Lemma collect_image_acceptable item st :
  acceptable item = true →
  processed_count (collect_image item st) = S (processed_count st)
  ∧ is_Some (images (collect_image item st) !! get_name item)
  ∧ is_Some (images (collect_image item st) !! basename (get_name item)).
Proof.
  unfold acceptable, collect_image. intros [_ H]%andb_true_iff.
  destruct (get_content item) as [content|]; [|done].
  apply negb_true_iff in H. rewrite H. simpl. split; [lia|].
  case_bool_decide as Hb.
  - split; [|by rewrite lookup_insert_eq].
    rewrite lookup_insert_ne by done. by rewrite lookup_insert_eq.
  - rewrite Hb. by rewrite lookup_insert_eq.
Qed.

Lemma collect_image_rejected item st :
  is_image item = true → acceptable item = false → collect_image item st = st.
Proof.
  unfold acceptable, collect_image. intros -> H. simpl in H.
  destruct (get_content item) as [content|]; [|done].
  apply negb_false_iff in H. by rewrite H.
Qed.

Lemma acceptable_image item : acceptable item = true → is_image item = true.
Proof. unfold acceptable. by intros [? _]%andb_true_iff. Qed.

(** The counter at the end of the loop. *)
Lemma collect_images_counts items st :
  processed_count st ≤ max_images →
  processed_count (collect_images items st)
  = Nat.min max_images
      (processed_count st + length (filter (fun item => acceptable item = true) items)).
Proof.
  revert st. induction items as [|item items IH]; intros st Hst.
  - cbn [collect_images]. rewrite filter_nil. cbn [length]. lia.
  - cbn [collect_images]. rewrite filter_cons.
    destruct (is_image item) eqn:Hi.
    + destruct (max_images <=? processed_count st) eqn:E.
      * apply Nat.leb_le in E. destruct (decide _); cbn [length]; lia.
      * apply Nat.leb_gt in E. destruct (decide (acceptable item = true)) as [Ha|Ha].
        -- destruct (collect_image_acceptable item st Ha) as [Hc _].
           rewrite IH by lia. rewrite Hc. cbn [length]. f_equal. lia.
        -- apply not_true_is_false in Ha.
           rewrite collect_image_rejected by done. by apply IH.
    + rewrite decide_False; [by apply IH|].
      intros Ha%acceptable_image. congruence.
Qed.

(** What one accepted image does to a key. *)
Lemma collect_image_lookup item st key :
  acceptable item = true →
  images (collect_image item st) !! key
  = if registers item key then Some (item_url item) else images st !! key.
Proof.
  unfold acceptable, collect_image, registers, item_url.
  intros [_ H]%andb_true_iff.
  destruct (get_content item) as [content|]; [|done].
  apply negb_true_iff in H. rewrite H. cbn [images default].
  destruct (String.eqb key (get_name item)) eqn:E1.
  - apply String.eqb_eq in E1 as ->. cbn [orb]. case_bool_decide.
    + rewrite lookup_insert_ne by done. by rewrite lookup_insert_eq.
    + by rewrite lookup_insert_eq.
  - apply String.eqb_neq in E1. cbn [orb].
    destruct (String.eqb key (basename (get_name item))) eqn:E2.
    + apply String.eqb_eq in E2 as ->. rewrite bool_decide_eq_true_2 by done.
      by rewrite lookup_insert_eq.
    + apply String.eqb_neq in E2. case_bool_decide.
      * by rewrite !lookup_insert_ne.
      * by rewrite lookup_insert_ne.
Qed.

Lemma last_cons_match {A} (x : A) (l : list A) :
  last (x :: l) = match last l with Some y => Some y | None => Some x end.
Proof.
  destruct l as [|y l]; [done|].
  change (last (x :: y :: l)) with (last (y :: l)).
  destruct (last (y :: l)) eqn:E; [done|]. by apply last_None in E.
Qed.

(** The map at the end of the loop, key by key. *)
Lemma collect_images_lookup items st key :
  processed_count st ≤ max_images →
  images (collect_images items st) !! key
  = match last (filter (fun item => registers item key = true)
                  (take (max_images - processed_count st)
                     (filter (fun item => acceptable item = true) items))) with
    | Some item => Some (item_url item)
    | None => images st !! key
    end.
Proof.
  revert st. induction items as [|x items IH]; intros st Hst.
  - cbn [collect_images]. by rewrite filter_nil, take_nil.
  - cbn [collect_images]. rewrite (filter_cons _ x).
    destruct (is_image x) eqn:Hi.
    + destruct (max_images <=? processed_count st) eqn:E.
      * apply Nat.leb_le in E.
        replace (max_images - processed_count st) with 0 by lia.
        by rewrite take_0.
      * apply Nat.leb_gt in E. destruct (decide (acceptable x = true)) as [Ha|Ha].
        -- destruct (collect_image_acceptable x st Ha) as [Hc _].
           rewrite IH by lia. rewrite Hc.
           replace (max_images - processed_count st)
             with (S (max_images - S (processed_count st))) by lia.
           cbn [take]. rewrite (filter_cons _ x), collect_image_lookup by done.
           destruct (decide (registers x key = true)) as [Hr|Hr].
           ++ rewrite Hr, last_cons_match. by destruct (last _).
           ++ apply not_true_is_false in Hr. by rewrite Hr.
        -- apply not_true_is_false in Ha.
           rewrite collect_image_rejected by done. by apply IH.
    + rewrite decide_False; [by apply IH|].
      intros Ha%acceptable_image. congruence.
Qed.

End CollectorMore.

(** X4. The number of images the collector accepts is the smaller of 500
    and the number of image items of the package whose content can be read
    and is of at most 5 MiB. *)
Theorem X4_accepted_count (book : Book) :
  processed_count (collect_book book)
  = Nat.min 500 (length (filter (fun item => acceptable item = true) (get_items book))).
Proof.
  unfold collect_book. rewrite collect_images_counts; [done|].
  simpl. unfold max_images. lia.
Qed.

(** X5. Under a key the map holds the data reference of the last image the
    collector registered whose name, or the last segment of whose name, is
    the key, and nothing when there is none. The images registered are the
    first 500 whose content can be read and is of at most 5 MiB. A later
    image thus takes over the last segment it shares with an earlier one. *)
Theorem X5_map_holds_last_registration (book : Book) (key : string) :
  extract_images_from_epub book !! key
  = item_url <$> last (filter (fun item => registers item key = true) (accepted book)).
Proof.
  unfold extract_images_from_epub, collect_book, accepted.
  rewrite collect_images_lookup by (cbn; unfold max_images; lia).
  cbn [processed_count images]. rewrite Nat.sub_0_r, lookup_empty.
  by destruct (last _).
Qed.

(** Two images that share their last segment: the key holds the second. *)
Example last_segment_taken_over :
  extract_images_from_epub
    {| dc_title := []; dc_creator := [];
       get_items := [ image "a" "a/x.png" [Byte.x00]; image "b" "b/x.png" [Byte.x01] ];
       spine := [] |} !! "x.png"
  = Some (data_url "b/x.png" [Byte.x01]).
Proof. vm_compute. reflexivity. Qed.

(** *** The data references *)

Section DataUrl.

Implicit Types (s a b : string) (c : ascii).

Lemma char_in_app c a b :
  Py.char_in c (a +:+ b) = Py.char_in c a || Py.char_in c b.
Proof.
  induction a as [|x a IH]; [done|]. rewrite append_cons. cbn [Py.char_in].
  by rewrite IH, orb_assoc.
Qed.

Lemma prefix_append a b : String.prefix a (a +:+ b) = true.
Proof.
  induction a as [|x a IH]; [by destruct b|].
  rewrite append_cons. cbn [String.prefix].
  by destruct (ascii_dec x x).
Qed.

Lemma get_default_in s i d :
  Py.char_in (default d (String.get i s)) (s +:+ Py.chr d) = true.
Proof.
  revert i. induction s as [|x s IH]; intros i.
  - destruct i; simpl; by rewrite Ascii.eqb_refl.
  - rewrite append_cons. cbn [Py.char_in]. destruct i as [|i]; simpl.
    + by rewrite Ascii.eqb_refl.
    + by rewrite IH, orb_true_r.
Qed.

Lemma digit_b64 n : b64_char (Base64.digit n) = true.
Proof. apply get_default_in. Qed.

Lemma b64encode_chars_upto n (b : list byte) :
  length b ≤ n → all_in b64_char (Base64.b64encode b) = true.
Proof.
  revert b. induction n as [n IH] using lt_wf_ind; intros b Hb.
  destruct b as [|x [|y [|z rest]]]; [done | | |].
  - cbn [Base64.b64encode Base64.of_chars fold_right all_in].
    by rewrite !digit_b64.
  - cbn [Base64.b64encode Base64.of_chars fold_right all_in].
    by rewrite !digit_b64.
  - cbn [Base64.b64encode Base64.of_chars fold_right].
    rewrite !append_cons, append_empty_l. cbn [all_in].
    rewrite !digit_b64. cbn [andb].
    cbn [length] in Hb. apply (IH (length rest)); lia.
Qed.

Lemma b64encode_chars (b : list byte) :
  all_in b64_char (Base64.b64encode b) = true.
Proof. by apply (b64encode_chars_upto (length b)). Qed.

(** A character outside a set is outside every text written in the set. *)
Lemma char_in_outside c set s :
  Py.char_in c set = false →
  all_in (fun x => Py.char_in x set) s = true → Py.char_in c s = false.
Proof.
  intros Hc. induction s as [|x s IH]; [done|].
  rewrite all_in_cons. intros [Hx Hs]%andb_true_iff. cbn [Py.char_in].
  rewrite (IH Hs), orb_false_r. destruct (Ascii.eqb c x) eqn:E; [|done].
  apply Ascii.eqb_eq in E as ->. congruence.
Qed.

Lemma mime_label_plain filename :
  Py.char_in Py.dquote (_get_image_mime_type filename) = false
  ∧ Py.char_in backslash (_get_image_mime_type filename) = false.
Proof.
  pose proof (mime_label_cases filename) as H. unfold mime_labels in H.
  repeat (apply elem_of_cons in H as [->|H]; [by split|]).
  by apply elem_of_nil in H.
Qed.

Lemma data_url_plain filename content :
  Py.startswith "data:" (data_url filename content) = true
  ∧ Py.char_in Py.dquote (data_url filename content) = false
  ∧ Py.char_in backslash (data_url filename content) = false.
Proof.
  destruct (mime_label_plain filename) as [Hq Hb].
  pose proof (b64encode_chars content) as H64.
  unfold data_url. split.
  { apply prefix_append. }
  rewrite !char_in_app, Hq, Hb.
  rewrite (char_in_outside Py.dquote (Base64.alphabet +:+ "=") _ eq_refl H64).
  rewrite (char_in_outside backslash (Base64.alphabet +:+ "=") _ eq_refl H64).
  by split.
Qed.

Lemma contains_chr c s : Py.contains (Py.chr c) s = Py.char_in c s.
Proof.
  induction s as [|x s IH]; [done|]. cbn [Py.contains Py.char_in Py.chr String.prefix].
  rewrite IH. destruct (ascii_dec c x) as [->|Hne].
  - rewrite Ascii.eqb_refl. by destruct s.
  - apply Ascii.eqb_neq in Hne. by rewrite Hne.
Qed.

(** Escaping the double quotes of a text without double quote. *)
Lemma escape_plain s :
  Py.char_in Py.dquote s = false →
  Py.replace (Py.chr Py.dquote) "&quot;" s = s.
Proof.
  intros H. unfold Py.replace, Py.chr. apply replace_from_absent.
  by rewrite (contains_chr Py.dquote).
Qed.

Lemma template_plain s :
  Py.char_in backslash s = false →
  template ("src=" +:+ Py.chr Py.dquote +:+ s +:+ Py.chr Py.dquote)
  = Some ("src=" +:+ Py.chr Py.dquote +:+ s +:+ Py.chr Py.dquote).
Proof.
  intros H. unfold template.
  change (ascii_of_nat 92) with backslash.
  by rewrite !char_in_app, H.
Qed.

(** Where a value of the collector's map comes from. *)
Lemma collected_value book key url :
  extract_images_from_epub book !! key = Some url →
  ∃ item content,
    item ∈ get_items book ∧ is_image item = true
    ∧ get_content item = Some content
    ∧ (key = get_name item ∨ key = basename (get_name item))
    ∧ url = data_url (get_name item) content.
Proof.
  intros H. unfold extract_images_from_epub, collect_book in H.
  apply collect_images_origin in H as [H | (item & Hin & Himg & (content & Hc & _ & ->) & Hk)].
  { simpl in H. by rewrite lookup_empty in H. }
  by exists item, content.
Qed.

Lemma replace_from_char c old new k s :
  Py.char_in c s = false → Py.char_in c new = false →
  Py.char_in c (Py.replace_from old new k s) = false.
Proof.
  intros Hs Hn. revert k. induction s as [|x s IH]; intros k; [done|].
  cbn [Py.char_in] in Hs. apply orb_false_iff in Hs as [Hx Hs].
  cbn [Py.replace_from]. destruct k as [|k]; [|by apply IH].
  destruct (String.prefix old (String x s)).
  - by rewrite char_in_app, Hn, IH.
  - cbn [Py.char_in]. by rewrite Hx, IH.
Qed.

End DataUrl.

(** X6. Every value of the map the collector builds is a data reference: it
    starts with [data:] and holds neither a double quote nor a backslash.
    The rewriter therefore writes such a value into a tag as it is: the
    escaping of double quotes leaves it unchanged and the replacement text
    built from it holds no escape. *)
Theorem X6_map_values_are_data_references (book : Book) (key url : string) :
  extract_images_from_epub book !! key = Some url →
  Py.startswith "data:" url = true
  ∧ Py.char_in Py.dquote url = false
  ∧ Py.char_in backslash url = false
  ∧ Py.replace (Py.chr Py.dquote) "&quot;" url = url
  ∧ template ("src=" +:+ Py.chr Py.dquote +:+ url +:+ Py.chr Py.dquote)
    = Some ("src=" +:+ Py.chr Py.dquote +:+ url +:+ Py.chr Py.dquote).
Proof.
  intros H. unfold extract_images_from_epub, collect_book in H.
  apply collect_images_origin in H as [H | (item & _ & _ & (content & _ & _ & ->) & _)].
  { simpl in H. by rewrite lookup_empty in H. }
  destruct (data_url_plain (get_name item) content) as (H1 & H2 & H3).
  repeat split; try done.
  - by apply escape_plain.
  - by apply template_plain.
Qed.

(** An instance of X6. *)
Lemma X6_map_values_witness :
  Py.startswith "data:" "data:image/png;base64,AA==" = true
  ∧ Py.char_in Py.dquote "data:image/png;base64,AA==" = false.
Proof.
  assert (H : extract_images_from_epub (many_images 2) !! "ii.png"
              = Some "data:image/png;base64,AA==") by (vm_compute; reflexivity).
  split.
  - exact (proj1 (X6_map_values_are_data_references (many_images 2) "ii.png"
                    "data:image/png;base64,AA==" H)).
  - exact (proj1 (proj2 (X6_map_values_are_data_references (many_images 2) "ii.png"
                           "data:image/png;base64,AA==" H))).
Defined.

(** *** The rewriter on whole fragments *)

Section RewriterMore.

Import Re.

Lemma match_at_lit_ci_none w p s :
  Py.lower w = w → String.prefix w (Py.lower s) = false →
  match_at (lit true w ++ p) s = None.
Proof.
  intros Hw Hs. apply match_at_none.
  destruct (match_here (lit true w ++ p) s no_caps) as [r|] eqn:E; [|done].
  apply mh_lit_ci_prefix in E; [congruence | done].
Qed.

Lemma match_at_lit_cs_none w p s :
  String.prefix w s = false → match_at (lit false w ++ p) s = None.
Proof.
  intros Hs. apply match_at_none.
  destruct (match_here (lit false w ++ p) s no_caps) as [r|] eqn:E; [|done].
  apply mh_lit_cs_prefix in E. congruence.
Qed.

(** A pattern that starts with a literal finds nothing to replace in a text
    without the literal. *)
Lemma sub_from_absent_ci w p repl lim s :
  Py.lower w = w → Py.contains w (Py.lower s) = false →
  sub_from (lit true w ++ p) repl lim 0 s = s.
Proof.
  intros Hw. induction s as [|c s IH]; [done|]. intros H.
  change (Py.lower (String c s)) with (String (Py.lower_char c) (Py.lower s)) in H.
  cbn [Py.contains] in H. apply orb_false_iff in H as [Hp H].
  rewrite sub_from_cons. destruct lim as [[|n]|]; [done| |].
  - rewrite match_at_lit_ci_none by done. by rewrite IH.
  - rewrite match_at_lit_ci_none by done. by rewrite IH.
Qed.

Lemma sub_from_absent_cs w p repl lim s :
  Py.contains w s = false → sub_from (lit false w ++ p) repl lim 0 s = s.
Proof.
  induction s as [|c s IH]; [done|]. intros H.
  cbn [Py.contains] in H. apply orb_false_iff in H as [Hp H].
  rewrite sub_from_cons. destruct lim as [[|n]|]; [done| |].
  - rewrite match_at_lit_cs_none by done. by rewrite IH.
  - rewrite match_at_lit_cs_none by done. by rewrite IH.
Qed.

Lemma replace_nothing content : _replace_image_references content ∅ = content.
Proof. unfold _replace_image_references. by rewrite bool_decide_eq_true_2. Qed.

(** A text in which the pattern matches nowhere is copied. *)
Lemma sub_from_nowhere p repl lim s :
  (∀ b t, s = b +:+ t → t ≠ EmptyString → match_at p t = None) →
  sub_from p repl lim 0 s = s.
Proof.
  induction s as [|c s IH]; intros H; [done|].
  rewrite sub_from_cons. destruct lim as [[|n]|]; [done| |].
  - rewrite (H EmptyString (String c s)) by done. rewrite IH; [done|].
    intros b t ->. apply (H (String c b)). reflexivity.
  - rewrite (H EmptyString (String c s)) by done. rewrite IH; [done|].
    intros b t ->. apply (H (String c b)). reflexivity.
Qed.

End RewriterMore.

(** X7. A fragment in which no image tag starts, that is no [<img] in any
    letter case, U+0130 and U+0131 counted as an [i], comes out of the
    rewriter unchanged, whatever the map holds. *)
Theorem X7_fragment_without_image_tag (content : string) (images : gmap string string) :
  free_of img_start content = true →
  _replace_image_references content images = content.
Proof.
  intros H. unfold _replace_image_references. case_bool_decide; [done|].
  unfold Re.sub. apply sub_from_nowhere. intros b t Hbt Ht.
  apply match_at_none.
  destruct (Re.match_here Pat.img t Re.no_caps) as [r|] eqn:E; [|done].
  apply img_needs_start in E.
  pose proof (free_from_suffix _ _ _ b t H Hbt Ht) as Hfree.
  rewrite append_empty_r in Hfree. congruence.
Qed.

(** An instance of X7: markup with an [<i>] element and no image. *)
Lemma X7_fragment_without_image_tag_witness :
  _replace_image_references "<p>no <i>picture</i></p>"
    (extract_images_from_epub (many_images 2))
  = "<p>no <i>picture</i></p>".
Proof. apply X7_fragment_without_image_tag. vm_compute. reflexivity. Defined.

(** X8. A well-formed image tag whose reference already starts with [data:]
    is copied as it is: the text before the first image tag, the tag
    itself, then the rewriting of the text after it. The attribute name may
    be in any letter case, and the reference may hold [src]; what the tag
    must not hold, in or after the reference, is the start of a further
    attribute named [src]. *)
Theorem X8_data_reference_kept
    (images : gmap string string) (pre post : string) (t : Tag) :
  free_of img_start pre = true →
  well_formed t = true →
  Py.startswith "data:" (t_ref t) = true →
  _replace_image_references (pre +:+ tag_text t +:+ post) images
  = pre +:+ tag_text t +:+ _replace_image_references post images.
Proof.
  intros Hpre Hwf Hdata.
  destruct (decide (images = ∅)) as [->|Himg].
  { rewrite !replace_nothing. done. }
  rewrite rewrite_first_tag by done. do 2 f_equal.
  unfold replace_img_src. cbn [Re.group0 Re.group1]. by rewrite Hdata.
Qed.

(** An instance of X8: a payload that holds [src], in a tag with further
    attributes. *)
Lemma X8_data_reference_kept_witness :
  let t := {| t_name := "<img"; t_before := " "; t_attr := "SRC";
              t_ws1 := ""; t_ws2 := ""; t_open := Py.dquote;
              t_ref := "data:image/png;base64,c3JjsrcAAA=="; t_close := Py.dquote;
              t_rest := " alt='x' /" |} in
  _replace_image_references ("<p>" +:+ tag_text t +:+ "</p>")
    (extract_images_from_epub (many_images 2))
  = "<p>" +:+ tag_text t
    +:+ _replace_image_references "</p>" (extract_images_from_epub (many_images 2)).
Proof.
  cbv zeta. apply X8_data_reference_kept; vm_compute; reflexivity.
Defined.

(** A payload that ends in [src=]: with an attribute after it, the image
    pattern takes the end of the payload for an attribute, and the data
    reference is lost. This is the tag that [well_formed] excludes. *)
Example payload_taken_for_attribute :
  _replace_image_references
    ("<img src=" +:+ dq +:+ "data:image/png;base64,AAAAsrc=" +:+ dq
     +:+ " alt=" +:+ dq +:+ "x" +:+ dq +:+ ">")
    {[ "cover.png" := "data:image/png;base64,AA==" ]}
  = "<img src=" +:+ dq +:+ "#" +:+ dq +:+ " alt=" +:+ dq +:+ "x" +:+ dq +:+ ">".
Proof. vm_compute. reflexivity. Qed.

(** X9. A well-formed image tag whose reference is in the first attribute
    written [src] and resolves to a key of the map gets, in place of that
    attribute, [src=] and the value under the key between double quotes,
    the double quotes of the value written [&quot;]; the rest of the tag and
    the text before it are as they were, and the text after it is rewritten
    in turn. The value holds no backslash. *)
Theorem X9_resolved_reference_rewritten
    (images : gmap string string) (pre post key url : string) (t : Tag) :
  free_of img_start pre = true →
  well_formed t = true →
  first_src t = true →
  Py.startswith "data:" (t_ref t) = false →
  find_key images (possible_keys (t_ref t)) = Some key →
  images !! key = Some url →
  Py.char_in backslash url = false →
  _replace_image_references (pre +:+ tag_text t +:+ post) images
  = pre
    +:+ tag_with_src t (Py.replace (Py.chr Py.dquote) "&quot;" url)
    +:+ _replace_image_references post images.
Proof.
  intros Hpre Hwf Hfirst Hdata Hkey Hurl Hback.
  assert (Himg : images ≠ ∅).
  { intros ->. by rewrite lookup_empty in Hurl. }
  rewrite rewrite_first_tag by done. do 2 f_equal.
  unfold replace_img_src. cbn [Re.group0 Re.group1]. rewrite Hdata, Hkey, Hurl.
  cbn [default]. apply set_src_first; try done.
  apply template_plain. unfold Py.replace, Py.chr.
  by apply replace_from_char.
Qed.

(** An instance of X9: the tag has a [srcset] after its reference, and the
    value holds a double quote, which is escaped. *)
Lemma X9_resolved_reference_rewritten_witness :
  let t := {| t_name := "<Img"; t_before := " class='c' "; t_attr := "src";
              t_ws1 := " "; t_ws2 := ""; t_open := Py.squote;
              t_ref := "../a.png"; t_close := Py.squote;
              t_rest := " srcset='a.png 2x' /" |} in
  let images : gmap string string := {[ "a.png" := "u" +:+ Py.chr Py.dquote +:+ "v" ]} in
  _replace_image_references ("<p>" +:+ tag_text t +:+ "</p>") images
  = "<p>"
    +:+ tag_with_src t
          (Py.replace (Py.chr Py.dquote) "&quot;" ("u" +:+ Py.chr Py.dquote +:+ "v"))
    +:+ _replace_image_references "</p>" images.
Proof.
  cbv zeta.
  apply (X9_resolved_reference_rewritten _ _ _ "a.png");
    vm_compute; reflexivity.
Defined.

(** X10. Collector and rewriter together: when the reference of a
    well-formed tag, in the first attribute written [src], resolves to a key
    of the map built from a package, the tag comes out with the data
    reference of an image of the package whose name, or the last segment of
    whose name, is that key; the reference is written as it was built,
    nothing in it is escaped. *)
Theorem X10_collected_image_embedded
    (book : Book) (pre post key : string) (t : Tag) :
  free_of img_start pre = true →
  well_formed t = true →
  first_src t = true →
  Py.startswith "data:" (t_ref t) = false →
  find_key (extract_images_from_epub book) (possible_keys (t_ref t)) = Some key →
  ∃ item content,
    item ∈ get_items book ∧ is_image item = true
    ∧ get_content item = Some content
    ∧ (key = get_name item ∨ key = basename (get_name item))
    ∧ _replace_image_references (pre +:+ tag_text t +:+ post)
        (extract_images_from_epub book)
      = pre
        +:+ tag_with_src t (data_url (get_name item) content)
        +:+ _replace_image_references post (extract_images_from_epub book).
Proof.
  intros Hpre Hwf Hfirst Hdata Hkey.
  pose proof Hkey as Hfound. apply find_key_first in Hfound
    as (_ & _ & _ & _ & [url Hurl] & _).
  destruct (collected_value _ _ _ Hurl) as (item & content & Hin & Himg & Hc & Hk & ->).
  exists item, content. repeat (split; [done|]).
  destruct (data_url_plain (get_name item) content) as (_ & Hq' & Hb).
  assert (Hne' : extract_images_from_epub book ≠ ∅).
  { intros E. rewrite E in Hurl. by rewrite lookup_empty in Hurl. }
  rewrite rewrite_first_tag by done. do 2 f_equal.
  unfold replace_img_src. cbn [Re.group0 Re.group1]. rewrite Hdata, Hkey, Hurl.
  cbn [default]. rewrite escape_plain by done.
  apply set_src_first; try done. by apply template_plain.
Qed.

(** An instance of X10. *)
Lemma X10_collected_image_embedded_witness :
  let t := {| t_name := "<IMG"; t_before := " "; t_attr := "src";
              t_ws1 := ""; t_ws2 := " "; t_open := Py.squote;
              t_ref := "../ii.png"; t_close := Py.squote;
              t_rest := " alt='src' /" |} in
  ∃ item content,
    item ∈ get_items (many_images 2) ∧ is_image item = true
    ∧ get_content item = Some content
    ∧ ("ii.png" = get_name item ∨ "ii.png" = basename (get_name item))
    ∧ _replace_image_references ("<p>" +:+ tag_text t +:+ "</p>")
        (extract_images_from_epub (many_images 2))
      = "<p>"
        +:+ tag_with_src t (data_url (get_name item) content)
        +:+ _replace_image_references "</p>" (extract_images_from_epub (many_images 2)).
Proof.
  cbv zeta. apply X10_collected_image_embedded; vm_compute; reflexivity.
Defined.

Section CandidatesMore.

Lemma elem_of_fromkeys_from seen l k :
  k ∈ Py.fromkeys_from seen l ↔ k ∈ l ∧ k ∉ seen.
Proof.
  revert seen. induction l as [|x l IH]; intros seen; cbn [Py.fromkeys_from].
  - split; [by intros ?%elem_of_nil | by intros [?%elem_of_nil _]].
  - case_bool_decide as Hx.
    + rewrite IH, elem_of_cons. split; [tauto|].
      intros [[->|?] ?]; [done | tauto].
    + rewrite !elem_of_cons, IH, elem_of_cons. split.
      * intros [->|[? ?]]; [tauto|]. split; [tauto|]. tauto.
      * intros [[->|?] ?]; [tauto|].
        destruct (decide (k = x)) as [->|]; [tauto|]. right. split; [done|].
        intros [?|?]; done.
Qed.

Lemma NoDup_fromkeys_from seen l : NoDup (Py.fromkeys_from seen l).
Proof.
  revert seen. induction l as [|x l IH]; intros seen; cbn [Py.fromkeys_from].
  - constructor.
  - case_bool_decide; [apply IH|]. constructor; [|apply IH].
    rewrite elem_of_fromkeys_from, elem_of_cons. tauto.
Qed.

End CandidatesMore.

(** X11. The list of keys tried for a reference is the list of the eight
    variants with repeated entries dropped, first occurrence kept. It has no
    repetition, starts with the reference itself and has at most eight
    entries: the appending of the last segment and the cut at ten entries
    never change it. *)
Theorem X11_candidate_keys (src : string) :
  possible_keys src = Py.fromkeys (path_variants src)
  ∧ NoDup (possible_keys src)
  ∧ (∀ k, k ∈ possible_keys src ↔ k ∈ path_variants src)
  ∧ head (possible_keys src) = Some src
  ∧ length (possible_keys src) ≤ 8.
Proof.
  rewrite possible_keys_fromkeys. unfold Py.fromkeys.
  split; [done|]. split; [apply NoDup_fromkeys_from|]. split; [|split].
  - intros k. rewrite elem_of_fromkeys_from. split; [tauto|].
    intros H. split; [done|]. apply not_elem_of_nil.
  - unfold path_variants. cbn [Py.fromkeys_from].
    rewrite bool_decide_eq_false_2 by apply not_elem_of_nil. done.
  - etrans; [apply fromkeys_from_length|]. unfold path_variants. cbn [length]. lia.
Qed.

(** *** The sanitizer on whole markup *)

Section SanitizerMore.

Import Re.

Lemma search_absent_ci w p s :
  Py.lower w = w → Py.contains w (Py.lower s) = false →
  search (lit true w ++ p) s = None.
Proof.
  intros Hw. induction s as [|c s IH]; intros H.
  - cbn [Py.lower Py.contains] in H. apply orb_false_iff in H as [Hp _].
    cbn [search]. by rewrite match_at_lit_ci_none.
  - change (Py.lower (String c s)) with (String (Py.lower_char c) (Py.lower s)) in H.
    cbn [Py.contains] in H. apply orb_false_iff in H as [Hp H].
    cbn [search]. rewrite match_at_lit_ci_none by done. by apply IH.
Qed.

Lemma search_here p s m : match_at p s = Some m → search p s = Some m.
Proof. intros H. destruct s; cbn [search]; by rewrite H. Qed.

(** The search passes over a stretch in which no match starts. *)
Lemma search_skip p a s :
  (∀ b t, a = b +:+ t → t ≠ EmptyString → match_at p (t +:+ s) = None) →
  search p (a +:+ s) = search p s.
Proof.
  intros Ha. induction a as [|c a IH]; [done|].
  rewrite append_cons. cbn [search].
  rewrite <- append_cons, (Ha EmptyString (String c a)) by done.
  apply IH. intros b t ->. apply (Ha (String c b) t). reflexivity.
Qed.

Lemma mh_lazy f p s g :
  match_here (Chars f LazyStar :: p) s g
  = match match_here p s g with
    | Some r => Some r
    | None =>
        match s with
        | String c s' => if f c then match_here (Chars f LazyStar :: p) s' g else None
        | EmptyString => None
        end
    end.
Proof. by destruct s. Qed.

(** A lazy repeat stops at the first place where the rest of the pattern
    matches. *)
Lemma mh_lazy_run f p a s g r :
  all_in f a = true →
  (∀ b t, a = b +:+ t → t ≠ EmptyString → match_here p (t +:+ s) g = None) →
  match_here p s g = Some r →
  match_here (Chars f LazyStar :: p) (a +:+ s) g = Some r.
Proof.
  intros Hf Ha Hs. induction a as [|c a IH].
  - rewrite append_empty_l, mh_lazy. by rewrite Hs.
  - rewrite all_in_cons in Hf. apply andb_true_iff in Hf as [Hc Hf].
    rewrite mh_lazy, (Ha EmptyString (String c a)) by done.
    rewrite append_cons, Hc. apply IH; [done|].
    intros b t ->. apply (Ha (String c b) t). reflexivity.
Qed.

Lemma agree_lower w w' : agree true w w' = true → Py.lower w' = Py.lower w.
Proof.
  revert w'. induction w as [|c w IH]; intros [|x w'] H; try done.
  cbn [agree] in H. apply andb_true_iff in H as [Hc H].
  unfold same_char in Hc. apply Ascii.eqb_eq in Hc.
  cbn [Py.lower]. by rewrite Hc, (IH _ H).
Qed.

Lemma all_in_any s : all_in (fun _ => true) s = true.
Proof. induction s as [|c s IH]; [done|]. by rewrite all_in_cons, IH. Qed.

Lemma body_split :
  Pat.body
  = lit true "<body"
    ++ Chars (fun x => negb (in_set true ">" x)) Star
       :: Chars (same_char true ">") One
       :: GroupOpen
       :: Chars (fun _ => true) LazyStar
       :: GroupClose :: lit true "</body>" ++ [].
Proof. reflexivity. Qed.

(** A closing tag does not start inside a text that holds none, nor across
    its end into a text that starts with the tag. *)
Lemma no_early_close needle inner b t close post :
  Py.lower needle = needle →
  (∀ n rest, needle = String n rest → n = "<"%char ∧ Py.char_in "<" rest = false) →
  needle ≠ EmptyString →
  Py.contains needle (Py.lower inner) = false →
  inner = b +:+ t → t ≠ EmptyString →
  Py.lower close = needle →
  String.prefix needle (Py.lower (t +:+ close +:+ post)) = false.
Proof.
  intros Hlow Hshape Hne Hin -> Ht Hclose.
  rewrite lower_app in Hin. apply contains_false_suffix in Hin.
  rewrite !lower_app, Hclose.
  destruct needle as [|n rest]; [done|].
  destruct (Hshape n rest eq_refl) as [-> Hrest].
  rewrite append_cons. apply prefix_boundary; [done | by apply lower_nonempty |].
  by intros n' rest' [= <- <-].
Qed.

Lemma body_at_element open attrs inner close post :
  agree true "<body" open = true →
  Py.char_in ">" attrs = false →
  agree true "</body>" close = true →
  Py.contains "</body>" (Py.lower inner) = false →
  match_here Pat.body (open +:+ attrs +:+ ">" +:+ inner +:+ close +:+ post) no_caps
  = Some (post, {| g_open := Some (inner +:+ close +:+ post);
                   g_close := Some (close +:+ post) |}).
Proof.
  intros Hopen Hattrs Hclose Hinner.
  rewrite body_split, (mh_lit true "<body" open) by done.
  apply mh_star_run; [by apply run_without_gt|].
  change (">" +:+ ?z) with (String ">" z).
  rewrite mh_star_stop by reflexivity.
  rewrite mh_one_true by reflexivity.
  rewrite mh_open. cbn [g_close no_caps].
  apply mh_lazy_run; [apply all_in_any | |].
  - intros b t Hbt Ht. rewrite mh_close.
    match goal with
    | |- ?M = None => destruct M as [r|] eqn:E; [|done]
    end.
    apply mh_lit_ci_prefix in E; [|done].
    rewrite (no_early_close "</body>" inner b t close post) in E; try done.
    + intros n rest [= <- <-]. by split.
    + by rewrite (agree_lower _ _ Hclose).
  - rewrite mh_close. by rewrite (mh_lit true "</body>" close).
Qed.

(** A tag that starts with the literal does not start inside a text that
    holds none, nor across its end into a tag that starts with [<]. *)
Lemma body_not_before pre b t open tail :
  Py.contains "<body" (Py.lower pre) = false →
  pre = b +:+ t → t ≠ EmptyString →
  agree true "<body" open = true →
  match_at Pat.body (t +:+ open +:+ tail) = None.
Proof.
  intros Hpre -> Ht Hopen. rewrite body_split. apply match_at_lit_ci_none; [done|].
  replace (t +:+ open +:+ tail) with (t +:+ open +:+ tail +:+ EmptyString)
    by (by rewrite append_empty_r).
  apply (no_early_close "<body" (b +:+ t) b t open (tail +:+ EmptyString)); try done.
  - intros n rest [= <- <-]. by split.
  - by rewrite (agree_lower _ _ Hopen).
Qed.

Lemma in_set_gt_cs x : in_set false ">" x = Ascii.eqb x ">".
Proof. cbn [in_set]. unfold same_char. by rewrite orb_false_r. Qed.

Lemma run_without_gt_cs s :
  Py.char_in ">" s = false →
  all_in (fun x => negb (in_set false ">" x)) s = true.
Proof.
  induction s as [|c s IH]; [done|]. cbn [Py.char_in].
  rewrite all_in_cons, in_set_gt_cs, (Ascii.eqb_sym ">" c).
  intros [-> H]%orb_false_iff. by rewrite IH.
Qed.

Lemma xml_decl_split :
  Pat.xml_decl
  = lit false "<?xml"
    ++ Chars (fun x => negb (in_set false ">" x)) Star :: lit false "?>" ++ [].
Proof. reflexivity. Qed.

Lemma doctype_split :
  Pat.doctype
  = lit false "<!DOCTYPE"
    ++ Chars (fun x => negb (in_set false ">" x)) Star :: lit false ">" ++ [].
Proof. reflexivity. Qed.

Lemma xml_decl_here a rest :
  Py.char_in ">" a = false →
  match_at Pat.xml_decl (("<?xml" +:+ a +:+ "?>") +:+ rest)
  = Some {| group0 := "<?xml" +:+ a +:+ "?>"; group1 := EmptyString; rest := rest |}.
Proof.
  intros Ha. apply match_at_some_nogroup.
  rewrite !append_assoc, xml_decl_split, (mh_lit false "<?xml" "<?xml") by done.
  apply mh_star_run; [by apply run_without_gt_cs|].
  change ("?>" +:+ rest) with (String "?" (String ">" rest)).
  rewrite mh_star. cbv beta.
  change (negb (in_set false ">" "?")) with true. cbv iota.
  rewrite mh_star_stop by reflexivity.
  change (String ">" rest) with (">" +:+ rest) at 1.
  replace (match_here (lit false "?>" ++ []) (">" +:+ rest) no_caps) with
    (@None (string * caps)) by reflexivity.
  change (String "?" (String ">" rest)) with ("?>" +:+ rest).
  by rewrite (mh_lit false "?>" "?>").
Qed.

Lemma doctype_here b rest :
  Py.char_in ">" b = false →
  match_at Pat.doctype (("<!DOCTYPE" +:+ b +:+ ">") +:+ rest)
  = Some {| group0 := "<!DOCTYPE" +:+ b +:+ ">"; group1 := EmptyString; rest := rest |}.
Proof.
  intros Hb. apply match_at_some_nogroup.
  rewrite !append_assoc, doctype_split, (mh_lit false "<!DOCTYPE" "<!DOCTYPE") by done.
  apply mh_star_run; [by apply run_without_gt_cs|].
  change (">" +:+ rest) with (String ">" rest).
  rewrite mh_star_stop by reflexivity.
  change (String ">" rest) with (">" +:+ rest).
  by rewrite (mh_lit false ">" ">").
Qed.

(** A pattern that starts with [<] copies a stretch without [<]. *)
Lemma sub_from_copy_plain w p repl lim a s :
  lim ≠ Some 0 → Py.char_in "<" a = false →
  sub_from (lit false (String "<" w) ++ p) repl lim 0 (a +:+ s)
  = a +:+ sub_from (lit false (String "<" w) ++ p) repl lim 0 s.
Proof.
  intros Hlim Ha. apply sub_from_copy; [done|].
  intros b t -> Ht. apply match_at_lit_cs_none.
  rewrite char_in_app in Ha. apply orb_false_iff in Ha as [_ Ha].
  destruct t as [|x t]; [done|]. rewrite append_cons.
  cbn [Py.char_in] in Ha. apply orb_false_iff in Ha as [Hx _].
  cbn [String.prefix]. destruct (ascii_dec "<" x) as [<-|]; [|done].
  by rewrite Ascii.eqb_refl in Hx.
Qed.

End SanitizerMore.

(** X12. Markup that holds none of the starts the sanitizer looks for, an
    XML declaration, an upper-case DOCTYPE, and in any letter case a body,
    html or head tag, comes out unchanged. *)
Theorem X12_plain_markup_unchanged (content : string) :
  Py.contains "<?xml" content = false →
  Py.contains "<!DOCTYPE" content = false →
  Py.contains "<body" (Py.lower content) = false →
  Py.contains "<html" (Py.lower content) = false →
  Py.contains "</html>" (Py.lower content) = false →
  Py.contains "<head" (Py.lower content) = false →
  _clean_html_content content = content.
Proof.
  intros Hxml Hdoc Hbody Hhtml Hclose Hhead. unfold _clean_html_content, Re.sub.
  rewrite xml_decl_split, sub_from_absent_cs by done.
  rewrite doctype_split, sub_from_absent_cs by done.
  rewrite body_split, search_absent_ci by done.
  unfold Pat.html_open. rewrite sub_from_absent_ci by done.
  unfold Pat.html_close.
  rewrite <- (app_nil_r (Re.lit true "</html>")), sub_from_absent_ci by done.
  unfold Pat.head. by rewrite sub_from_absent_ci.
Qed.

(** An instance of X12. *)
Lemma X12_plain_markup_unchanged_witness :
  _clean_html_content "<h1>One</h1><p>text</p>" = "<h1>One</h1><p>text</p>".
Proof. apply X12_plain_markup_unchanged; vm_compute; reflexivity. Defined.

(** X13. Of markup with a body element only the inside of the element is
    kept: what stands before the opening tag, the tag with its attributes,
    the closing tag and what follows it are dropped. The tags are taken in
    any letter case; the element is the first one, closed by the first
    closing tag after it. *)
Theorem X13_body_content_extracted
    (content pre open attrs inner close post : string) :
  content = pre +:+ open +:+ attrs +:+ ">" +:+ inner +:+ close +:+ post →
  Py.contains "<?xml" content = false →
  Py.contains "<!DOCTYPE" content = false →
  Py.contains "<body" (Py.lower pre) = false →
  agree true "<body" open = true →
  Py.char_in ">" attrs = false →
  Py.contains "</body>" (Py.lower inner) = false →
  agree true "</body>" close = true →
  _clean_html_content content = inner.
Proof.
  intros Hc Hxml Hdoc Hpre Hopen Hattrs Hinner Hclose.
  unfold _clean_html_content, Re.sub.
  rewrite xml_decl_split, sub_from_absent_cs by done.
  rewrite doctype_split, sub_from_absent_cs by done.
  rewrite Hc, search_skip.
  2:{ intros b t Hbt Ht. by apply (body_not_before pre b t). }
  rewrite (search_here _ _
             {| Re.group0 := open +:+ attrs +:+ ">" +:+ inner +:+ close;
                Re.group1 := inner; Re.rest := post |}); [done|].
  replace (open +:+ attrs +:+ ">" +:+ inner +:+ close +:+ post)
    with ((open +:+ attrs +:+ ">" +:+ inner +:+ close) +:+ post)
    by (by rewrite !append_assoc).
  apply (match_at_some _ _ _ _ (close +:+ post)).
  rewrite !append_assoc. by apply body_at_element.
Qed.

(** An instance of X13. *)
Lemma X13_body_content_extracted_witness :
  _clean_html_content
    ("<html><head></head>" +:+ "<BODY" +:+ " class='c'" +:+ ">" +:+ "<p>text</p>"
     +:+ "</Body>" +:+ "</html>")
  = "<p>text</p>".
Proof.
  apply (X13_body_content_extracted _ "<html><head></head>" "<BODY" " class='c'"
           "<p>text</p>" "</Body>" "</html>");
    vm_compute; reflexivity.
Defined.

(** X14. The usual prologue is dropped: markup that starts with an XML
    declaration, followed after some text without [<] by an upper-case
    DOCTYPE declaration, is cleaned like that text followed by the rest of
    the markup. *)
Theorem X14_prologue_dropped (a ws b rest : string) :
  Py.char_in ">" a = false →
  Py.char_in "<" ws = false →
  Py.char_in ">" b = false →
  Py.char_in "<" b = false →
  _clean_html_content
    (("<?xml" +:+ a +:+ "?>") +:+ ws +:+ ("<!DOCTYPE" +:+ b +:+ ">") +:+ rest)
  = _clean_html_content (ws +:+ rest).
Proof.
  intros Ha Hws Hb Hb'.
  assert (Hx : Re.sub Pat.xml_decl erase
                 (("<?xml" +:+ a +:+ "?>") +:+ ws +:+ ("<!DOCTYPE" +:+ b +:+ ">") +:+ rest) 0
               = ws +:+ ("<!DOCTYPE" +:+ b +:+ ">") +:+ Re.sub Pat.xml_decl erase rest 0).
  { unfold Re.sub.
    rewrite (sub_from_match _ _ None ("<?xml" +:+ a +:+ "?>") _
               {| Re.group0 := "<?xml" +:+ a +:+ "?>"; Re.group1 := EmptyString;
                  Re.rest := ws +:+ ("<!DOCTYPE" +:+ b +:+ ">") +:+ rest |});
      [ | done | discriminate | by apply xml_decl_here | reflexivity ].
    unfold erase at 1. rewrite append_empty_l. cbn [fmap option_fmap option_map].
    rewrite xml_decl_split, sub_from_copy_plain by done. f_equal.
    change ("<!DOCTYPE" +:+ b +:+ ">") with ("<" +:+ "!DOCTYPE" +:+ b +:+ ">").
    rewrite !append_assoc.
    rewrite sub_from_copy; [|done|].
    - f_equal. rewrite <- !append_assoc, sub_from_copy_plain; [|done|].
      + by rewrite !append_assoc.
      + rewrite !char_in_app, Hb'. reflexivity.
    - intros b0 t Hbt Ht. apply match_at_lit_cs_none.
      destruct b0 as [|y b0].
      + rewrite append_empty_l in Hbt. subst t. reflexivity.
      + rewrite append_cons in Hbt. injection Hbt as _ Hbt.
        destruct b0; [by rewrite append_empty_l in Hbt | done]. }
  assert (Hy : Re.sub Pat.xml_decl erase (ws +:+ rest) 0
               = ws +:+ Re.sub Pat.xml_decl erase rest 0).
  { unfold Re.sub. by rewrite xml_decl_split, sub_from_copy_plain. }
  assert (Hd : ∀ Y, Re.sub Pat.doctype erase (ws +:+ ("<!DOCTYPE" +:+ b +:+ ">") +:+ Y) 0
                    = Re.sub Pat.doctype erase (ws +:+ Y) 0).
  { intros Y. unfold Re.sub.
    rewrite doctype_split.
    rewrite (sub_from_copy_plain _ _ _ _ ws Y) by done.
    rewrite (sub_from_copy_plain _ _ _ _ ws (_ +:+ Y)) by done. f_equal.
    rewrite <- doctype_split.
    rewrite (sub_from_match _ _ None ("<!DOCTYPE" +:+ b +:+ ">") _
               {| Re.group0 := "<!DOCTYPE" +:+ b +:+ ">"; Re.group1 := EmptyString;
                  Re.rest := Y |});
      [ | done | discriminate | by apply doctype_here | reflexivity ].
    unfold erase at 1. by rewrite append_empty_l. }
  unfold _clean_html_content. by rewrite Hx, Hy, Hd.
Qed.

(** An instance of X14. *)
Lemma X14_prologue_dropped_witness :
  _clean_html_content
    (("<?xml" +:+ " version='1.0'" +:+ "?>") +:+ " "
     +:+ ("<!DOCTYPE" +:+ " html" +:+ ">") +:+ "<p>text</p>")
  = _clean_html_content (" " +:+ "<p>text</p>").
Proof. apply X14_prologue_dropped; vm_compute; reflexivity. Defined.

(** *** The reading order *)

Section OrderMore.

Context {A : Type} (key : A -> nat).

(** Insertion puts an element in front of those of its own key. *)
Lemma insert_by_filter k x l :
  filter (fun y => key y = k) (insert_by key x l)
  = if decide (key x = k) then x :: filter (fun y => key y = k) l
    else filter (fun y => key y = k) l.
Proof.
  induction l as [|y l IH]; cbn [insert_by].
  - rewrite filter_cons. by destruct (decide (key x = k)).
  - destruct (key x <=? key y) eqn:E.
    + rewrite filter_cons. by destruct (decide (key x = k)).
    + apply Nat.leb_gt in E. rewrite !(filter_cons _ y), IH.
      destruct (decide (key x = k)), (decide (key y = k)); try done. lia.
Qed.

Lemma sort_by_filter k l :
  filter (fun y => key y = k) (sort_by key l) = filter (fun y => key y = k) l.
Proof.
  induction l as [|x l IH]; [done|]. cbn [sort_by].
  rewrite insert_by_filter, filter_cons, IH. by destruct (decide (key x = k)).
Qed.

End OrderMore.

Section SpineMore.

Lemma spine_order_from (l : list (string * string)) (a : nat)
    (m : gmap string nat) id i :
  fold_left (fun m e => <[fst (snd e) := fst e]> m) (zip (seq a (length l)) l) m
    !! id = Some i
  ↔ (∃ j, i = a + j ∧ spine_ids l !! j = Some id
          ∧ ∀ j', j < j' → spine_ids l !! j' ≠ Some id)
    ∨ (m !! id = Some i ∧ id ∉ spine_ids l).
Proof.
  unfold spine_ids. revert a m. induction l as [|x l IH]; intros a m.
  - cbn [length seq zip zip_with fold_left fmap list_fmap]. split.
    + intros H. right. split; [done | apply not_elem_of_nil].
    + intros [(j & _ & H & _) | [H _]]; [by rewrite lookup_nil in H | done].
  - cbn [length seq zip zip_with fold_left fst snd]. rewrite (IH (S a)).
    rewrite fmap_cons. split.
    + intros [(j & -> & Hj & Hlast) | [Hm Hid]].
      * left. exists (S j). split; [lia|]. split; [done|].
        intros [|j'] Hlt; [lia|]. cbn [lookup list_lookup]. apply Hlast. lia.
      * apply lookup_insert_Some in Hm as [[<- <-] | [Hne Hm]].
        -- left. exists 0. split; [lia|]. split; [done|].
           intros [|j'] Hlt; [lia|]. cbn. intros H. apply Hid.
           by apply list_elem_of_lookup_2 in H.
        -- right. split; [done|]. rewrite not_elem_of_cons. by split.
    + intros [(j & -> & Hj & Hlast) | [Hm Hid]].
      * destruct j as [|j].
        -- right. cbn in Hj. injection Hj as <-. split.
           ++ rewrite lookup_insert_eq. f_equal. lia.
           ++ intros [j' Hj']%list_elem_of_lookup. by apply (Hlast (S j')); [lia|].
        -- left. exists j. split; [lia|]. split; [done|].
           intros j' Hlt. apply (Hlast (S j')). lia.
      * apply not_elem_of_cons in Hid as [Hne Hid]. right. split; [|done].
        by rewrite lookup_insert_ne.
Qed.

Lemma is_empty_app a b : is_empty (a +:+ b) = is_empty a && is_empty b.
Proof. by destruct a. Qed.

End SpineMore.

(** X15. The reading order holds exactly the documents of the package, each
    as often as [get_items] gives it. With a spine it is sorted by the sort
    key, and the sort is stable: the documents of one key come in the order
    [get_items] gave them. *)
Theorem X15_reading_order_is_a_stable_sort (book : Book) :
  ordered_documents book ≡ₚ documents book
  ∧ (spine book ≠ [] →
     StronglySorted (by_key (spine_key book)) (ordered_documents book))
  ∧ (∀ k, filter (fun d => spine_key book d = k) (ordered_documents book)
          = filter (fun d => spine_key book d = k) (documents book)).
Proof.
  unfold ordered_documents, documents. cbv zeta.
  destruct (spine book) as [|e sp] eqn:E.
  - split; [done|]. split; [done|]. done.
  - split; [apply sort_by_perm|]. split; [intros _; apply sort_by_sorted|].
    intros k. apply sort_by_filter.
Qed.

(** X16. With a spine of at least one and at most 999 entries the documents
    the spine declares come first, sorted by their rank, which is below the
    length of the spine; the documents it does not declare follow, in the
    order [get_items] gave them. *)
Theorem X16_short_spine_order (book : Book) :
  spine book ≠ [] → length (spine book) ≤ 999 →
  ordered_documents book
  = sort_by (spine_key book)
      (filter (fun doc => is_declared book doc = true) (documents book))
    ++ filter (fun doc => is_declared book doc = false) (documents book)
  ∧ Forall (fun doc => spine_key book doc < length (spine book))
      (sort_by (spine_key book)
         (filter (fun doc => is_declared book doc = true) (documents book))).
Proof.
  intros Hne Hlen. split; [by apply ordered_documents_short_spine|].
  apply Forall_forall. intros d [Hd Hdecl]%elem_of_sort_by%list_elem_of_filter.
  unfold is_declared in Hd. apply bool_decide_eq_true in Hd as [i Hi].
  unfold spine_key. fold (declared_rank book d). rewrite Hi. cbn [default].
  by apply declared_rank_bound in Hi.
Qed.

(** An instance of X16: a spine that names the second chapter first. *)
Lemma X16_short_spine_order_witness :
  ordered_documents two_chapters
  = sort_by (spine_key two_chapters)
      (filter (fun doc => is_declared two_chapters doc = true) (documents two_chapters))
    ++ filter (fun doc => is_declared two_chapters doc = false) (documents two_chapters)
  ∧ Forall (fun doc => spine_key two_chapters doc < length (spine two_chapters))
      (sort_by (spine_key two_chapters)
         (filter (fun doc => is_declared two_chapters doc = true)
            (documents two_chapters))).
Proof.
  apply X16_short_spine_order; [discriminate | cbn; lia].
Defined.

(** X17. The rank the dictionary [spine_order] gives an identifier is the
    index of its last entry in the spine, and an identifier has a rank
    exactly when the spine names it. *)
Theorem X17_rank_is_last_spine_index (spine : list (string * string))
    (id : string) (i : nat) :
  spine_order spine !! id = Some i
  ↔ spine_ids spine !! i = Some id
    ∧ ∀ j, i < j → spine_ids spine !! j ≠ Some id.
Proof.
  unfold spine_order, enumerate. rewrite spine_order_from. split.
  - intros [(j & -> & Hj & Hlast) | [H _]]; [done | by rewrite lookup_empty in H].
  - intros [Hi Hlast]. left. by exists i.
Qed.

(** *** One conversion, and the batch *)

Section ConverterMore.

Variable decode : list byte -> string.
Variable read_epub : string -> option Book.
Variable write_pdf : string -> string -> bool.
Variable get_output_path : string -> string.
Variable epub_mtime : string -> Q.

Abbreviation already' := (is_already_converted get_output_path epub_mtime).
Abbreviation convert' :=
  (convert_epub_to_pdf decode read_epub write_pdf get_output_path epub_mtime).
Abbreviation one' := (convert_one decode read_epub write_pdf get_output_path epub_mtime).
Abbreviation batch' := (convert_all decode read_epub write_pdf get_output_path epub_mtime).
Abbreviation outcomes' := (outcomes decode read_epub write_pdf get_output_path epub_mtime).

(** The assembled document is never empty: it starts with the head. *)
Lemma assemble_not_empty epub_path book :
  is_empty (assemble decode epub_path book) = false.
Proof.
  rewrite assemble_fragments, !is_empty_app. unfold html_head. cbv zeta.
  by rewrite !is_empty_app.
Qed.

Lemma convert_readable wt outputs p book :
  read_epub p = Some book → already' outputs p = false →
  convert' wt outputs p
  = if write_pdf (assemble decode p book) (parent p)
    then (true, <[get_output_path p := wt (get_output_path p)]> outputs)
    else (false, outputs).
Proof.
  intros Hread Hnot. unfold convert_epub_to_pdf, extract_epub_content.
  by rewrite Hnot, Hread, assemble_not_empty.
Qed.

Lemma outcomes_length wt files outputs :
  length (fst (outcomes' wt files outputs)) = length files.
Proof.
  revert outputs. induction files as [|p files IH]; intros outputs; [done|].
  cbn [outcomes fst length]. by rewrite IH.
Qed.

Lemma count_of_cons o x os :
  count_of o (x :: os) = (if outcome_eqb x o then 1 else 0) + count_of o os.
Proof.
  unfold count_of. rewrite filter_cons. destruct (outcome_eqb x o).
  - by rewrite decide_True.
  - by rewrite decide_False.
Qed.

Lemma fold_count os r :
  fold_left (fun r o => count o r) os r
  = {| total := total r;
       success := success r + count_of Success os;
       failed := failed r + count_of Failed os;
       skipped := skipped r + count_of Skipped os |}.
Proof.
  revert r. induction os as [|o os IH]; intros r.
  - destruct r. unfold count_of. cbn. f_equal; lia.
  - cbn [fold_left]. rewrite IH, !count_of_cons.
    destruct o; cbn [count outcome_eqb total success failed skipped]; f_equal; lia.
Qed.

Lemma count_of_zero o os : count_of o os = 0 ↔ o ∉ os.
Proof.
  induction os as [|x os IH].
  - split; [intros _; apply not_elem_of_nil | done].
  - rewrite count_of_cons, not_elem_of_cons, <- IH.
    destruct x, o; cbn [outcome_eqb]; split; intros H;
      first [lia | split; [done | lia] | destruct H as [? ?]; first [done | lia]].
Qed.

Lemma count_of_pos o os : 0 < count_of o os ↔ o ∈ os.
Proof.
  induction os as [|x os IH].
  - split; [unfold count_of; cbn; lia | by intros ?%elem_of_nil].
  - rewrite count_of_cons, elem_of_cons, <- IH.
    destruct x, o; cbn [outcome_eqb]; split; intros H;
      first [lia | by left | right; lia | destruct H as [?|?]; first [done | lia]].
Qed.

(** One turn of the loop leaves the output tree as it was or writes the
    output of its file. *)
Lemma one_frame wt outputs p q :
  (is_Some (outputs !! q) → is_Some (snd (one' wt outputs p) !! q))
  ∧ (get_output_path p ≠ q → snd (one' wt outputs p) !! q = outputs !! q)
  ∧ (snd (one' wt outputs p) !! q = outputs !! q
     ∨ snd (one' wt outputs p) !! q = Some (wt q)).
Proof.
  destruct (one_outputs decode read_epub write_pdf get_output_path epub_mtime
              wt outputs p) as [-> | [_ ->]].
  - split; [done|]. split; [done|]. by left.
  - split; [|split].
    + intros H. rewrite lookup_insert_is_Some'. by right.
    + intros Hne. by rewrite lookup_insert_ne.
    + destruct (decide (get_output_path p = q)) as [<-|Hne].
      * right. by rewrite lookup_insert_eq.
      * left. by rewrite lookup_insert_ne.
Qed.

Lemma outcomes_frame wt files outputs q :
  (is_Some (outputs !! q) → is_Some (snd (outcomes' wt files outputs) !! q))
  ∧ ((∀ p, p ∈ files → get_output_path p ≠ q) →
     snd (outcomes' wt files outputs) !! q = outputs !! q)
  ∧ (snd (outcomes' wt files outputs) !! q = outputs !! q
     ∨ snd (outcomes' wt files outputs) !! q = Some (wt q)).
Proof.
  revert outputs. induction files as [|p files IH]; intros outputs.
  - cbn [outcomes snd]. split; [done|]. split; [done|]. by left.
  - cbn [outcomes snd].
    destruct (IH (snd (one' wt outputs p))) as (IH1 & IH2 & IH3).
    destruct (one_frame wt outputs p q) as (H1 & H2 & H3).
    split; [|split].
    + intros H. by apply IH1, H1.
    + intros Hq. rewrite IH2, H2; [done | |].
      * apply Hq. by left.
      * intros p' Hp'. apply Hq. by right.
    + destruct IH3 as [IH3|IH3]; [|by right]. rewrite IH3. exact H3.
Qed.

(** What one turn of the loop reports. *)
Lemma one_reports wt outputs p :
  (fst (one' wt outputs p) ≠ Failed →
   is_Some (snd (one' wt outputs p) !! get_output_path p))
  ∧ (fst (one' wt outputs p) = Success →
     ∃ book, read_epub p = Some book
             ∧ write_pdf (assemble decode p book) (parent p) = true).
Proof.
  unfold convert_one. destruct (already' outputs p) eqn:E.
  - cbn [fst snd]. split; [|done]. intros _.
    apply already_spec in E as (t & Ht & _). by rewrite Ht.
  - cbn [fst snd]. destruct (read_epub p) as [book|] eqn:Hread.
    + rewrite (convert_readable wt outputs p book Hread E).
      destruct (write_pdf _ _) eqn:Hw; cbn [fst snd].
      * split; [|by eauto]. intros _. rewrite lookup_insert_eq. by eexists.
      * split; done.
    + unfold convert_epub_to_pdf, extract_epub_content. rewrite E, Hread.
      cbn [fst snd]. split; done.
Qed.

Lemma outcomes_report wt files outputs :
  Forall2 (fun p o =>
             (o ≠ Failed →
              is_Some (snd (outcomes' wt files outputs) !! get_output_path p))
             ∧ (o = Success →
                ∃ book, read_epub p = Some book
                        ∧ write_pdf (assemble decode p book) (parent p) = true))
    files (fst (outcomes' wt files outputs)).
Proof.
  revert outputs. induction files as [|p files IH]; intros outputs.
  - constructor.
  - cbn [outcomes fst snd].
    destruct (one_reports wt outputs p) as [H1 H2]. constructor.
    + split; [|done]. intros Hne.
      by apply (outcomes_frame wt files (snd (one' wt outputs p))), H1.
    + apply IH.
Qed.

End ConverterMore.

(** X18. Whenever [extract_epub_content] returns a document, the package
    could be read and the document is the head built from the title and the
    author, the fragments of the documents in reading order, and the tail.
    It is never empty. *)
Theorem X18_returned_document_is_never_empty
    (decode : list byte -> string) (read_epub : string -> option Book)
    (epub_path doc : string) :
  extract_epub_content decode read_epub epub_path = Some doc →
  is_empty doc = false
  ∧ ∃ book,
      read_epub epub_path = Some book
      ∧ doc = html_head (title_of epub_path book) (author_of book)
              +:+ join (omap (fragment decode (extract_images_from_epub book))
                          (ordered_documents book))
              +:+ html_tail.
Proof.
  unfold extract_epub_content.
  destruct (read_epub epub_path) as [book|] eqn:Hread; [|done].
  intros [= <-]. split; [apply assemble_not_empty|].
  exists book. split; [done|]. apply assemble_fragments.
Qed.

(** An instance of X18: a package of two chapters. *)
Lemma X18_returned_document_witness :
  is_empty (assemble decode_ascii "book.epub" two_chapters) = false
  ∧ ∃ book,
      (fun _ : string => Some two_chapters) "book.epub" = Some book
      ∧ assemble decode_ascii "book.epub" two_chapters
        = html_head (title_of "book.epub" book) (author_of book)
          +:+ join (omap (fragment decode_ascii (extract_images_from_epub book))
                      (ordered_documents book))
          +:+ html_tail.
Proof.
  apply (X18_returned_document_is_never_empty decode_ascii
           (fun _ => Some two_chapters) "book.epub"
           (assemble decode_ascii "book.epub" two_chapters)).
  reflexivity.
Defined.

(** X19. Each counter of [convert_all] is the number of files with that
    outcome, [total] is the number of files, and the exit status [main]
    chooses is 0 exactly when no file failed, and 1 otherwise. *)
Theorem X19_counters_count_outcomes
    (decode : list byte -> string) (read_epub : string -> option Book)
    (write_pdf : string -> string -> bool) (get_output_path : string -> string)
    (epub_mtime : string -> Q) (write_time : string -> Q)
    (epub_files : list string) (outputs : gmap string Q) :
  let results :=
    fst (convert_all decode read_epub write_pdf get_output_path epub_mtime
           write_time epub_files outputs) in
  let os :=
    fst (outcomes decode read_epub write_pdf get_output_path epub_mtime
           write_time epub_files outputs) in
  total results = length epub_files
  ∧ length os = length epub_files
  ∧ success results = count_of Success os
  ∧ failed results = count_of Failed os
  ∧ skipped results = count_of Skipped os
  ∧ (main_status results = 0%Z ↔ Failed ∉ os)
  ∧ (main_status results = 1%Z ↔ Failed ∈ os).
Proof.
  cbv zeta. rewrite batch_outcomes, fold_count. cbn [fst total success failed skipped].
  split; [done|]. split; [apply outcomes_length|]. do 3 (split; [lia|]).
  unfold main_status. cbn [failed]. rewrite <- count_of_zero, <- count_of_pos.
  destruct (0 <? 0 + count_of Failed _) eqn:E.
  - apply Nat.ltb_lt in E. split; split; try done; lia.
  - apply Nat.ltb_ge in E. split; split; try done; lia.
Qed.

(** X20. A batch only adds to the output tree. An output file that was
    there before is there after; a path that is the output path of none of
    the inputs is left as it was; and any path either is as it was or holds
    the time stamp of a write of this run. *)
Theorem X20_batch_only_writes_its_outputs
    (decode : list byte -> string) (read_epub : string -> option Book)
    (write_pdf : string -> string -> bool) (get_output_path : string -> string)
    (epub_mtime : string -> Q) (write_time : string -> Q)
    (epub_files : list string) (outputs : gmap string Q) (q : string) :
  let after :=
    snd (convert_all decode read_epub write_pdf get_output_path epub_mtime
           write_time epub_files outputs) in
  (is_Some (outputs !! q) → is_Some (after !! q))
  ∧ ((∀ p, p ∈ epub_files → get_output_path p ≠ q) → after !! q = outputs !! q)
  ∧ (after !! q = outputs !! q ∨ after !! q = Some (write_time q)).
Proof.
  cbv zeta. rewrite batch_outcomes. cbn [snd]. apply outcomes_frame.
Qed.

(** X21. At the end of a batch every file that was reported skipped or
    converted has its output file, and every file reported converted is a
    package that could be read and whose assembled document the renderer
    accepted. *)
Theorem X21_reported_files_have_outputs
    (decode : list byte -> string) (read_epub : string -> option Book)
    (write_pdf : string -> string -> bool) (get_output_path : string -> string)
    (epub_mtime : string -> Q) (write_time : string -> Q)
    (epub_files : list string) (outputs : gmap string Q) :
  let after :=
    snd (convert_all decode read_epub write_pdf get_output_path epub_mtime
           write_time epub_files outputs) in
  Forall2 (fun p o =>
             (o ≠ Failed → is_Some (after !! get_output_path p))
             ∧ (o = Success →
                ∃ book, read_epub p = Some book
                        ∧ write_pdf (assemble decode p book) (parent p) = true))
    epub_files
    (fst (outcomes decode read_epub write_pdf get_output_path epub_mtime
            write_time epub_files outputs)).
Proof.
  cbv zeta. rewrite batch_outcomes. cbn [snd]. apply outcomes_report.
Qed.

(** *** Output paths *)

Section PathsMore.

Import PathLib.

Lemma join_dot_sep_join l : join_dot l = sep_join "." l.
Proof.
  destruct l as [|h t]; [done|]. cbn [join_dot].
  revert h. induction t as [|y t IH]; intros h; [done|].
  cbn [fold_left]. rewrite IH. cbn [sep_join].
  change ("." +:+ y) with (String "." y).
  destruct t as [|z t]; [done|].
  rewrite append_assoc. by rewrite append_cons.
Qed.

Lemma length_split_pos sep s : 0 < length (Py.split sep s).
Proof.
  induction s as [|c s IH]; [cbn; lia|]. rewrite split_cons.
  destruct (Ascii.eqb c sep); [cbn [length]; lia|].
  destruct (Py.split sep s); cbn [length] in *; lia.
Qed.

(** The suffix of a name [x.ext]. *)
Lemma suffix_of_name x ext :
  x ≠ EmptyString → ext ≠ EmptyString → Py.char_in "." ext = false →
  suffix (x +:+ String "." ext) = String "." ext.
Proof.
  intros Hx Hext Hdot. unfold suffix, has_suffix. cbv zeta.
  rewrite split_app, (split_absent "." ext Hdot).
  rewrite removelast_last, neg1_snoc, join_dot_sep_join, join_split.
  rewrite length_app. cbn [length].
  pose proof (length_split_pos "." x) as Hlen.
  replace (2 <=? length (Py.split "." x) + 1) with true
    by (symmetry; apply Nat.leb_le; lia).
  by destruct x, ext.
Qed.

Lemma with_suffix_name rel x ext new :
  x ≠ EmptyString → ext ≠ EmptyString → Py.char_in "." ext = false →
  with_suffix (rel ++ [x +:+ String "." ext]) new = Some (rel ++ [x +:+ new]).
Proof.
  intros Hx Hext Hdot. unfold with_suffix, name. cbv zeta.
  rewrite last_last, removelast_last, suffix_of_name by done.
  destruct x as [|c x]; [done|]. rewrite append_cons. cbn [is_empty].
  rewrite <- append_cons. do 3 f_equal.
  rewrite length_append.
  replace (String.length (String c x) + String.length (String "." ext)
           - String.length (String "." ext)) with (String.length (String c x)) by lia.
  by rewrite substring_prefix.
Qed.

Lemma substring_0_prefix n s : String.prefix (String.substring 0 n s) s = true.
Proof.
  revert n. induction s as [|c s IH]; intros [|n]; try done.
  cbn [String.substring String.prefix]. by destruct (ascii_dec c c).
Qed.

Lemma with_suffix_some rel new pdf :
  with_suffix rel new = Some pdf →
  name rel ≠ EmptyString
  ∧ ∃ stem', pdf = removelast rel ++ [stem' +:+ new]
             ∧ String.prefix stem' (name rel) = true.
Proof.
  unfold with_suffix. cbv zeta.
  destruct (is_empty (name rel)) eqn:E; [done|]. intros [= <-].
  split; [by destruct (name rel)|].
  destruct (is_empty (suffix (name rel))).
  - exists (name rel). split; [done|].
    rewrite <- (append_empty_r (name rel)) at 2. apply prefix_append.
  - eexists. split; [reflexivity|]. apply substring_0_prefix.
Qed.

Lemma relative_to_spec p other rel :
  relative_to p other = Some rel ↔ p = other ++ rel.
Proof.
  revert p. induction other as [|o other IH]; intros p.
  - destruct p; cbn [relative_to app]; split; congruence.
  - destruct p as [|x p]; cbn [relative_to app]; [split; congruence|].
    destruct (String.eqb x o) eqn:E.
    + apply String.eqb_eq in E as ->. rewrite IH. split; congruence.
    + apply String.eqb_neq in E. split; congruence.
Qed.

Lemma with_suffix_none rel new : with_suffix rel new = None ↔ name rel = EmptyString.
Proof.
  unfold with_suffix. cbv zeta. destruct (name rel); cbn [is_empty]; [done|].
  split; done.
Qed.

Lemma output_path_mirror source_dir output_dir rel x ext :
  x ≠ EmptyString → ext ≠ EmptyString → Py.char_in "." ext = false →
  output_path source_dir output_dir (source_dir ++ rel ++ [x +:+ String "." ext])
  = Some (output_dir ++ rel ++ [x +:+ ".pdf"]).
Proof.
  intros Hx Hext Hdot. unfold output_path.
  rewrite (proj2 (relative_to_spec _ source_dir (rel ++ [x +:+ String "." ext])) eq_refl).
  by rewrite with_suffix_name.
Qed.

Lemma append_inj_l a b c : a +:+ c = b +:+ c → a = b.
Proof.
  revert b. induction a as [|x a IH]; intros [|y b] H; [done | | |].
  - exfalso. apply (f_equal String.length) in H.
    rewrite append_empty_l, length_append in H. cbn [String.length] in H. lia.
  - exfalso. apply (f_equal String.length) in H.
    rewrite append_empty_l, length_append in H. cbn [String.length] in H. lia.
  - rewrite !append_cons in H. injection H as -> H. f_equal. by apply IH.
Qed.

End PathsMore.

(** X22. The output path mirrors the source tree: a file [x.ext] in a
    directory below the source root gets the output [x.pdf] in the same
    directory below the output root. [x] is not empty and [ext] is not
    empty and holds no dot. *)
Theorem X22_output_path_mirrors_the_tree
    (source_dir output_dir rel : PathLib.Path) (x ext : string) :
  x ≠ EmptyString → ext ≠ EmptyString → Py.char_in "." ext = false →
  output_path source_dir output_dir (source_dir ++ rel ++ [x +:+ String "." ext])
  = Some (output_dir ++ rel ++ [x +:+ ".pdf"]).
Proof. apply output_path_mirror. Qed.

(** An instance of X22: a name with two dots, two directories down. *)
Lemma X22_output_path_witness :
  output_path ["books"] ["output_book"]
    (["books"] ++ ["a"; "b"] ++ ["vol.1" +:+ String "." "epub"])
  = Some (["output_book"] ++ ["a"; "b"] ++ ["vol.1" +:+ ".pdf"]).
Proof. apply X22_output_path_mirrors_the_tree; [discriminate | discriminate | reflexivity]. Defined.

(** X23. [get_output_path] returns a path exactly for an input below the
    source root whose part below the root has a name and for which the
    directory of the output can be created, and raises otherwise. The path
    it returns lies below the output root, in the mirrored directory, and
    its name is a leading part of the input name followed by [.pdf]. *)
Theorem X23_output_path_failure (mkdir : PathLib.Path -> bool)
    (source_dir output_dir epub_path : PathLib.Path) :
  (get_output_path_fs mkdir source_dir output_dir epub_path = None
   ↔ ¬ ∃ rel, epub_path = source_dir ++ rel ∧ PathLib.name rel ≠ EmptyString
              ∧ mkdir (output_dir ++ removelast rel) = true)
  ∧ (∀ pdf, get_output_path_fs mkdir source_dir output_dir epub_path = Some pdf →
            ∃ rel stem',
              epub_path = source_dir ++ rel
              ∧ pdf = output_dir ++ removelast rel ++ [stem' +:+ ".pdf"]
              ∧ String.prefix stem' (PathLib.name rel) = true
              ∧ mkdir (output_dir ++ removelast rel) = true).
Proof.
  unfold get_output_path_fs, output_path.
  destruct (PathLib.relative_to epub_path source_dir) as [rel|] eqn:Hrel.
  - apply relative_to_spec in Hrel as ->.
    destruct (PathLib.with_suffix rel ".pdf") as [pdf|] eqn:Hpdf.
    + apply with_suffix_some in Hpdf as (Hname & stem' & -> & Hpre).
      rewrite !app_assoc, removelast_last, <- !app_assoc.
      destruct (mkdir (output_dir ++ removelast rel)) eqn:Hmk.
      * split.
        -- split; [done|]. intros H. exfalso. apply H. by exists rel.
        -- intros pdf' [= <-]. by exists rel, stem'.
      * split; [|done]. split; [|done].
        intros _ (rel' & Heq & _ & Hmk'). apply app_inv_head in Heq as <-. congruence.
    + apply with_suffix_none in Hpdf. split; [|done]. split; [|done].
      intros _ (rel' & Heq & Hname & _). apply app_inv_head in Heq as <-. done.
  - split; [|done]. split; [|done]. intros _ (rel & Heq & _).
    apply relative_to_spec in Heq. congruence.
Qed.

(** X24. Two inputs below the source root whose names are of the form
    [x.ext], [x] not empty, get the same output path only if they lie in the
    same directory and have the same [x]: they differ at most in the
    extension. *)
Theorem X24_output_paths_differ
    (source_dir output_dir rel rel' : PathLib.Path) (x ext x' ext' : string) :
  x ≠ EmptyString → ext ≠ EmptyString → Py.char_in "." ext = false →
  x' ≠ EmptyString → ext' ≠ EmptyString → Py.char_in "." ext' = false →
  output_path source_dir output_dir (source_dir ++ rel ++ [x +:+ String "." ext])
  = output_path source_dir output_dir (source_dir ++ rel' ++ [x' +:+ String "." ext']) →
  rel = rel' ∧ x = x'.
Proof.
  intros Hx Hext Hdot Hx' Hext' Hdot'. rewrite !output_path_mirror by done.
  intros [= H]. apply app_inv_head, app_inj_tail in H as [-> H].
  split; [done|]. by apply append_inj_l in H.
Qed.

(** An instance of X24. *)
Lemma X24_output_paths_differ_witness :
  ["a"] = ["a"] ∧ "book" = "book".
Proof.
  apply (X24_output_paths_differ ["books"] ["output_book"] ["a"] ["a"]
           "book" "epub" "book" "epub");
    first [discriminate | reflexivity].
Defined.

(** Outside the hypothesis of X24: a name without text before its only dot
    has no suffix, and collides with the name that repeats the extension. *)
Example hidden_name_collides :
  output_path ["books"] ["output_book"] ["books"; ".epub"]
  = output_path ["books"] ["output_book"] ["books"; ".epub.epub"].
Proof. reflexivity. Qed.

(** *** The title *)

Section TitleMore.

Lemma basename_of_file dir n :
  Py.char_in "/" n = false → basename (dir +:+ String "/" n) = n.
Proof.
  intros Hn. unfold basename.
  by rewrite split_app, (split_absent "/" n Hn), neg1_snoc.
Qed.

Lemma stem_of_file dir x ext :
  x ≠ EmptyString → Py.char_in "/" x = false →
  ext ≠ EmptyString → Py.char_in "." ext = false → Py.char_in "/" ext = false →
  stem (dir +:+ String "/" (x +:+ String "." ext)) = x.
Proof.
  intros Hx Hxs Hext Hdot Hes. unfold stem. cbv zeta.
  rewrite basename_of_file.
  2:{ rewrite char_in_app, Hxs. cbn [Py.char_in]. by rewrite Hes. }
  rewrite split_app, (split_absent "." ext Hdot).
  rewrite removelast_last, neg1_snoc, join_dot_sep_join, join_split.
  rewrite length_app. cbn [length].
  pose proof (length_split_pos "." x) as Hlen.
  replace (2 <=? length (Py.split "." x) + 1) with true
    by (symmetry; apply Nat.leb_le; lia).
  by destruct x, ext.
Qed.

End TitleMore.

(** X25. The title of the assembled document is the first title of the
    package metadata; for a package without a title it is the name of the
    file without its directories and without its extension. *)
Theorem X25_title_fallback (book : Book) (dir x ext : string) :
  x ≠ EmptyString → Py.char_in "/" x = false →
  ext ≠ EmptyString → Py.char_in "." ext = false → Py.char_in "/" ext = false →
  title_of (dir +:+ String "/" (x +:+ String "." ext)) book
  = match dc_title book with
    | t :: _ => t
    | [] => x
    end.
Proof.
  intros Hx Hxs Hext Hdot Hes. unfold title_of.
  destruct (dc_title book); [by apply stem_of_file | done].
Qed.

(** An instance of X25: a package without metadata. *)
Lemma X25_title_fallback_witness :
  title_of ("books/a" +:+ String "/" ("vol.1" +:+ String "." "epub")) (many_images 2)
  = match dc_title (many_images 2) with
    | t :: _ => t
    | [] => "vol.1"
    end.
Proof.
  apply X25_title_fallback; first [discriminate | reflexivity].
Defined.
